(** * Priam: backup and restore orchestration (src/priam/priam.go)

    A shallow embedding of the [Priam] object of go-prium: the methods
    [Backup], [schemaBackup], [SnapshotHistory], [NewTimestamp], [Restore],
    [deleteKeyspace], [createSchema], [loadSnapshot] and [uploadFilesToHost],
    written as programs of a small state-and-error monad, followed by the
    properties of the orchestration that the specification states.

    The agent, the Cassandra driver, the S3 client and the snapshot history
    are collaborators whose code lives outside priam.go.  Every call that
    priam.go makes to one of them appends an [Event] to a trace and takes its
    result from an oracle that may depend on the shared configuration and on
    everything that happened before.  Logging calls (glog) have no effect on
    the control flow and are left out. *)

From Stdlib Require Import String Ascii List Bool Arith Lia.
From stdpp Require Import base option list strings gmap fin_maps.
Import ListNotations.

Local Open Scope string_scope.
Local Open Scope list_scope.

(** ** Go's standard library, as far as priam.go uses it *)

(** Go compares strings byte-wise, lexicographically: [a > b]. *)
Definition string_gt (a b : string) : bool := String.ltb b a.

Module strings.

Fixpoint HasSuffix (s suffix : string) : bool :=
  if String.eqb s suffix then true
  else match s with
       | EmptyString => false
       | String _ s' => HasSuffix s' suffix
       end.

(** [TrimSuffix s suffix]: [s] without the trailing [suffix], or [s]. *)
Definition TrimSuffix (s suffix : string) : string :=
  if HasSuffix s suffix
  then String.substring 0 (String.length s - String.length suffix) s
  else s.

Fixpoint Join (elems : list string) (sep : string) : string :=
  match elems with
  | [] => ""
  | [e] => e
  | e :: rest => e ++ sep ++ Join rest sep
  end.

End strings.

Module path.

Definition slash : ascii := "/"%char.

(** The elements of a path between its slashes. *)
Fixpoint elements (p : string) : list string :=
  match p with
  | EmptyString => [EmptyString]
  | String c p' =>
      if Ascii.eqb c slash then EmptyString :: elements p'
      else match elements p' with
           | [] => [String c EmptyString]
           | e :: es => String c e :: es
           end
  end.

Definition rooted (p : string) : bool :=
  match p with
  | String c _ => Ascii.eqb c slash
  | EmptyString => false
  end.

(** One element of [Clean]'s scan; [out] holds the elements kept so far,
    the last one first. *)
Definition clean_elem (root : bool) (out : list string) (e : string)
  : list string :=
  if String.eqb e "" then out
  else if String.eqb e "." then out
  else if String.eqb e ".." then
    match out with
    | top :: below => if String.eqb top ".." then e :: out else below
    | [] => if root then [] else [e]
    end
  else e :: out.

(** [Clean]: no empty and no "." element, ".." resolved against the
    element before it, "." for the empty result. *)
Definition Clean (p : string) : string :=
  let root := rooted p in
  let kept := rev (fold_left (clean_elem root) (elements p) []) in
  if root then String slash (strings.Join kept "/")
  else match kept with
       | [] => "."
       | _ => strings.Join kept "/"
       end.

Definition has_slash (p : string) : bool :=
  existsb (Ascii.eqb slash) (list_ascii_of_string p).

(** The part of [p] up to and including its last slash ([Split]). *)
Fixpoint dir_part (p : string) : string :=
  match p with
  | EmptyString => EmptyString
  | String c p' => if has_slash p then String c (dir_part p') else EmptyString
  end.

Definition Dir (p : string) : string := Clean (dir_part p).

Definition Join (a b : string) : string :=
  if String.eqb a "" then (if String.eqb b "" then "" else Clean b)
  else Clean (a ++ "/" ++ b).

End path.

(** ** Errors *)

(** [fmt.Errorf] makes a fresh error from a message; [errors.Wrap] and
    [errors.Wrapf] put a message in front of a cause. *)
Inductive error : Type :=
| Errorf (msg : string)
| Wrap (cause : error) (msg : string).

Fixpoint Error (e : error) : string :=
  match e with
  | Errorf msg => msg
  | Wrap cause msg => msg ++ ": " ++ Error cause
  end.

(** The error at the root of a chain of wraps ([errors.Cause]). *)
Fixpoint Cause (e : error) : error :=
  match e with
  | Errorf msg => Errorf msg
  | Wrap cause _ => Cause cause
  end.

(** [wraps e0 e]: [e] is [e0] under zero or more [errors.Wrap]. *)
Inductive wraps (e0 : error) : error -> Prop :=
| wraps_here : wraps e0 e0
| wraps_more e msg : wraps e0 e -> wraps e0 (Wrap e msg).

(** ** Configuration *)

(** The fields of [Config] that priam.go reads or writes. *)
Record Config : Type := mkConfig {
  AwsBasePath : string;
  Keyspace : string;
  Incremental : bool;
  Snapshot : string;
  CqlshPath : string;
  TempDir : string
}.

Definition set_Incremental (b : bool) (c : Config) : Config :=
  {| AwsBasePath := AwsBasePath c; Keyspace := Keyspace c; Incremental := b;
     Snapshot := Snapshot c; CqlshPath := CqlshPath c; TempDir := TempDir c |}.

(** ** Calls to the collaborators *)

Inductive Event : Type :=
| EvHosts                                                   (* cassandra.Hosts() *)
| EvS3SnapshotHistory                                       (* s3.SnapshotHistory() *)
| EvTimeNow                                                 (* time.Now() *)
| EvPrintf (text : string)                                  (* fmt.Printf *)
| EvSchemaBackup (host : string)                            (* cassandra.SchemaBackup *)
| EvS3UploadFile (host file key : string)                   (* s3.UploadFile *)
| EvSnapshot (host timestamp : string)                      (* cassandra.Snapshot *)
| EvS3UploadFiles (parent timestamp host : string) (files : list string)
                                                            (* s3.UploadFiles *)
| EvDeleteSnapshot (host : string) (dirs : list string)     (* cassandra.deleteSnapshot *)
| EvAgentRun (host cmd : string)                            (* agent.Run *)
| EvAgentUploadFile (host localFile remoteDir : string)     (* agent.UploadFile *)
| EvS3DownloadKey (key localDir : string)                   (* s3.downloadKey *)
| EvS3DownloadKeys (keys : gmap string string) (localDir : string)
                                                            (* s3.downloadKeys *)
| EvSstableload (host : string) (dirs : gmap string bool).  (* cassandra.sstableload *)

(** Kinds of collaborator calls. *)
Definition per_host_op (ev : Event) : bool :=
  match ev with
  | EvSnapshot _ _ | EvS3UploadFiles _ _ _ _ | EvDeleteSnapshot _ _ => true
  | _ => false
  end.

Definition schema_backup_op (ev : Event) : bool :=
  match ev with
  | EvSchemaBackup _ | EvS3UploadFile _ _ _ => true
  | _ => false
  end.

Definition is_drop (ev : Event) : bool :=
  match ev with
  | EvAgentRun _ cmd => String.prefix "echo 'DROP KEYSPACE" cmd
  | _ => false
  end.

(** The calls by which [Restore] recreates the schema and loads the data. *)
Definition restore_step (ev : Event) : bool :=
  match ev with
  | EvS3DownloadKey _ _ | EvAgentUploadFile _ _ _ | EvS3DownloadKeys _ _
  | EvSstableload _ _ => true
  | EvAgentRun _ cmd => String.prefix "cat " cmd
  | _ => false
  end.

(** Calls that only ask: the hosts, the history, the clock. *)
Definition query_op (ev : Event) : bool :=
  match ev with
  | EvHosts | EvS3SnapshotHistory | EvTimeNow => true
  | _ => false
  end.

(** The methods of [*SnapshotHistory] that priam.go calls. *)
Class HistoryMethods (H : Type) : Type := {
  List : H -> list string;
  Valid : H -> string -> bool;
  Parent : H -> string -> string;
  Keys : H -> string -> gmap string string + error;
  HistString : H -> string   (* the String method, used by Printf *)
}.

(** What the collaborators answer.  Each oracle sees the shared [Config]
    (the agent, the driver and the S3 client are built from the same pointer)
    and the calls made so far; none of them writes the configuration.
    [time_Now] is the clock's reading in the layout 2006-01-02_150405.  The
    files and directories that [cassandra.Snapshot] returns are only handed on
    by priam.go; they are lists of paths here.  [mapiter] is the order in
    which a [range] over a Go map visits it: any order, every entry once. *)
Record Collaborators (H : Type) : Type := {
  cassandra_Hosts : Config -> list Event -> list string;
  s3_SnapshotHistory : Config -> list Event -> H + error;
  time_Now : list Event -> string;
  cassandra_SchemaBackup : Config -> list Event -> string -> string + error;
  s3_UploadFile : Config -> list Event -> string -> string -> string -> option error;
  cassandra_Snapshot :
    Config -> list Event -> string -> string -> (list string * list string) + error;
  s3_UploadFiles :
    Config -> list Event -> string -> string -> string -> list string -> option error;
  cassandra_deleteSnapshot : Config -> list Event -> string -> list string -> option error;
  agent_Run : Config -> list Event -> string -> string -> string + error;
  agent_UploadFile : Config -> list Event -> string -> string -> string -> option error;
  s3_downloadKey : Config -> list Event -> string -> string -> string + error;
  s3_downloadKeys :
    Config -> list Event -> gmap string string -> string -> gmap string string + error;
  cassandra_sstableload : Config -> list Event -> string -> gmap string bool -> option error;
  mapiter : list Event -> gmap string string -> list (string * string);
  mapiter_perm : forall t m, mapiter t m ≡ₚ map_to_list m
}.

Arguments cassandra_Hosts {H}.
Arguments s3_SnapshotHistory {H}.
Arguments time_Now {H}.
Arguments cassandra_SchemaBackup {H}.
Arguments s3_UploadFile {H}.
Arguments cassandra_Snapshot {H}.
Arguments s3_UploadFiles {H}.
Arguments cassandra_deleteSnapshot {H}.
Arguments agent_Run {H}.
Arguments agent_UploadFile {H}.
Arguments s3_downloadKey {H}.
Arguments s3_downloadKeys {H}.
Arguments cassandra_sstableload {H}.
Arguments mapiter {H}.
Arguments mapiter_perm {H}.

(** ** The Priam object and its monad *)

(** [config] is the shared configuration object, [hist] the cached history
    ([None] is Go's nil), [trace] the collaborator calls made so far. *)
Record Priam (H : Type) : Type := mkPriam {
  config : Config;
  hist : option H;
  trace : list Event
}.

Arguments mkPriam {H}.
Arguments config {H}.
Arguments hist {H}.
Arguments trace {H}.

(** How a call ends: a value (for a Go function that returns only [error],
    [Ret tt] is the nil error), an error, or a run-time panic (index out of
    range, nil dereference). *)
Inductive outcome (A : Type) : Type :=
| Ret (a : A)
| Fail (e : error)
| Panic.

Arguments Ret {A}.
Arguments Fail {A}.
Arguments Panic {A}.

Section Monad.

Context {H : Type}.

Definition M (A : Type) : Type := Priam H -> outcome A * Priam H.

Definition ret {A} (a : A) : M A := fun p => (Ret a, p).

Definition fail {A} (e : error) : M A := fun p => (Fail e, p).

Definition panic {A} : M A := fun p => (Panic, p).

Definition bind {A B} (m : M A) (k : A -> M B) : M B :=
  fun p =>
    match m p with
    | (Ret a, p') => k a p'
    | (Fail e, p') => (Fail e, p')
    | (Panic, p') => (Panic, p')
    end.

(** [if err := m; err != nil { return errors.Wrap(err, msg) }] *)
Definition wrap {A} (msg : string) (m : M A) : M A :=
  fun p =>
    match m p with
    | (Fail e, p') => (Fail (Wrap e msg), p')
    | r => r
    end.

Definition getConfig : M Config := fun p => (Ret (config p), p).

(** [p.hist], dereferenced. *)
Definition getHist : M H :=
  fun p => match hist p with
           | Some h => (Ret h, p)
           | None => (Panic, p)
           end.

Definition setHist (h : H) : M unit :=
  fun p => (Ret tt, mkPriam (config p) (Some h) (trace p)).

Definition setIncremental (b : bool) : M unit :=
  fun p => (Ret tt, mkPriam (set_Incremental b (config p)) (hist p) (trace p)).

(** [l[i]] on a slice. *)
Definition index {A} (l : list A) (i : nat) : M A :=
  match l !! i with
  | Some a => ret a
  | None => panic
  end.

Definition emit (ev : Event) (p : Priam H) : Priam H :=
  mkPriam (config p) (hist p) (trace p ++ [ev]).

(** A collaborator call that returns [(value, error)]. *)
Definition call {A} (ev : Event) (oracle : Config -> list Event -> A + error) : M A :=
  fun p =>
    match oracle (config p) (trace p) with
    | inl a => (Ret a, emit ev p)
    | inr e => (Fail e, emit ev p)
    end.

(** A collaborator call that returns only [error]. *)
Definition call_ (ev : Event) (oracle : Config -> list Event -> option error) : M unit :=
  fun p =>
    match oracle (config p) (trace p) with
    | None => (Ret tt, emit ev p)
    | Some e => (Fail e, emit ev p)
    end.

(** [for _, x := range l { body }] over a slice. *)
Fixpoint range {A} (l : list A) (body : A -> M unit) : M unit :=
  match l with
  | [] => ret tt
  | x :: rest => bind (body x) (fun _ => range rest body)
  end.

(** A [range] loop that updates a local variable [acc]. *)
Fixpoint range_acc {A B} (l : list A) (acc : B) (body : A -> B -> M B) : M B :=
  match l with
  | [] => ret acc
  | x :: rest => bind (body x acc) (fun acc' => range_acc rest acc' body)
  end.

End Monad.

Arguments M : clear implicits.

Declare Scope priam_scope.
Delimit Scope priam_scope with priam.
Notation "x <- m ;; k" := (bind m (fun x => k))
  (at level 100, m at next level, right associativity) : priam_scope.
Notation "m ;;; k" := (bind m (fun _ => k))
  (at level 100, right associativity) : priam_scope.

Local Open Scope priam_scope.

(** ** The methods of [Priam] *)

Section Methods.

Context {H : Type} `{!HistoryMethods H} (c : Collaborators H).

(** The key of the schema file, as [schemaBackup] formats it. *)
Definition schemaBackup_key (cfg : Config) (parent timestamp : string) : string :=
  "/" ++ AwsBasePath cfg ++ "/" ++ Keyspace cfg ++ "/" ++ parent ++ "/"
      ++ timestamp ++ "/" ++ Keyspace cfg ++ ".schema.gz".

(** The key of the schema file, as [createSchema] formats it. *)
Definition createSchema_key (cfg : Config) (parent snapshot : string) : string :=
  "/" ++ AwsBasePath cfg ++ "/" ++ Keyspace cfg ++ "/" ++ parent ++ "/"
      ++ snapshot ++ "/" ++ Keyspace cfg ++ ".schema.gz".

(** The command of [deleteKeyspace]. *)
Definition dropKeyspace_cmd (cfg : Config) : string :=
  "echo 'DROP KEYSPACE IF EXISTS " ++ Keyspace cfg ++ ";' | " ++ CqlshPath cfg.

(** The command by which [createSchema] applies the schema file. *)
Definition createSchema_cmd (cfg : Config) (remoteFile : string) : string :=
  "cat " ++ remoteFile ++ " | " ++ CqlshPath cfg.

Definition localTmpDir (cfg : Config) : string := TempDir cfg ++ "/local".
Definition remoteTmpDir (cfg : Config) : string := TempDir cfg ++ "/remote".

(** [New]: a Priam object with no history cached and no call made yet. *)
Definition New (config : Config) : Priam H := mkPriam config None [].

(** [SnapshotHistory] (priam.go:130-141) loads the history from S3 unless it
    is cached. *)
Definition SnapshotHistory : M H unit :=
  fun p =>
    match hist p with
    | Some _ => ret tt p
    | None =>
        (h <- wrap "error getting snapshot history"
               (call EvS3SnapshotHistory (s3_SnapshotHistory c)) ;;
         setHist h) p
    end.

(** [p.cassandra.Hosts()] *)
Definition cassandra_Hosts' : M H (list string) :=
  fun p => (Ret (cassandra_Hosts c (config p) (trace p)), emit EvHosts p).

(** [History] (priam.go:33-41) prints the list of backups. *)
Definition History : M H unit :=
  wrap "error getting snapshot history" SnapshotHistory ;;;
  h <- getHist ;;
  fun p => (Ret tt, emit (EvPrintf ("backup list:" ++ String "010"%char (HistString h))) p).

(** [NewTimestamp] (priam.go:147-149) reads the clock. *)
Definition NewTimestamp : M H string :=
  fun p => (Ret (time_Now c (trace p)), emit EvTimeNow p).

(** [schemaBackup] (priam.go:110-127) *)
Definition schemaBackup (parent timestamp host : string) : M H unit :=
  schemaFile <- wrap "schema backup"
                  (call (EvSchemaBackup host)
                     (fun cfg t => cassandra_SchemaBackup c cfg t host)) ;;
  cfg <- getConfig ;;
  let key := schemaBackup_key cfg parent timestamp in
  wrap ("schema upload @ " ++ host)
    (call_ (EvS3UploadFile host schemaFile key)
       (fun cfg t => s3_UploadFile c cfg t host schemaFile key)).

(** One turn of the loop of [Backup] over the hosts (priam.go:88-106). *)
Definition Backup_host (parent timestamp host : string) : M H unit :=
  fd <- wrap ("snapshot @ " ++ host)
          (call (EvSnapshot host timestamp)
             (fun cfg t => cassandra_Snapshot c cfg t host timestamp)) ;;
  let files := fst fd in
  let dirs := snd fd in
  wrap ("upload @ " ++ host)
    (call_ (EvS3UploadFiles parent timestamp host files)
       (fun cfg t => s3_UploadFiles c cfg t parent timestamp host files)) ;;;
  wrap ("delete @ " ++ host)
    (call_ (EvDeleteSnapshot host dirs)
       (fun cfg t => cassandra_deleteSnapshot c cfg t host dirs)).

(** [Backup] up to the schema backup (priam.go:49-79): the hosts, the
    history, the new timestamp, the check against the last snapshot and the
    choice of the parent.  Returns the local variables [hosts], [timestamp],
    [parent]. *)
Definition Backup_prepare : M H (list string * string * string) :=
  hosts <- cassandra_Hosts' ;;
  if (List.length hosts =? 0)%nat
  then fail (Errorf "unable to get any cassandra hosts")
  else
    wrap "error getting snapshot history" SnapshotHistory ;;;
    timestamp <- NewTimestamp ;;
    let parent := timestamp in
    h <- getHist ;;
    let snapshots := List h in
    stale <- (if (0 <? List.length snapshots)%nat
              then (newest <- index snapshots (List.length snapshots - 1) ;;
                    ret (string_gt newest timestamp))
              else ret false) ;;
    if (stale : bool)
    then fail (Errorf ("new timestamp " ++ timestamp ++ " less than last"))
    else
      cfg <- getConfig ;;
      parent <- (if (0 <? List.length snapshots)%nat && Incremental cfg
                 then index snapshots (List.length snapshots - 1)
                 else (setIncremental false ;;; ret parent)) ;;
      ret (hosts, timestamp, parent).

(** [Backup] (priam.go:45-108): [Backup_prepare], then the schema backup on
    the first host, then the loop over the hosts. *)
Definition Backup : M H unit :=
  vars <- Backup_prepare ;;
  let hosts := fst (fst vars) in
  let timestamp := snd (fst vars) in
  let parent := snd vars in
  host0 <- index hosts 0 ;;
  wrap "schema backup failed" (schemaBackup parent timestamp host0) ;;;
  range hosts (Backup_host parent timestamp).

(** [deleteKeyspace] (priam.go:205-214) *)
Definition deleteKeyspace (host : string) : M H unit :=
  cfg <- getConfig ;;
  let cmd := dropKeyspace_cmd cfg in
  call (EvAgentRun host cmd) (fun cfg t => agent_Run c cfg t host cmd) ;;;
  ret tt.

(** [createSchema] (priam.go:217-250) *)
Definition createSchema (host snapshot : string) : M H unit :=
  h <- getHist ;;
  let parent := Parent h snapshot in
  cfg <- getConfig ;;
  let key := createSchema_key cfg parent snapshot in
  let localTmpDir := localTmpDir cfg in
  let remoteTmpDir := remoteTmpDir cfg in
  localFile <- wrap "error downloading schema key"
                 (call (EvS3DownloadKey key localTmpDir)
                    (fun cfg t => s3_downloadKey c cfg t key localTmpDir)) ;;
  let remoteFile := strings.TrimSuffix (path.Join remoteTmpDir key) ".gz" in
  wrap "error uploading file"
    (call_ (EvAgentUploadFile host localFile (path.Dir remoteFile))
       (fun cfg t => agent_UploadFile c cfg t host localFile (path.Dir remoteFile))) ;;;
  let cmd := createSchema_cmd cfg remoteFile in
  wrap "failed creating schema"
    (call (EvAgentRun host cmd) (fun cfg t => agent_Run c cfg t host cmd)) ;;;
  ret tt.

(** The body of the loop of [uploadFilesToHost] (priam.go:291-297). *)
Definition uploadFilesToHost_body (host remoteTmpDir : string)
    (entry : string * string) (dirs : gmap string bool) : M H (gmap string bool) :=
  let key := fst entry in
  let localFile := snd entry in
  let remoteDir := path.Dir (remoteTmpDir ++ "/" ++ key) in
  wrap "error uploading backup files to host"
    (call_ (EvAgentUploadFile host localFile remoteDir)
       (fun cfg t => agent_UploadFile c cfg t host localFile remoteDir)) ;;;
  ret (<[remoteDir := true]> dirs).

(** [uploadFilesToHost] (priam.go:286-300) *)
Definition uploadFilesToHost (host remoteTmpDir : string)
    (files : gmap string string) : M H (gmap string bool) :=
  fun p =>
    let dirs : gmap string bool := ∅ in
    range_acc (mapiter c (trace p) files) dirs
      (uploadFilesToHost_body host remoteTmpDir) p.

(** [loadSnapshot] (priam.go:253-282) *)
Definition loadSnapshot (host snapshot : string) : M H unit :=
  cfg <- getConfig ;;
  let localTmpDir := localTmpDir cfg in
  let remoteTmpDir := remoteTmpDir cfg in
  h <- getHist ;;
  keys <- wrap "failed to get all keys"
            (match Keys h snapshot with
             | inl keys => ret keys
             | inr err => fail err
             end) ;;
  files <- wrap "error downloading keys"
             (call (EvS3DownloadKeys keys localTmpDir)
                (fun cfg t => s3_downloadKeys c cfg t keys localTmpDir)) ;;
  dirs <- wrap "could not upload files to host"
            (uploadFilesToHost host remoteTmpDir files) ;;
  wrap "failed to run sstableloader"
    (call_ (EvSstableload host dirs)
       (fun cfg t => cassandra_sstableload c cfg t host dirs)).

(** [Restore] up to the drop of the keyspace (priam.go:158-185): the hosts,
    the history, the choice of the target and its validation.  Returns the
    local variables [hosts] and [snapshot]. *)
Definition Restore_prepare : M H (list string * string) :=
  hosts <- cassandra_Hosts' ;;
  if (List.length hosts =? 0)%nat
  then fail (Errorf "did not find valid cassandra hosts")
  else
    cfg <- getConfig ;;
    let snapshot := Snapshot cfg in
    SnapshotHistory ;;;
    h <- getHist ;;
    snapshot <- (if String.eqb snapshot ""
                 then (let snapshots := List h in
                       if (0 <? List.length snapshots)%nat
                       then index snapshots (List.length snapshots - 1)
                       else ret snapshot)
                 else ret snapshot) ;;
    if String.eqb snapshot ""
    then fail (Errorf "no existing backup to restore from")
    else if negb (Valid h snapshot)
    then fail (Errorf (snapshot ++ " is not a valid snapshot"))
    else ret (hosts, snapshot).

(** [Restore] (priam.go:154-202): [Restore_prepare], then the drop of the
    keyspace, the schema and the data, all on the first host. *)
Definition Restore : M H unit :=
  vars <- Restore_prepare ;;
  let hosts := fst vars in
  let snapshot := snd vars in
  host0 <- index hosts 0 ;;
  wrap "error deleting keyspace" (deleteKeyspace host0) ;;;
  host0 <- index hosts 0 ;;
  wrap "error creating schema" (createSchema host0 snapshot) ;;;
  host0 <- index hosts 0 ;;
  wrap "error loading snapshot" (loadSnapshot host0 snapshot).

End Methods.

(** ** Notions for the properties of runs *)

Section Notions.

Context {H : Type} `{!HistoryMethods H} (c : Collaborators H).

(** The error, if any, with which the collaborators answer the call [ev]
    made after the calls [t]. *)
Definition oracle_error (cfg : Config) (t : list Event) (ev : Event) : option error :=
  let err {A} (r : A + error) := match r with inl _ => None | inr e => Some e end in
  match ev with
  | EvHosts | EvTimeNow | EvPrintf _ => None
  | EvS3SnapshotHistory => err (s3_SnapshotHistory c cfg t)
  | EvSchemaBackup host => err (cassandra_SchemaBackup c cfg t host)
  | EvS3UploadFile host file key => s3_UploadFile c cfg t host file key
  | EvSnapshot host ts => err (cassandra_Snapshot c cfg t host ts)
  | EvS3UploadFiles parent ts host files => s3_UploadFiles c cfg t parent ts host files
  | EvDeleteSnapshot host dirs => cassandra_deleteSnapshot c cfg t host dirs
  | EvAgentRun host cmd => err (agent_Run c cfg t host cmd)
  | EvAgentUploadFile host file dir => agent_UploadFile c cfg t host file dir
  | EvS3DownloadKey key dir => err (s3_downloadKey c cfg t key dir)
  | EvS3DownloadKeys keys dir => err (s3_downloadKeys c cfg t keys dir)
  | EvSstableload host dirs => cassandra_sstableload c cfg t host dirs
  end.

(** The run that ended in [p] with error [e] stopped at a failing call:
    the last call of the trace is the one that failed, and [e] is its
    error, wrapped. *)
Definition stopped_at (p : Priam H) (e : error) : Prop :=
  exists t ev e0,
    trace p = t ++ [ev] /\ oracle_error (config p) t ev = Some e0 /\ wraps e0 e.

(** [does P m]: once the history is loaded, [m] leaves the configuration
    and the cached history as they are, makes only calls that satisfy [P],
    does not panic, and when it fails it has stopped at a failing call. *)
Definition does (P : Event -> Prop) {A} (m : M H A) : Prop :=
  forall p r p', is_Some (hist p) -> m p = (r, p') ->
    config p' = config p /\ hist p' = hist p /\
    (exists evs, trace p' = trace p ++ evs /\ Forall P evs) /\
    r <> Panic /\
    (forall e, r = Fail e -> stopped_at p' e).

(** [ready p hosts h p1]: a run started in [p] finds the hosts [hosts],
    at least one, and then has the history [h], cached or loaded now, in
    state [p1]. *)
Definition ready (p : Priam H) (hosts : list string) (h : H) (p1 : Priam H) : Prop :=
  cassandra_Hosts c (config p) (trace p) = hosts /\ hosts <> [] /\
  SnapshotHistory c (emit EvHosts p) = (Ret tt, p1) /\ hist p1 = Some h.

(** One host: the three calls in order, or the calls up to the failing
    one and an error that names the host. *)
Definition host_block (parent ts host : string) (evs : list Event) : Prop :=
  exists files dirs,
    evs = [EvSnapshot host ts; EvS3UploadFiles parent ts host files;
           EvDeleteSnapshot host dirs].

Definition host_failure (parent ts host : string) (evs : list Event) (e : error) : Prop :=
  (exists e0, evs = [EvSnapshot host ts] /\ e = Wrap e0 ("snapshot @ " ++ host))
  \/ (exists files e0,
        evs = [EvSnapshot host ts; EvS3UploadFiles parent ts host files]
        /\ e = Wrap e0 ("upload @ " ++ host))
  \/ (exists files dirs e0,
        evs = [EvSnapshot host ts; EvS3UploadFiles parent ts host files;
               EvDeleteSnapshot host dirs]
        /\ e = Wrap e0 ("delete @ " ++ host)).

(** The loop over [hosts]: the hosts [finished] went through their three
    calls, in the order of the list; then either the list was exhausted,
    or the next host failed and none of the hosts after it was touched. *)
Definition hosts_outcome (parent ts : string) (hosts : list string)
    (r : outcome unit) (evs : list Event) : Prop :=
  exists finished blocks,
    Forall2 (host_block parent ts) finished blocks /\
    ((r = Ret tt /\ finished = hosts /\ evs = concat blocks)
     \/ (exists host later tail e,
           hosts = finished ++ host :: later /\ r = Fail e /\
           host_failure parent ts host tail e /\ evs = concat blocks ++ tail)).

(** The three steps of [Restore] after [Restore_prepare]. *)
Definition Restore_steps (host0 snapshot : string) : M H unit :=
  wrap "error deleting keyspace" (deleteKeyspace c host0) ;;;
  wrap "error creating schema" (createSchema c host0 snapshot) ;;;
  wrap "error loading snapshot" (loadSnapshot c host0 snapshot).

(** The local variable [dirs] after the loop of [uploadFilesToHost] over
    the entries [l], starting from [acc]. *)
Definition dirs_after (remoteTmpDir : string) (l : list (string * string))
    (acc : gmap string bool) : gmap string bool :=
  foldl (fun acc entry => <[path.Dir (remoteTmpDir ++ "/" ++ entry.1)%string := true]> acc)
        acc l.

(** The operations of a run. *)
Definition operations : list (M H unit) :=
  [SnapshotHistory c; History c; Backup c; Restore c].

End Notions.

(** ** Further notions: kinds of calls and the uploads of a restore *)

Definition is_history_query (ev : Event) : bool :=
  match ev with
  | EvS3SnapshotHistory => true
  | _ => false
  end.

Definition is_printf (ev : Event) : bool :=
  match ev with
  | EvPrintf _ => true
  | _ => false
  end.

(** The calls that a backup may make. *)
Definition backup_call (ev : Event) : bool :=
  query_op ev || schema_backup_op ev || per_host_op ev.

(** The calls that a restore may make. *)
Definition restore_call (ev : Event) : bool :=
  match ev with
  | EvHosts | EvS3SnapshotHistory => true
  | _ => is_drop ev || restore_step ev
  end.

(** The call by which [uploadFilesToHost] copies one entry of its map. *)
Definition upload_event (host remoteTmpDir : string) (entry : string * string) : Event :=
  EvAgentUploadFile host entry.2 (path.Dir (remoteTmpDir ++ "/" ++ entry.1)%string).

Section MoreNotions.

Context {H : Type} (c : Collaborators H).

(** Where a call to delete a local snapshot can stand in the trace. *)
Definition delete_follows_upload (cfg : Config) (t0 t : list Event)
    (host : string) (dirs : list string) (post : list Event) : Prop :=
  (exists post0, t0 = t ++ EvDeleteSnapshot host dirs :: post0)
  \/ (exists t' parent ts files,
        t = t' ++ [EvSnapshot host ts; EvS3UploadFiles parent ts host files] /\
        cassandra_Snapshot c cfg t' host ts = inl (files, dirs) /\
        s3_UploadFiles c cfg (t' ++ [EvSnapshot host ts]) parent ts host files = None).

End MoreNotions.

(** ** Runs that stop at the first call that fails *)

Section Aborting.

Context {H : Type} (c : Collaborators H).

(** Whether every one of the calls [evs], made in this order after the
    calls [t], is answered without error. *)
Fixpoint all_ok (cfg : Config) (t evs : list Event) : bool :=
  match evs with
  | [] => true
  | ev :: evs' =>
      match oracle_error c cfg t ev with
      | None => all_ok cfg (t ++ [ev]) evs'
      | Some _ => false
      end
  end.

(** [first_failure cfg t evs r]: the calls [evs] were made after [t] and
    the outcome was [r].  On return every call was answered without error.
    On failure every call but the last was answered without error, the last
    one was answered with an error, and the failure is that error,
    wrapped. *)
Definition first_failure (cfg : Config) (t evs : list Event) {A} (r : outcome A) : Prop :=
  match r with
  | Ret _ => all_ok cfg t evs = true
  | Fail e =>
      exists pre ev e0,
        evs = pre ++ [ev] /\ all_ok cfg t pre = true /\
        oracle_error c cfg (t ++ pre) ev = Some e0 /\ wraps e0 e
  | Panic => False
  end.

(** [aborts m]: once the history is loaded, [m] leaves the configuration
    and the cached history as they are, goes on after a call only when
    that call was answered without error, and fails exactly when a call
    was answered with an error, with that error. *)
Definition aborts {A} (m : M H A) : Prop :=
  forall p r p', is_Some (hist p) -> m p = (r, p') ->
    config p' = config p /\ hist p' = hist p /\
    exists evs, trace p' = trace p ++ evs /\
                first_failure (config p) (trace p) evs r.

End Aborting.

(** The step of the loop of [Backup] that the call [ev] is for [host], and
    the message under which its error is returned. *)
Definition failed_step (parent ts host : string) (ev : Event) (msg : string) : Prop :=
  (ev = EvSnapshot host ts /\ msg = "snapshot @ " ++ host)%string
  \/ (exists files, ev = EvS3UploadFiles parent ts host files
                    /\ msg = "upload @ " ++ host)%string
  \/ (exists dirs, ev = EvDeleteSnapshot host dirs /\ msg = "delete @ " ++ host)%string.

(** The calls by which [loadSnapshot] fetches and loads the data. *)
Definition data_step (ev : Event) : bool :=
  match ev with
  | EvS3DownloadKeys _ _ | EvSstableload _ _ => true
  | _ => false
  end.

(** ** A concrete history and scripted collaborators *)

Module Scenario.

(** Modelled from the spec: the type [SnapshotHistory] and its methods
    [List], [Valid], [Parent] and [Keys], which priam.go calls and which are
    declared elsewhere in the repository.  A history is the list of its
    records in ascending order of timestamp; a full backup is its own
    parent; [Keys] collects the data keys along the chain of parents up to
    the full backup. *)
Record SnapshotRecord : Type := mkRecord {
  timestamp : string;
  parentTimestamp : string;
  dataKeys : gmap string string
}.

(** Modelled from the spec: the history, an ordered collection of records,
    ascending by timestamp. *)
Definition History : Type := list SnapshotRecord.

Definition lookup_record (h : History) (ts : string) : option SnapshotRecord :=
  find (fun r => String.eqb (timestamp r) ts) h.

(** Modelled from the spec: [List], the timestamps in ascending order, empty
    if no backups exist yet. *)
Definition History_List (h : History) : list string := map timestamp h.

(** Modelled from the spec: [Valid], true iff [ts] appears in the loaded
    history. *)
Definition History_Valid (h : History) (ts : string) : bool :=
  existsb (String.eqb ts) (History_List h).

(** Modelled from the spec: [Parent], the immediate parent of [ts], [ts]
    itself for a full backup.  The method returns a string only; for an
    unknown [ts] it is the empty string here. *)
Definition History_Parent (h : History) (ts : string) : string :=
  match lookup_record h ts with
  | Some r => parentTimestamp r
  | None => ""
  end.

(** Modelled from the spec: [Keys], the data keys of [ts] and of every
    ancestor up to and including the full backup; UnknownSnapshot when [ts]
    is not in the history, ChainBroken when an ancestor is missing. *)
Fixpoint keys_from (fuel : nat) (h : History) (ts : string) (unknown : string)
  : gmap string string + error :=
  match fuel with
  | O => inr (Errorf "ChainBroken")
  | S fuel' =>
      match lookup_record h ts with
      | None => inr (Errorf unknown)
      | Some r =>
          if String.eqb (parentTimestamp r) ts then inl (dataKeys r)
          else match keys_from fuel' h (parentTimestamp r) "ChainBroken" with
               | inl ks => inl (dataKeys r ∪ ks)
               | inr e => inr e
               end
      end
  end.

Definition History_Keys (h : History) (ts : string) : gmap string string + error :=
  keys_from (S (List.length h)) h ts "UnknownSnapshot".

#[export] Instance History_methods : HistoryMethods History := {|
  List := History_List;
  Valid := History_Valid;
  Parent := History_Parent;
  Keys := History_Keys;
  HistString := fun h => strings.Join (History_List h) (String "010"%char "")
|}.

(** Scripted collaborators: the cluster has [hosts], S3 holds [stored] (or
    the listing fails), the clock reads [now], and a call fails when
    [fails] says so for it. *)
Definition injected : error := Errorf "injected failure".

Definition answer {A} (fails : Event -> bool) (ev : Event) (a : A) : A + error :=
  if fails ev then inr injected else inl a.

Definition answer_ (fails : Event -> bool) (ev : Event) : option error :=
  if fails ev then Some injected else None.

Definition scripted (hosts : list string) (stored : History + error)
    (now : string) (fails : Event -> bool) : Collaborators History := {|
  cassandra_Hosts := fun _ _ => hosts;
  s3_SnapshotHistory := fun _ _ => stored;
  time_Now := fun _ => now;
  cassandra_SchemaBackup := fun _ _ host =>
    answer fails (EvSchemaBackup host) ("/tmp/" ++ host ++ "/schema.cql")%string;
  s3_UploadFile := fun _ _ host file key => answer_ fails (EvS3UploadFile host file key);
  cassandra_Snapshot := fun _ _ host ts =>
    answer fails (EvSnapshot host ts)
      (["/data/" ++ host ++ "/snapshots/" ++ ts ++ "/t-Data.db"]%string,
       ["/data/" ++ host ++ "/snapshots/" ++ ts]%string);
  s3_UploadFiles := fun _ _ parent ts host files =>
    answer_ fails (EvS3UploadFiles parent ts host files);
  cassandra_deleteSnapshot := fun _ _ host dirs => answer_ fails (EvDeleteSnapshot host dirs);
  agent_Run := fun _ _ host cmd => answer fails (EvAgentRun host cmd) "";
  agent_UploadFile := fun _ _ host file dir => answer_ fails (EvAgentUploadFile host file dir);
  s3_downloadKey := fun _ _ key dir => answer fails (EvS3DownloadKey key dir) (dir ++ key)%string;
  s3_downloadKeys := fun _ _ keys dir =>
    answer fails (EvS3DownloadKeys keys dir) ((fun f => (dir ++ f)%string) <$> keys);
  cassandra_sstableload := fun _ _ host dirs => answer_ fails (EvSstableload host dirs);
  mapiter := fun _ m => map_to_list m;
  mapiter_perm := fun _ m => reflexivity (map_to_list m)
|}.

Definition never : Event -> bool := fun _ => false.

Definition cfg0 : Config := {|
  AwsBasePath := "base"; Keyspace := "ks"; Incremental := true;
  Snapshot := ""; CqlshPath := "cqlsh"; TempDir := "/tmp/priam"
|}.

(** A fresh [Priam] object: nothing cached, nothing called yet. *)
Definition fresh (cfg : Config) : Priam History := New cfg.

Definition t1 : string := "2024-01-01_000000".
Definition t2 : string := "2024-01-02_000000".

Definition t3 : string := "2024-03-01_000000".
Definition earlier : string := "2023-12-31_235959".

Definition full1 : SnapshotRecord :=
  mkRecord t1 t1 {[ ("/base/ks/" ++ t1 ++ "/" ++ t1 ++ "/h1/t-Data.db")%string := "t-Data.db" ]}.

Definition inc2 : SnapshotRecord :=
  mkRecord t2 t1 {[ ("/base/ks/" ++ t1 ++ "/" ++ t2 ++ "/h1/u-Data.db")%string := "u-Data.db" ]}.

Definition stored1 : History := [full1].
Definition stored2 : History := [full1; inc2].

Definition hosts3 : list string := ["h1"; "h2"; "h3"].

(** The state after the hosts were found and the history was loaded. *)
Definition loaded (cfg : Config) (h : History) : Priam History :=
  mkPriam cfg (Some h) [EvHosts; EvS3SnapshotHistory].

Definition fails_schema_upload (ev : Event) : bool :=
  match ev with
  | EvS3UploadFile _ _ _ => true
  | _ => false
  end.

Definition fails_upload_h2 (ev : Event) : bool :=
  match ev with
  | EvS3UploadFiles _ _ host _ => String.eqb host "h2"
  | _ => false
  end.

(** Three downloaded files, two of them of the same host. *)
Definition files3 : gmap string string :=
  {[ "/base/ks/t1/t1/h1/a-Data.db" := "/tmp/priam/local/a-Data.db";
     "/base/ks/t1/t1/h1/b-Data.db" := "/tmp/priam/local/b-Data.db";
     "/base/ks/t1/t1/h2/c-Data.db" := "/tmp/priam/local/c-Data.db" ]}.

(** [base] with another answer to the query for the history. *)
Definition with_history (base : Collaborators History)
    (answer : Config -> list Event -> History + error) : Collaborators History := {|
  cassandra_Hosts := cassandra_Hosts base;
  s3_SnapshotHistory := answer;
  time_Now := time_Now base;
  cassandra_SchemaBackup := cassandra_SchemaBackup base;
  s3_UploadFile := s3_UploadFile base;
  cassandra_Snapshot := cassandra_Snapshot base;
  s3_UploadFiles := s3_UploadFiles base;
  cassandra_deleteSnapshot := cassandra_deleteSnapshot base;
  agent_Run := agent_Run base;
  agent_UploadFile := agent_UploadFile base;
  s3_downloadKey := s3_downloadKey base;
  s3_downloadKeys := s3_downloadKeys base;
  cassandra_sstableload := cassandra_sstableload base;
  mapiter := mapiter base;
  mapiter_perm := mapiter_perm base
|}.

(** S3 fails to list the history the first time it is asked and answers
    [stored1] from then on. *)
Definition flaky : Collaborators History :=
  with_history (scripted hosts3 (inl stored1) t2 never)
    (fun _ t => if existsb is_history_query t then inl stored1 else inr injected).

(** [base] whose download of keys brings [files], whatever the keys. *)
Definition with_download (base : Collaborators History)
    (files : gmap string string) : Collaborators History := {|
  cassandra_Hosts := cassandra_Hosts base;
  s3_SnapshotHistory := s3_SnapshotHistory base;
  time_Now := time_Now base;
  cassandra_SchemaBackup := cassandra_SchemaBackup base;
  s3_UploadFile := s3_UploadFile base;
  cassandra_Snapshot := cassandra_Snapshot base;
  s3_UploadFiles := s3_UploadFiles base;
  cassandra_deleteSnapshot := cassandra_deleteSnapshot base;
  agent_Run := agent_Run base;
  agent_UploadFile := agent_UploadFile base;
  s3_downloadKey := s3_downloadKey base;
  s3_downloadKeys := fun cfg t keys dir =>
    match s3_downloadKeys base cfg t keys dir with
    | inl _ => inl files
    | inr e => inr e
    end;
  cassandra_sstableload := cassandra_sstableload base;
  mapiter := mapiter base;
  mapiter_perm := mapiter_perm base
|}.

Definition fails_download_key (ev : Event) : bool :=
  match ev with
  | EvS3DownloadKey _ _ => true
  | _ => false
  end.

Definition fails_download_keys (ev : Event) : bool :=
  match ev with
  | EvS3DownloadKeys _ _ => true
  | _ => false
  end.

(** The copy of the second of the files [files3] fails. *)
Definition fails_copy_b (ev : Event) : bool :=
  match ev with
  | EvAgentUploadFile _ file _ => String.eqb file "/tmp/priam/local/b-Data.db"
  | _ => false
  end.

(** The entries of [files3], in the order of the iteration. *)
Definition entry_a : string * string :=
  ("/base/ks/t1/t1/h1/a-Data.db", "/tmp/priam/local/a-Data.db").
Definition entry_b : string * string :=
  ("/base/ks/t1/t1/h1/b-Data.db", "/tmp/priam/local/b-Data.db").
Definition entry_c : string * string :=
  ("/base/ks/t1/t1/h2/c-Data.db", "/tmp/priam/local/c-Data.db").

End Scenario.

(** ** Go's path and strings at work *)

Example Clean_double_slash :
  path.Clean "/tmp/remote//base/ks" = "/tmp/remote/base/ks".
Proof. reflexivity. Qed.

Example Clean_dots : path.Clean "a/./b/../../c/" = "c".
Proof. reflexivity. Qed.

Example Clean_rooted_dotdot : path.Clean "/../a" = "/a".
Proof. reflexivity. Qed.

Example Clean_empty : path.Clean "" = ".".
Proof. reflexivity. Qed.

Example Dir_of_key :
  path.Dir "/tmp/remote//base/ks/p/t/host/data.db" = "/tmp/remote/base/ks/p/t/host".
Proof. reflexivity. Qed.

Example Dir_no_slash : path.Dir "file" = ".".
Proof. reflexivity. Qed.

Example Dir_root : path.Dir "/file" = "/".
Proof. reflexivity. Qed.

Example Dir_trailing_slash : path.Dir "a/b/" = "a/b".
Proof. reflexivity. Qed.

Example Join_key : path.Join "/tmp/remote" "/base/ks.schema.gz" = "/tmp/remote/base/ks.schema.gz".
Proof. reflexivity. Qed.

Example TrimSuffix_gz : strings.TrimSuffix "/r/ks.schema.gz" ".gz" = "/r/ks.schema".
Proof. reflexivity. Qed.

(** ** Reasoning about runs *)

Create HintDb priam.
#[global] Hint Constructors wraps : priam.

Lemma wraps_Cause e0 e : wraps e0 e -> Cause e = Cause e0.
Proof. induction 1; simpl; congruence. Qed.

Lemma prefix_append (s x : string) : String.prefix s (s ++ x)%string = true.
Proof.
  induction s as [|a s IH].
  - destruct x; reflexivity.
  - change (String.prefix (String a s) (String a (s ++ x)%string) = true).
    simpl. destruct (ascii_dec a a); [exact IH | congruence].
Qed.

Section Logic.

Context {H : Type} `{!HistoryMethods H} (c : Collaborators H).

Lemma does_ret P {A} (a : A) : does c P (ret a).
Proof.
  intros p r p' _ E. inversion E; subst. repeat split; try done.
  exists []. by rewrite app_nil_r.
Qed.

Lemma does_getConfig P : does c P getConfig.
Proof.
  intros p r p' _ E. inversion E; subst. repeat split; try done.
  exists []. by rewrite app_nil_r.
Qed.

Lemma does_getHist P : does c P getHist.
Proof.
  intros p r p' [h Hh] E. unfold getHist in E. rewrite Hh in E.
  inversion E; subst. repeat split; try done.
  exists []. by rewrite app_nil_r.
Qed.

Lemma does_index P {A} (l : list A) i a :
  l !! i = Some a -> does c P (index l i).
Proof. intros E. unfold index. rewrite E. apply does_ret. Qed.

Lemma does_bind P {A B} (m : M H A) (k : A -> M H B) :
  does c P m -> (forall a, does c P (k a)) -> does c P (bind m k).
Proof.
  intros Hm Hk p r p' Hh E. unfold bind in E.
  destruct (m p) as [[a|e|] p1] eqn:Em.
  - destruct (Hm _ _ _ Hh Em) as (Hc1 & Hh1 & (evs1 & Ht1 & HP1) & _ & _).
    assert (Hh' : is_Some (hist p1)) by (by rewrite Hh1).
    destruct (Hk a _ _ _ Hh' E) as (Hc2 & Hh2 & (evs2 & Ht2 & HP2) & Hn & Hf).
    split; [congruence|]. split; [congruence|]. split; [|done].
    exists (evs1 ++ evs2). rewrite Ht2, Ht1, app_assoc. split; [done|].
    apply Forall_app; done.
  - inversion E; subst. destruct (Hm _ _ _ Hh Em) as (? & ? & ? & ? & Hf).
    repeat split; try done. intros e' [= <-]. by apply Hf.
  - destruct (Hm _ _ _ Hh Em) as (_ & _ & _ & Hn & _). done.
Qed.

Lemma does_wrap P {A} msg (m : M H A) : does c P m -> does c P (wrap msg m).
Proof.
  intros Hm p r p' Hh E. unfold wrap in E.
  destruct (m p) as [[a|e|] p1] eqn:Em; inversion E; subst;
    destruct (Hm _ _ _ Hh Em) as (? & ? & ? & ? & Hf); repeat split; try done.
  intros e' [= <-]. destruct (Hf e eq_refl) as (t & ev & e0 & ? & ? & ?).
  exists t, ev, e0. eauto with priam.
Qed.

Lemma does_call P {A} ev (oracle : Config -> list Event -> A + error) :
  P ev ->
  (forall cfg t, oracle_error c cfg t ev
                 = match oracle cfg t with inl _ => None | inr e => Some e end) ->
  does c P (call ev oracle).
Proof.
  intros HP Ho p r p' _ E. unfold call in E. specialize (Ho (config p) (trace p)).
  destruct (oracle (config p) (trace p)) as [a|e]; inversion E; subst; simpl;
    repeat split; try done; try (exists [ev]; split; [done | by constructor]).
  intros e' [= <-]. exists (trace p), ev, e. simpl. eauto with priam.
Qed.

Lemma does_call_ P ev (oracle : Config -> list Event -> option error) :
  P ev ->
  (forall cfg t, oracle_error c cfg t ev = oracle cfg t) ->
  does c P (call_ ev oracle).
Proof.
  intros HP Ho p r p' _ E. unfold call_ in E. specialize (Ho (config p) (trace p)).
  destruct (oracle (config p) (trace p)) as [e|]; inversion E; subst; simpl;
    repeat split; try done; try (exists [ev]; split; [done | by constructor]).
  intros e' [= <-]. exists (trace p), ev, e. simpl. eauto with priam.
Qed.

Lemma does_range P {A} (l : list A) (body : A -> M H unit) :
  (forall x, does c P (body x)) -> does c P (range l body).
Proof.
  intros Hb. induction l as [|x l IH]; simpl.
  - apply does_ret.
  - apply does_bind; [apply Hb | intros _; apply IH].
Qed.

Lemma does_range_acc P {A B} (l : list A) (acc : B) (body : A -> B -> M H B) :
  (forall x b, does c P (body x b)) -> does c P (range_acc l acc body).
Proof.
  intros Hb. revert acc. induction l as [|x l IH]; intros acc; simpl.
  - apply does_ret.
  - apply does_bind; [apply Hb | intros acc'; apply IH].
Qed.

Lemma does_weaken (P Q : Event -> Prop) {A} (m : M H A) :
  (forall ev, P ev -> Q ev) -> does c P m -> does c Q m.
Proof.
  intros HPQ Hm p r p' Hh E.
  destruct (Hm _ _ _ Hh E) as (? & ? & (evs & ? & HP) & ? & ?).
  repeat split; try done. exists evs. split; [done|].
  eapply Forall_impl; eauto.
Qed.

(** The straight-line methods and the loops. *)

Ltac does_step :=
  first
    [ apply does_bind; [|intros ?]
    | apply does_wrap
    | apply does_ret
    | apply does_getConfig
    | apply does_getHist
    | apply does_call;
      [first [reflexivity | apply (prefix_append "cat ")] | intros ? ?; reflexivity]
    | apply does_call_; [reflexivity | intros ? ?; reflexivity] ].

Lemma does_schemaBackup parent ts host :
  does c (fun ev => schema_backup_op ev = true) (schemaBackup c parent ts host).
Proof. unfold schemaBackup. repeat does_step. Qed.

Lemma does_Backup_host parent ts host :
  does c (fun ev => per_host_op ev = true) (Backup_host c parent ts host).
Proof. unfold Backup_host. repeat does_step. Qed.

Lemma does_Backup_hosts parent ts hosts :
  does c (fun ev => per_host_op ev = true) (range hosts (Backup_host c parent ts)).
Proof. apply does_range. intros host. apply does_Backup_host. Qed.

Lemma does_deleteKeyspace host :
  does c (fun ev => is_drop ev = true) (deleteKeyspace c host).
Proof. unfold deleteKeyspace. repeat does_step. Qed.

Lemma does_createSchema host snapshot :
  does c (fun ev => restore_step ev = true) (createSchema c host snapshot).
Proof. unfold createSchema. repeat does_step. Qed.

Lemma does_uploadFilesToHost host dir files :
  does c (fun ev => restore_step ev = true) (uploadFilesToHost c host dir files).
Proof.
  intros p r p' Hh E. unfold uploadFilesToHost in E.
  eapply does_range_acc; [|done|exact E].
  intros entry dirs. unfold uploadFilesToHost_body. repeat does_step.
Qed.

End Logic.

Section Runs.

Context {H : Type} `{!HistoryMethods H} (c : Collaborators H).

Lemma SnapshotHistory_run (p : Priam H) :
  SnapshotHistory c p =
    match hist p with
    | Some _ => (Ret tt, p)
    | None =>
        match s3_SnapshotHistory c (config p) (trace p) with
        | inl h => (Ret tt, mkPriam (config p) (Some h) (trace p ++ [EvS3SnapshotHistory]))
        | inr e => (Fail (Wrap e "error getting snapshot history"),
                    emit EvS3SnapshotHistory p)
        end
    end.
Proof.
  unfold SnapshotHistory. destruct (hist p); [done|].
  unfold bind, wrap, call, setHist.
  destruct (s3_SnapshotHistory c (config p) (trace p)); reflexivity.
Qed.

(** What [SnapshotHistory] does to the state, whatever it returns. *)
Lemma SnapshotHistory_frame (p : Priam H) r p' :
  SnapshotHistory c p = (r, p') ->
  config p' = config p /\ r <> Panic /\
  (r = Ret tt -> is_Some (hist p')) /\
  (forall h, hist p = Some h -> r = Ret tt /\ p' = p) /\
  (exists evs, trace p' = trace p ++ evs /\ Forall (eq EvS3SnapshotHistory) evs).
Proof.
  rewrite SnapshotHistory_run. intros E.
  destruct (hist p) as [h|] eqn:Hh.
  - inversion E; subst.
    split; [done|]. split; [done|]. split; [by rewrite Hh|].
    split; [intros ? [= <-]; by split|].
    exists []. by rewrite app_nil_r.
  - destruct (s3_SnapshotHistory c (config p) (trace p)); inversion E; subst; simpl;
      (split; [done|]); (split; [done|]); (split; [done|]); (split; [done|]);
      exists [EvS3SnapshotHistory]; repeat constructor.
Qed.

Lemma ready_frame p hosts h p1 :
  ready c p hosts h p1 ->
  config p1 = config p /\
  exists evs, trace p1 = trace p ++ EvHosts :: evs /\ Forall (eq EvS3SnapshotHistory) evs.
Proof.
  intros (_ & _ & E & _).
  destruct (SnapshotHistory_frame _ _ _ E) as (Hc & _ & _ & _ & evs & Ht & HF).
  split; [done|]. exists evs. split; [|done].
  rewrite Ht. simpl. by rewrite <- app_assoc.
Qed.

Lemma index_last {A} (l : list A) :
  index l (List.length l - 1)
  = match last l with Some a => ret a | None => panic end :> M H A.
Proof. unfold index. by rewrite last_lookup, Nat.sub_1_r. Qed.

Lemma length_pos_last {A} (l : list A) :
  (0 <? List.length l)%nat = match last l with Some _ => true | None => false end.
Proof. destruct l as [|x l] using rev_ind; [done|]. rewrite last_snoc, length_app. simpl.
       apply Nat.ltb_lt. lia. Qed.

Lemma bind_Ret {A B} (m : M H A) (k : A -> M H B) p a p' :
  m p = (Ret a, p') -> bind m k p = k a p'.
Proof. intros E. unfold bind. by rewrite E. Qed.

Lemma bind_Fail {A B} (m : M H A) (k : A -> M H B) p e p' :
  m p = (Fail e, p') -> bind m k p = (Fail e, p').
Proof. intros E. unfold bind. by rewrite E. Qed.

Lemma wrap_Ret {A} msg (m : M H A) p a p' :
  m p = (Ret a, p') -> wrap msg m p = (Ret a, p').
Proof. intros E. unfold wrap. by rewrite E. Qed.

Lemma wrap_Fail {A} msg (m : M H A) p e p' :
  m p = (Fail e, p') -> wrap msg m p = (Fail (Wrap e msg), p').
Proof. intros E. unfold wrap. by rewrite E. Qed.

Lemma getHist_Some (p : Priam H) h : hist p = Some h -> getHist p = (Ret h, p).
Proof. intros E. unfold getHist. by rewrite E. Qed.

(** [Backup_prepare], once the hosts and the history are there. *)
Lemma Backup_prepare_unfold p hosts h p1 :
  ready c p hosts h p1 ->
  Backup_prepare c p =
    let ts := time_Now c (trace p1) in
    let p2 := emit EvTimeNow p1 in
    match last (List h) with
    | Some T =>
        if string_gt T ts
        then (Fail (Errorf ("new timestamp " ++ ts ++ " less than last")), p2)
        else if Incremental (config p1)
             then (Ret (hosts, ts, T), p2)
             else (Ret (hosts, ts, ts),
                   mkPriam (set_Incremental false (config p2)) (hist p2) (trace p2))
    | None => (Ret (hosts, ts, ts),
               mkPriam (set_Incremental false (config p2)) (hist p2) (trace p2))
    end.
Proof.
  intros (Hhosts & Hne & Hload & Hh).
  unfold Backup_prepare.
  erewrite bind_Ret by reflexivity. rewrite Hhosts.
  destruct hosts as [|h0 rest]; [done|].
  change (List.length (h0 :: rest) =? 0)%nat with false. cbv iota.
  erewrite bind_Ret by (apply wrap_Ret; exact Hload).
  erewrite bind_Ret by reflexivity.
  erewrite bind_Ret by (apply getHist_Some; exact Hh).
  rewrite length_pos_last, index_last.
  destruct (last (List h)) as [T|]; simpl.
  - erewrite bind_Ret by reflexivity.
    destruct (string_gt T (time_Now c (trace p1))); [reflexivity|].
    erewrite bind_Ret by reflexivity. simpl.
    destruct (Incremental (config p1)); reflexivity.
  - reflexivity.
Qed.

(** A successful [Backup_prepare] found hosts and history. *)
Lemma Backup_prepare_Ret p vars p2 :
  Backup_prepare c p = (Ret vars, p2) ->
  exists h p1, ready c p (fst (fst vars)) h p1.
Proof.
  intros E.
  destruct (cassandra_Hosts c (config p) (trace p)) as [|h0 rest] eqn:Hhosts.
  { unfold Backup_prepare in E. erewrite bind_Ret in E by reflexivity.
    rewrite Hhosts in E. done. }
  destruct (SnapshotHistory c (emit EvHosts p)) as [[[]|e|] p1] eqn:Hload.
  - destruct (SnapshotHistory_frame _ _ _ Hload) as (_ & _ & [h Hh] & _); [done|].
    assert (Hr : ready c p (h0 :: rest) h p1) by (repeat split; done).
    rewrite (Backup_prepare_unfold _ _ _ _ Hr) in E. simpl in E.
    exists h, p1.
    destruct (last (List h)) as [T|];
      [destruct (string_gt T (time_Now c (trace p1))); [done|];
       destruct (Incremental (config p1))|];
      inversion E; subst; exact Hr.
  - unfold Backup_prepare in E. erewrite bind_Ret in E by reflexivity.
    rewrite Hhosts in E.
    change (List.length (h0 :: rest) =? 0)%nat with false in E. cbv iota in E.
    erewrite bind_Fail in E by (apply wrap_Fail; exact Hload). done.
  - destruct (SnapshotHistory_frame _ _ _ Hload) as (_ & Hn & _). done.
Qed.

(** [Restore_prepare], once the hosts and the history are there. *)
Lemma Restore_prepare_unfold p hosts h p1 :
  ready c p hosts h p1 ->
  Restore_prepare c p =
    let target := if String.eqb (Snapshot (config p)) ""
                  then default (Snapshot (config p)) (last (List h))
                  else Snapshot (config p) in
    if String.eqb target ""
    then (Fail (Errorf "no existing backup to restore from"), p1)
    else if Valid h target
         then (Ret (hosts, target), p1)
         else (Fail (Errorf (target ++ " is not a valid snapshot")), p1).
Proof.
  intros (Hhosts & Hne & Hload & Hh).
  unfold Restore_prepare.
  erewrite bind_Ret by reflexivity. rewrite Hhosts.
  destruct hosts as [|h0 rest]; [done|].
  change (List.length (h0 :: rest) =? 0)%nat with false. cbv iota.
  erewrite bind_Ret by reflexivity.
  erewrite bind_Ret by exact Hload.
  erewrite bind_Ret by (apply getHist_Some; exact Hh).
  rewrite length_pos_last, index_last. simpl config.
  destruct (String.eqb (Snapshot (config p)) "") eqn:Hexp.
  - destruct (last (List h)) as [T|]; simpl.
    + erewrite bind_Ret by reflexivity. destruct (String.eqb T ""); [done|].
      destruct (Valid h T); reflexivity.
    + erewrite bind_Ret by reflexivity. rewrite Hexp. reflexivity.
  - erewrite bind_Ret by reflexivity. rewrite Hexp. simpl.
    destruct (Valid h (Snapshot (config p))); reflexivity.
Qed.

(** A successful [Restore_prepare] found hosts and history. *)
Lemma Restore_prepare_Ret p vars p1 :
  Restore_prepare c p = (Ret vars, p1) ->
  exists h, ready c p (fst vars) h p1.
Proof.
  intros E.
  destruct (cassandra_Hosts c (config p) (trace p)) as [|h0 rest] eqn:Hhosts.
  { unfold Restore_prepare in E. erewrite bind_Ret in E by reflexivity.
    rewrite Hhosts in E. done. }
  destruct (SnapshotHistory c (emit EvHosts p)) as [[[]|e|] q] eqn:Hload.
  - destruct (SnapshotHistory_frame _ _ _ Hload) as (_ & _ & [h Hh] & _); [done|].
    assert (Hr : ready c p (h0 :: rest) h q) by (repeat split; done).
    rewrite (Restore_prepare_unfold _ _ _ _ Hr) in E. simpl in E.
    exists h.
    repeat match type of E with
           | context [if ?b then _ else _] => destruct b
           end; inversion E; subst; exact Hr.
  - unfold Restore_prepare in E. erewrite bind_Ret in E by reflexivity.
    rewrite Hhosts in E.
    change (List.length (h0 :: rest) =? 0)%nat with false in E. cbv iota in E.
    erewrite bind_Ret in E by reflexivity.
    erewrite bind_Fail in E by exact Hload. done.
  - destruct (SnapshotHistory_frame _ _ _ Hload) as (_ & Hn & _). done.
Qed.

End Runs.

Section BackupRuns.

Context {H : Type} `{!HistoryMethods H} (c : Collaborators H).

Lemma string_gt_leb (a b : string) : string_gt a b = negb (String.leb a b).
Proof.
  unfold string_gt, String.ltb, String.leb.
  rewrite (String.compare_antisym a b).
  destruct (String.compare b a); reflexivity.
Qed.

Lemma ready_queries p hosts h p1 :
  ready c p hosts h p1 ->
  exists evs, trace p1 = trace p ++ evs /\ Forall (fun ev => query_op ev = true) evs.
Proof.
  intros Hr. destruct (ready_frame c _ _ _ _ Hr) as (_ & evs & Ht & HF).
  exists (EvHosts :: evs). split; [done|]. constructor; [done|].
  eapply Forall_impl; [exact HF|]. by intros ev <-.
Qed.

(** The hosts are asked first, whatever follows. *)
Lemma prepare_no_hosts {A} (k : list string -> M H A) p :
  cassandra_Hosts c (config p) (trace p) = [] ->
  bind (cassandra_Hosts' c) k p = k [] (emit EvHosts p).
Proof. intros E. erewrite bind_Ret by reflexivity. by rewrite E. Qed.

(** What [Backup_prepare] does to the state, whatever it returns. *)
Lemma Backup_prepare_frame p r p2 :
  Backup_prepare c p = (r, p2) ->
  r <> Panic /\
  (config p2 = config p \/ config p2 = set_Incremental false (config p)) /\
  (exists evs, trace p2 = trace p ++ evs /\ Forall (fun ev => query_op ev = true) evs /\
               (is_Some (hist p) -> Forall (fun ev => ev <> EvS3SnapshotHistory) evs)) /\
  (forall h, hist p = Some h -> hist p2 = Some h) /\
  (forall vars, r = Ret vars -> is_Some (hist p2) /\ is_Some (fst (fst vars) !! 0)).
Proof.
  intros E.
  destruct (cassandra_Hosts c (config p) (trace p)) as [|h0 rest] eqn:Hhosts.
  { unfold Backup_prepare in E. rewrite prepare_no_hosts in E by done.
    inversion E; subst. simpl.
    split; [done|]. split; [by left|]. split; [|done].
    exists [EvHosts]. repeat split; repeat constructor; done. }
  destruct (SnapshotHistory c (emit EvHosts p)) as [[[]|e|] p1] eqn:Hload;
    destruct (SnapshotHistory_frame c _ _ _ Hload)
      as (Hc & Hn & Hs & Hcached & evs & Ht & HF); [| |done].
  - destruct Hs as [h Hh]; [done|].
    assert (Hr : ready c p (h0 :: rest) h p1) by (repeat split; done).
    rewrite (Backup_prepare_unfold c _ _ _ _ Hr) in E. simpl in E.
    assert (Hev : exists evs', trace p1 ++ [EvTimeNow] = trace p ++ evs' /\
              Forall (fun ev => query_op ev = true) evs' /\
              (is_Some (hist p) -> Forall (fun ev => ev <> EvS3SnapshotHistory) evs')).
    { exists (EvHosts :: evs ++ [EvTimeNow]). rewrite Ht. simpl.
      rewrite <- !app_assoc. split; [done|]. split.
      - constructor; [done|]. apply Forall_app. split; [|by repeat constructor].
        eapply Forall_impl; [exact HF|]. by intros ev <-.
      - intros [h' Hh']. destruct (Hcached h' Hh') as [_ ->]. simpl in Ht.
        apply (f_equal (@List.length _)) in Ht. rewrite !length_app in Ht.
        destruct evs; [|simpl in Ht; lia]. repeat constructor; done. }
    assert (Hkeep : forall h', hist p = Some h' -> hist p1 = Some h').
    { intros h' Hh'. by destruct (Hcached h' Hh') as [_ ->]. }
    simpl in Hc.
    destruct (last (List h)) as [T|];
      [destruct (string_gt T (time_Now c (trace p1)));
       [|destruct (Incremental (config p1))]|];
      inversion E; subst; simpl; rewrite ?Hc;
      (split; [done|]); (split; [by eauto|]); (split; [exact Hev|]);
      (split; [exact Hkeep|]); intros vars [= <-]; simpl;
      (split; [by rewrite Hh | by eexists]).
  - unfold Backup_prepare in E. erewrite bind_Ret in E by reflexivity.
    rewrite Hhosts in E.
    change (List.length (h0 :: rest) =? 0)%nat with false in E. cbv iota in E.
    erewrite bind_Fail in E by (apply wrap_Fail; exact Hload).
    inversion E; subst. simpl in Hc.
    split; [done|]. split; [by left|]. split; [|split; [|done]].
    + exists (EvHosts :: evs). rewrite Ht. simpl. rewrite <- app_assoc.
      split; [done|]. split.
      * constructor; [done|]. eapply Forall_impl; [exact HF|]. by intros ev <-.
      * intros [h' Hh']. by destruct (Hcached h' Hh').
    + intros h' Hh'. by destruct (Hcached h' Hh').
Qed.

(** [Backup] after a successful [Backup_prepare]. *)
Lemma Backup_after_prepare p hosts ts parent p2 h0 :
  Backup_prepare c p = (Ret (hosts, ts, parent), p2) ->
  hosts !! 0 = Some h0 ->
  Backup c p = (wrap "schema backup failed" (schemaBackup c parent ts h0) ;;;
                range hosts (Backup_host c parent ts)) p2.
Proof.
  intros E Hh0. unfold Backup. erewrite bind_Ret by exact E. simpl.
  unfold index. rewrite Hh0. by erewrite bind_Ret by reflexivity.
Qed.

(** [Backup] when [Backup_prepare] fails. *)
Lemma Backup_prepare_fails p e p2 :
  Backup_prepare c p = (Fail e, p2) -> Backup c p = (Fail e, p2).
Proof. intros E. unfold Backup. by erewrite bind_Fail by exact E. Qed.

Lemma Backup_host_run parent ts host p r p' :
  Backup_host c parent ts host p = (r, p') ->
  exists evs, trace p' = trace p ++ evs /\
    ((r = Ret tt /\ host_block parent ts host evs)
     \/ (exists e, r = Fail e /\ host_failure parent ts host evs e)).
Proof.
  unfold Backup_host, bind, wrap, call, call_. intros E.
  destruct (cassandra_Snapshot c (config p) (trace p) host ts) as [[files dirs]|e0].
  2:{ inversion E; subst. exists [EvSnapshot host ts]. split; [done|].
      right. eexists. split; [done|]. left. eauto. }
  simpl in E.
  destruct (s3_UploadFiles c (config p) (trace p ++ [EvSnapshot host ts])
              parent ts host files) as [e0|].
  { inversion E; subst. simpl.
    exists [EvSnapshot host ts; EvS3UploadFiles parent ts host files].
    split; [by rewrite <- app_assoc|].
    right. eexists. split; [done|]. right. left. eauto. }
  exists [EvSnapshot host ts; EvS3UploadFiles parent ts host files;
          EvDeleteSnapshot host dirs].
  simpl in E.
  destruct (cassandra_deleteSnapshot c (config p)
              ((trace p ++ [EvSnapshot host ts])
                 ++ [EvS3UploadFiles parent ts host files]) host dirs) as [e0|];
    inversion E; subst; simpl; (split; [by rewrite <- !app_assoc|]).
  - right. eexists. split; [done|]. right. right. eauto.
  - left. split; [done|]. red. eauto.
Qed.

Lemma Backup_hosts_run parent ts hosts p r p' :
  range hosts (Backup_host c parent ts) p = (r, p') ->
  exists evs, trace p' = trace p ++ evs /\ hosts_outcome parent ts hosts r evs.
Proof.
  revert p. induction hosts as [|host hosts IH]; intros p E; simpl in E.
  - inversion E; subst. exists []. rewrite app_nil_r. split; [done|].
    exists [], []. split; [constructor|]. left. done.
  - unfold bind in E.
    destruct (Backup_host c parent ts host p) as [[[]|e|] p1] eqn:E1;
      destruct (Backup_host_run _ _ _ _ _ _ E1) as (evs1 & Ht1 & [[? Hb]|(e' & ? & Hf)]);
      try done.
    + destruct (IH _ E) as (evs2 & Ht2 & finished & blocks & HF & Hcase).
      exists (evs1 ++ evs2). rewrite Ht2, Ht1, app_assoc. split; [done|].
      exists (host :: finished), (evs1 :: blocks). split; [by constructor|].
      destruct Hcase as [(-> & -> & ->)|(host' & later & tail & e & -> & -> & Hf & ->)].
      * left. done.
      * right. exists host', later, tail, e. simpl. rewrite <- app_assoc. done.
    + inversion E; subst. exists evs1. split; [done|].
      exists [], []. split; [constructor|]. right.
      exists host, hosts, evs1, e'. simplify_eq. done.
Qed.

(** After a successful [Backup_prepare] a failure of [Backup] is a wrapped
    error, never a bare [fmt.Errorf]. *)
Lemma Backup_late_failure p vars p2 e p' :
  Backup_prepare c p = (Ret vars, p2) ->
  Backup c p = (Fail e, p') ->
  exists e0 msg, e = Wrap e0 msg.
Proof.
  destruct vars as [[hosts ts] parent]. intros E EB.
  destruct (Backup_prepare_frame _ _ _ E) as (_ & _ & _ & _ & Hv).
  destruct (Hv _ eq_refl) as (Hh2 & h0 & Hh0). simpl in Hh0.
  rewrite (Backup_after_prepare _ _ _ _ _ _ E Hh0) in EB.
  unfold bind at 1, wrap in EB.
  destruct (schemaBackup c parent ts h0 p2) as [[[]|e1|] p3] eqn:Es.
  - destruct (Backup_hosts_run _ _ _ _ _ _ EB)
      as (evs & _ & finished & blocks & _ & [(? & _)|(host & later & tail & e' & _ & He & Hf & _)]);
      [done|].
    inversion He; subst.
    destruct Hf as [(e0 & _ & ->)|[(? & e0 & _ & ->)|(? & ? & e0 & _ & ->)]]; eauto.
  - inversion EB; subst. eauto.
  - done.
Qed.

(** C1 (as amended): over a history whose last timestamp is [T], [Backup]
    fails with the error "new timestamp T' less than last" exactly when
    the new timestamp [T'] is strictly less than [T] in byte order; it then
    has made no schema and no per-host call and has left the configuration
    alone.  When [T <= T'], equality included, [Backup] goes on to the
    choice of the parent. *)
Theorem Backup_rejects_older_timestamp p hosts h p1 T :
  ready c p hosts h p1 ->
  last (List h) = Some T ->
  let T' := time_Now c (trace p1) in
  let stale := Errorf ("new timestamp " ++ T' ++ " less than last") in
  (String.ltb T' T = true ->
     Backup c p = (Fail stale, emit EvTimeNow p1) /\
     config (emit EvTimeNow p1) = config p /\
     exists evs, trace (emit EvTimeNow p1) = trace p ++ evs /\
       Forall (fun ev => schema_backup_op ev = false /\ per_host_op ev = false) evs)
  /\ (String.leb T T' = true ->
        fst (Backup c p) <> Fail stale /\
        exists parent p2, Backup_prepare c p = (Ret (hosts, T', parent), p2)).
Proof.
  intros Hr HT T' stale.
  pose proof (Backup_prepare_unfold c _ _ _ _ Hr) as E. rewrite HT in E. simpl in E.
  fold T' in E. split.
  - intros Hlt. change (String.ltb T' T) with (string_gt T T') in Hlt.
    rewrite Hlt in E. split; [by apply Backup_prepare_fails|].
    destruct (Backup_prepare_frame _ _ _ E) as (_ & _ & (evs & Ht & HF & _) & _).
    destruct (ready_frame c _ _ _ _ Hr) as (Hc & _). split; [done|].
    exists evs. split; [done|]. eapply Forall_impl; [exact HF|].
    by intros [] ?.
  - intros Hle. rewrite string_gt_leb, Hle in E. simpl in E.
    assert (Hp : exists parent p2, Backup_prepare c p = (Ret (hosts, T', parent), p2))
      by (destruct (Incremental (config p1)); eauto).
    split; [|done]. destruct Hp as (parent & p2 & Hp).
    destruct (Backup c p) as [r p'] eqn:EB. simpl. intros ->.
    by destruct (Backup_late_failure _ _ _ _ _ Hp EB) as (? & ? & ?).
Qed.

(** [Backup] does not panic: no index out of range, no nil history. *)
Lemma Backup_no_panic p : fst (Backup c p) <> Panic.
Proof.
  destruct (Backup_prepare c p) as [[[[hosts ts] parent]|e|] p2] eqn:E;
    destruct (Backup_prepare_frame _ _ _ E) as (Hn & _ & _ & _ & Hv); [| |done].
  - destruct (Hv _ eq_refl) as (Hh2 & h0 & Hh0). simpl in Hh0.
    rewrite (Backup_after_prepare _ _ _ _ _ _ E Hh0).
    destruct ((wrap "schema backup failed" (schemaBackup c parent ts h0) ;;;
               range hosts (Backup_host c parent ts)) p2) as [r p'] eqn:ER.
    assert (D : does c (fun _ => True)
                  (wrap "schema backup failed" (schemaBackup c parent ts h0) ;;;
                   range hosts (Backup_host c parent ts))).
    { apply does_bind; [apply does_wrap|intros _].
      - eapply does_weaken; [|apply does_schemaBackup]. done.
      - eapply does_weaken; [|apply does_Backup_hosts]. done. }
    by destruct (D _ _ _ Hh2 ER) as (_ & _ & _ & ? & _).
  - by rewrite (Backup_prepare_fails _ _ _ E).
Qed.

(** The parent that [Backup_prepare] chooses. *)
Lemma Backup_prepare_choice p hosts h p1 hosts' ts parent p2 :
  ready c p hosts h p1 ->
  Backup_prepare c p = (Ret (hosts', ts, parent), p2) ->
  hosts' = hosts /\ ts = time_Now c (trace p1) /\
  ((List h <> [] /\ Incremental (config p) = true /\
    last (List h) = Some parent /\ config p2 = config p)
   \/ ((List h = [] \/ Incremental (config p) = false) /\
       parent = ts /\ config p2 = set_Incremental false (config p))).
Proof.
  intros Hr E.
  rewrite (Backup_prepare_unfold c _ _ _ _ Hr) in E. simpl in E.
  destruct (ready_frame c _ _ _ _ Hr) as (Hc & _). rewrite Hc in E.
  destruct (last (List h)) as [T|] eqn:HT.
  - assert (List h <> []) by (apply last_is_Some; by eexists).
    destruct (string_gt T (time_Now c (trace p1))); [done|].
    destruct (Incremental (config p)) eqn:Hi; inversion E; subst; simpl;
      (split; [done|]); (split; [done|]).
    + left. done.
    + right. split; [by right|]. done.
  - apply last_None in HT. inversion E; subst; simpl.
    split; [done|]. split; [done|].
    right. split; [by left|]. done.
Qed.

(** [Backup] consults the history through [List] alone. *)
Lemma Backup_reads_only_List (hm : HistoryMethods H) p :
  @List H hm = @List H HistoryMethods0 ->
  @Backup H hm c p = @Backup H HistoryMethods0 c p.
Proof. intros E. unfold Backup, Backup_prepare. by rewrite E. Qed.

(** C2: when [Backup] gets past the check of the timestamp, the parent is
    the last entry of the history if the history is not empty and an
    incremental backup was asked for; otherwise it is the new timestamp
    itself and [Incremental] is switched off.  This parent and timestamp
    are the ones the schema backup and the loop over the hosts run with.
    No lookup panics, and [Backup] consults the history through [List]
    alone: it never asks the history for a parent. *)
Theorem Backup_parent_choice p hosts h p1 hosts' ts parent p2 :
  ready c p hosts h p1 ->
  Backup_prepare c p = (Ret (hosts', ts, parent), p2) ->
  hosts' = hosts /\ ts = time_Now c (trace p1) /\
  ((List h <> [] /\ Incremental (config p) = true /\
    last (List h) = Some parent /\ config p2 = config p)
   \/ ((List h = [] \/ Incremental (config p) = false) /\
       parent = ts /\ config p2 = set_Incremental false (config p))) /\
  (exists host0, hosts !! 0 = Some host0 /\
     Backup c p = (wrap "schema backup failed" (schemaBackup c parent ts host0) ;;;
                   range hosts (Backup_host c parent ts)) p2) /\
  fst (Backup_prepare c p) <> Panic /\ fst (Backup c p) <> Panic /\
  (forall hm : HistoryMethods H,
     @List H hm = @List H HistoryMethods0 ->
     @Backup H hm c p = @Backup H HistoryMethods0 c p).
Proof.
  intros Hr E.
  destruct (Backup_prepare_choice _ _ _ _ _ _ _ _ Hr E) as (-> & Hts & Hcase).
  destruct (Backup_prepare_frame _ _ _ E) as (_ & _ & _ & _ & Hv).
  destruct (Hv _ eq_refl) as (_ & h0 & Hh0). simpl in Hh0.
  split; [done|]. split; [done|]. split; [done|]. split.
  - exists h0. split; [done|]. by apply Backup_after_prepare.
  - split; [by rewrite E|]. split; [apply Backup_no_panic|].
    intros hm. apply Backup_reads_only_List.
Qed.

(** C5: when the schema backup fails, in the dump or in the upload,
    [Backup] returns the error, wrapped, in the state the schema backup
    left, and from start to end no snapshot, no upload of files and no
    deletion of a local snapshot has been asked of any host. *)
Theorem Backup_schema_failure_stops p hosts ts parent p2 host0 e p3 :
  Backup_prepare c p = (Ret (hosts, ts, parent), p2) ->
  hosts !! 0 = Some host0 ->
  schemaBackup c parent ts host0 p2 = (Fail e, p3) ->
  Backup c p = (Fail (Wrap e "schema backup failed"), p3) /\
  stopped_at c p3 e /\
  exists evs, trace p3 = trace p ++ evs /\ Forall (fun ev => per_host_op ev = false) evs.
Proof.
  intros E Hh0 Es.
  destruct (Backup_prepare_frame _ _ _ E) as (_ & _ & (evs1 & Ht1 & HF1 & _) & _ & Hv).
  destruct (Hv _ eq_refl) as (Hh2 & _).
  destruct (does_schemaBackup c _ _ _ _ _ _ Hh2 Es)
    as (_ & _ & (evs2 & Ht2 & HF2) & _ & Hstop).
  split; [|split; [by apply Hstop|]].
  - rewrite (Backup_after_prepare _ _ _ _ _ _ E Hh0).
    by erewrite bind_Fail by (apply wrap_Fail; exact Es).
  - exists (evs1 ++ evs2). rewrite Ht2, Ht1, app_assoc. split; [done|].
    apply Forall_app. split; (eapply Forall_impl; [eassumption|]); by intros [] ?.
Qed.

(** The calls of the loop over the hosts: the hosts that went through their
    three calls, in the order of the list, and then either the end of the
    list or the calls of the host that failed; a failure ended at a failing
    call. *)
Lemma Backup_hosts_in_order_trace p hosts ts parent p2 host0 p3 :
  Backup_prepare c p = (Ret (hosts, ts, parent), p2) ->
  hosts !! 0 = Some host0 ->
  schemaBackup c parent ts host0 p2 = (Ret tt, p3) ->
  exists r p' evs,
    Backup c p = (r, p') /\ trace p' = trace p3 ++ evs /\
    hosts_outcome parent ts hosts r evs /\
    (forall e, r = Fail e -> stopped_at c p' e).
Proof.
  intros E Hh0 Es.
  destruct (Backup_prepare_frame _ _ _ E) as (_ & _ & _ & _ & Hv).
  destruct (Hv _ eq_refl) as (Hh2 & _).
  destruct (does_schemaBackup c _ _ _ _ _ _ Hh2 Es) as (_ & Hh3 & _).
  assert (Hh3' : is_Some (hist p3)) by (by rewrite Hh3).
  rewrite (Backup_after_prepare _ _ _ _ _ _ E Hh0).
  erewrite bind_Ret by (apply wrap_Ret; exact Es).
  destruct (range hosts (Backup_host c parent ts) p3) as [r p'] eqn:ER.
  destruct (Backup_hosts_run _ _ _ _ _ _ ER) as (evs & Ht & Ho).
  destruct (does_Backup_hosts c _ _ _ _ _ _ Hh3' ER) as (_ & _ & _ & _ & Hstop).
  exists r, p', evs. done.
Qed.

(** C10: in every run [Backup] leaves every field of the configuration
    other than [Incremental] as it found it, and [Incremental] either as it
    found it or false; when it gets past the check of the timestamp with an
    empty history or with [Incremental] off, [Incremental] is false in the
    configuration it leaves behind, whatever happens afterwards. *)
Theorem Backup_config_frame p :
  let cfg := config p in
  let cfg' := config (snd (Backup c p)) in
  (AwsBasePath cfg' = AwsBasePath cfg /\ Keyspace cfg' = Keyspace cfg /\
   Snapshot cfg' = Snapshot cfg /\ CqlshPath cfg' = CqlshPath cfg /\
   TempDir cfg' = TempDir cfg /\
   (Incremental cfg' = Incremental cfg \/ Incremental cfg' = false)) /\
  (forall hosts h p1 vars p2,
     ready c p hosts h p1 ->
     Backup_prepare c p = (Ret vars, p2) ->
     List h = [] \/ Incremental cfg = false ->
     cfg' = set_Incremental false cfg /\ Incremental cfg' = false).
Proof.
  simpl.
  assert (Hafter : forall vars p2, Backup_prepare c p = (Ret vars, p2) ->
            config (snd (Backup c p)) = config p2).
  { intros [[hosts ts] parent] p2 E.
    destruct (Backup_prepare_frame _ _ _ E) as (_ & _ & _ & _ & Hv).
    destruct (Hv _ eq_refl) as (Hh2 & h0 & Hh0). simpl in Hh0.
    rewrite (Backup_after_prepare _ _ _ _ _ _ E Hh0).
    destruct ((wrap "schema backup failed" (schemaBackup c parent ts h0) ;;;
               range hosts (Backup_host c parent ts)) p2) as [r p'] eqn:ER.
    assert (D : does c (fun _ => True)
                  (wrap "schema backup failed" (schemaBackup c parent ts h0) ;;;
                   range hosts (Backup_host c parent ts))).
    { apply does_bind; [apply does_wrap|intros _].
      - eapply does_weaken; [|apply does_schemaBackup]. done.
      - eapply does_weaken; [|apply does_Backup_hosts]. done. }
    by destruct (D _ _ _ Hh2 ER) as (? & _). }
  split.
  - assert (Hc : config (snd (Backup c p)) = config p \/
                 config (snd (Backup c p)) = set_Incremental false (config p)).
    { destruct (Backup_prepare c p) as [[vars|e|] p2] eqn:E;
        destruct (Backup_prepare_frame _ _ _ E) as (Hn & Hc & _); [| |done].
      - by rewrite (Hafter _ _ eq_refl).
      - by rewrite (Backup_prepare_fails _ _ _ E). }
    destruct Hc as [-> | ->]; simpl; eauto 10.
  - intros hosts h p1 [[hosts' ts] parent] p2 Hr E Hfull.
    rewrite (Hafter _ _ E).
    destruct (Backup_prepare_choice _ _ _ _ _ _ _ _ Hr E)
      as (_ & _ & [(Hne & Hi & _)|(_ & _ & ->)]); [|done].
    destruct Hfull; congruence.
Qed.

End BackupRuns.

Section RestoreRuns.

Context {H : Type} `{!HistoryMethods H} (c : Collaborators H).

Lemma HasSuffix_eq (s suffix : string) :
  strings.HasSuffix s suffix =
    if String.eqb s suffix then true
    else match s with
         | EmptyString => false
         | String _ s' => strings.HasSuffix s' suffix
         end.
Proof. destruct s; reflexivity. Qed.

Lemma HasSuffix_app (t s : string) : strings.HasSuffix (t ++ s)%string s = true.
Proof.
  induction t as [|a t IH].
  - change (strings.HasSuffix s s = true). by rewrite HasSuffix_eq, String.eqb_refl.
  - change (strings.HasSuffix (String a (t ++ s)%string) s = true).
    rewrite HasSuffix_eq, IH. by destruct (String.eqb _ _).
Qed.

Lemma invalid_is_not_missing (t : string) :
  (t ++ " is not a valid snapshot")%string <> "no existing backup to restore from".
Proof.
  intros E. pose proof (HasSuffix_app t " is not a valid snapshot") as Hs.
  rewrite E in Hs. vm_compute in Hs. done.
Qed.

(** What [Restore_prepare] does to the state, whatever it returns. *)
Lemma Restore_prepare_frame p r p1 :
  Restore_prepare c p = (r, p1) ->
  r <> Panic /\ config p1 = config p /\
  (exists evs, trace p1 = trace p ++ evs /\ Forall (fun ev => query_op ev = true) evs /\
               (is_Some (hist p) -> Forall (fun ev => ev <> EvS3SnapshotHistory) evs)) /\
  (forall h, hist p = Some h -> hist p1 = Some h) /\
  (forall vars, r = Ret vars -> is_Some (hist p1) /\ is_Some (fst vars !! 0)).
Proof.
  intros E.
  destruct (cassandra_Hosts c (config p) (trace p)) as [|h0 rest] eqn:Hhosts.
  { unfold Restore_prepare in E. rewrite prepare_no_hosts in E by done.
    inversion E; subst. simpl.
    split; [done|]. split; [done|]. split; [|done].
    exists [EvHosts]. repeat split; repeat constructor; done. }
  destruct (SnapshotHistory c (emit EvHosts p)) as [[[]|e|] q] eqn:Hload;
    destruct (SnapshotHistory_frame c _ _ _ Hload)
      as (Hc & Hn & Hs & Hcached & evs & Ht & HF); [| |done].
  - destruct Hs as [h Hh]; [done|].
    assert (Hr : ready c p (h0 :: rest) h q) by (repeat split; done).
    rewrite (Restore_prepare_unfold c _ _ _ _ Hr) in E. simpl in E.
    assert (Hev : exists evs', trace q = trace p ++ evs' /\
              Forall (fun ev => query_op ev = true) evs' /\
              (is_Some (hist p) -> Forall (fun ev => ev <> EvS3SnapshotHistory) evs')).
    { exists (EvHosts :: evs). rewrite Ht. simpl.
      rewrite <- !app_assoc. split; [done|]. split.
      - constructor; [done|]. eapply Forall_impl; [exact HF|]. by intros ev <-.
      - intros [h' Hh']. destruct (Hcached h' Hh') as [_ ->]. simpl in Ht.
        apply (f_equal (@List.length _)) in Ht. rewrite !length_app in Ht.
        destruct evs; [|simpl in Ht; lia]. repeat constructor; done. }
    assert (Hkeep : forall h', hist p = Some h' -> hist q = Some h').
    { intros h' Hh'. by destruct (Hcached h' Hh') as [_ ->]. }
    simpl in Hc.
    repeat match type of E with
           | context [if ?b then _ else _] => destruct b
           end;
      inversion E; subst;
      (split; [done|]); (split; [done|]); (split; [exact Hev|]);
      (split; [exact Hkeep|]); intros vars [= <-]; simpl;
      (split; [by rewrite Hh | by eexists]).
  - unfold Restore_prepare in E. erewrite bind_Ret in E by reflexivity.
    rewrite Hhosts in E.
    change (List.length (h0 :: rest) =? 0)%nat with false in E. cbv iota in E.
    erewrite bind_Ret in E by reflexivity.
    erewrite bind_Fail in E by exact Hload.
    inversion E; subst. simpl in Hc.
    split; [done|]. split; [done|]. split; [|split; [|done]].
    + exists (EvHosts :: evs). rewrite Ht. simpl. rewrite <- app_assoc.
      split; [done|]. split.
      * constructor; [done|]. eapply Forall_impl; [exact HF|]. by intros ev <-.
      * intros [h' Hh']. by destruct (Hcached h' Hh').
    + intros h' Hh'. by destruct (Hcached h' Hh').
Qed.

Lemma Restore_after_prepare p hosts snapshot p1 host0 :
  Restore_prepare c p = (Ret (hosts, snapshot), p1) ->
  hosts !! 0 = Some host0 ->
  Restore c p = Restore_steps c host0 snapshot p1.
Proof.
  intros E Hh0. unfold Restore, Restore_steps. erewrite bind_Ret by exact E. simpl.
  unfold index. rewrite Hh0. unfold bind, ret.
  destruct (wrap _ (deleteKeyspace c host0) p1) as [[[]|?|] ?]; done.
Qed.

Lemma Restore_prepare_fails p e p1 :
  Restore_prepare c p = (Fail e, p1) -> Restore c p = (Fail e, p1).
Proof. intros E. unfold Restore. by erewrite bind_Fail by exact E. Qed.

(** [loadSnapshot] fails without a call when the keys cannot be resolved;
    otherwise it behaves like the other steps. *)
Lemma loadSnapshot_run host snapshot p h r p' :
  hist p = Some h ->
  loadSnapshot c host snapshot p = (r, p') ->
  config p' = config p /\ hist p' = hist p /\
  (exists evs, trace p' = trace p ++ evs /\ Forall (fun ev => restore_step ev = true) evs) /\
  r <> Panic /\
  (forall e, r = Fail e ->
     stopped_at c p' e \/
     (exists e0, Keys h snapshot = inr e0 /\ e = Wrap e0 "failed to get all keys" /\ p' = p)).
Proof.
  intros Hh E. unfold loadSnapshot in E.
  erewrite bind_Ret in E by reflexivity.
  erewrite bind_Ret in E by (apply getHist_Some; exact Hh).
  destruct (Keys h snapshot) as [keys|e0] eqn:HK.
  - erewrite bind_Ret in E by reflexivity.
    match type of E with
    | ?m p = _ => assert (D : does c (fun ev => restore_step ev = true) m)
    end.
    { apply does_bind; [apply does_wrap, does_call; [done|by intros]|intros files].
      apply does_bind; [apply does_wrap, does_uploadFilesToHost|intros dirs].
      apply does_wrap, does_call_; [done|by intros]. }
    destruct (D _ _ _ (mk_is_Some _ _ Hh) E) as (? & ? & ? & ? & Hstop).
    repeat (split; [done|]). intros e ->. left. by apply Hstop.
  - erewrite bind_Fail in E by reflexivity. inversion E; subst.
    split; [done|]. split; [done|]. split; [exists []; by rewrite app_nil_r|].
    split; [done|]. intros e [= <-]. right. eauto.
Qed.

Lemma restore_step_not_drop ev : restore_step ev = true -> is_drop ev = false.
Proof.
  destruct ev; try done. destruct cmd as [|a cmd]; [done|].
  change (restore_step (EvAgentRun host (String a cmd)))
    with (if ascii_dec "c" a then String.prefix "at " cmd else false).
  change (is_drop (EvAgentRun host (String a cmd)))
    with (if ascii_dec "e" a then String.prefix "cho 'DROP KEYSPACE" cmd else false).
  destruct (ascii_dec "c" a) as [<-|]; [intros _|done].
  by destruct (ascii_dec "e" "c").
Qed.

(** What the three steps do, from a state with a loaded history. *)
Lemma Restore_steps_run host0 snapshot p1 h r p' :
  hist p1 = Some h ->
  Restore_steps c host0 snapshot p1 = (r, p') ->
  config p' = config p1 /\ hist p' = hist p1 /\ r <> Panic /\
  (exists rest,
     trace p' = trace p1 ++ EvAgentRun host0 (dropKeyspace_cmd (config p1)) :: rest /\
     Forall (fun ev => restore_step ev = true) rest /\
     (forall e0, oracle_error c (config p1) (trace p1)
                   (EvAgentRun host0 (dropKeyspace_cmd (config p1))) = Some e0 ->
                 rest = [] /\ r = Fail (Wrap e0 "error deleting keyspace"))) /\
  (forall e, r = Fail e ->
     (exists e0 msg, e = Wrap e0 msg) /\
     (stopped_at c p' e \/ exists e0, Keys h snapshot = inr e0 /\ wraps e0 e)).
Proof.
  intros Hh E. unfold Restore_steps in E.
  unfold bind at 1, wrap at 1, deleteKeyspace in E.
  erewrite bind_Ret in E by reflexivity.
  unfold bind at 1, call at 1 in E. simpl oracle_error.
  destruct (agent_Run c (config p1) (trace p1) host0 (dropKeyspace_cmd (config p1)))
    as [out|e0] eqn:Hrun.
  2:{ inversion E; subst. simpl. repeat (split; [done|]). split.
      - exists []. split; [done|]. split; [done|]. by intros ? [= <-].
      - intros e [= <-]. split; [eauto|]. left.
        exists (trace p1), (EvAgentRun host0 (dropKeyspace_cmd (config p1))), e0.
        simpl. rewrite Hrun. eauto with priam. }
  unfold ret at 1 in E.
  set (q1 := emit (EvAgentRun host0 (dropKeyspace_cmd (config p1))) p1) in *.
  assert (Hq1 : hist q1 = Some h) by done.
  assert (Hcq1 : config q1 = config p1) by done.
  assert (Htq1 : trace q1
                 = trace p1 ++ [EvAgentRun host0 (dropKeyspace_cmd (config p1))]) by done.
  clearbody q1.
  unfold bind at 1, wrap at 1 in E.
  destruct (createSchema c host0 snapshot q1) as [[[]|e1|] q2] eqn:Ecs;
    destruct (does_createSchema c _ _ _ _ _ (mk_is_Some _ _ Hq1) Ecs)
      as (Hc2 & Hh2 & (evs2 & Ht2 & HF2) & Hn2 & Hstop2); [| |done].
  - unfold wrap in E.
    assert (Hq2 : hist q2 = Some h) by congruence.
    destruct (loadSnapshot c host0 snapshot q2) as [r3 q3] eqn:Els.
    destruct (loadSnapshot_run _ _ _ _ _ _ Hq2 Els)
      as (Hc3 & Hh3 & (evs3 & Ht3 & HF3) & Hn3 & Hstop3).
    assert (Hp' : p' = q3) by (destruct r3; by inversion E). subst q3.
    split; [congruence|]. split; [congruence|].
    split; [destruct r3; inversion E; done|]. split.
    + exists (evs2 ++ evs3). rewrite Ht3, Ht2, Htq1. rewrite <- !app_assoc.
      split; [done|]. split; [apply Forall_app; done|]. by intros ? [=].
    + intros e ->. destruct r3 as [|e3|]; inversion E; subst. split; [eauto|].
      destruct (Hstop3 _ eq_refl) as [(t & ev & e0 & ? & ? & ?)|(e0 & HK & -> & ->)].
      * left. exists t, ev, e0. eauto with priam.
      * right. exists e0. eauto with priam.
  - inversion E; subst. split; [congruence|]. split; [congruence|].
    split; [done|]. split.
    + exists evs2. rewrite Ht2, Htq1. rewrite <- !app_assoc.
      split; [done|]. split; [done|]. by intros ? [=].
    + intros e [= <-]. split; [eauto|]. left.
      destruct (Hstop2 _ eq_refl) as (t & ev & e0 & ? & ? & ?).
      exists t, ev, e0. eauto with priam.
Qed.

(** [Restore] does not panic. *)
Lemma Restore_no_panic p : fst (Restore c p) <> Panic.
Proof.
  destruct (Restore_prepare c p) as [[[hosts target]|e|] p1] eqn:E;
    destruct (Restore_prepare_frame _ _ _ E) as (Hn & _ & _ & _ & Hv); [| |done].
  - destruct (Hv _ eq_refl) as ([h Hh] & h0 & Hh0). simpl in Hh0.
    rewrite (Restore_after_prepare _ _ _ _ _ E Hh0).
    destruct (Restore_steps c h0 target p1) as [r p'] eqn:ER.
    by destruct (Restore_steps_run _ _ _ _ _ _ Hh ER) as (_ & _ & ? & _).
  - by rewrite (Restore_prepare_fails _ _ _ E).
Qed.

(** C3: [Restore] takes the snapshot named in the configuration, or the
    last entry of the history when none is named.  It fails with "no
    existing backup to restore from" exactly when none is named and the
    history is empty, and with "... is not a valid snapshot" when the
    history does not hold the target; in both cases it has made no call
    beyond asking for the hosts and the history.  A valid target is handed
    on to the three restore steps.  Timestamps are not empty strings. *)
Theorem Restore_target p hosts h p1 :
  ready c p hosts h p1 ->
  (forall T, last (List h) = Some T -> T <> "") ->
  let explicit := Snapshot (config p) in
  let target := if String.eqb explicit "" then default "" (last (List h)) else explicit in
  let missing := (List h = [] /\ explicit = "") in
  (fst (Restore c p) = Fail (Errorf "no existing backup to restore from") <-> missing) /\
  (missing -> Restore c p = (Fail (Errorf "no existing backup to restore from"), p1)) /\
  (~ missing -> Valid h target = false ->
     Restore c p = (Fail (Errorf (target ++ " is not a valid snapshot")), p1)) /\
  (~ missing -> Valid h target = true ->
     Restore_prepare c p = (Ret (hosts, target), p1) /\
     exists host0, hosts !! 0 = Some host0 /\
                   Restore c p = Restore_steps c host0 target p1) /\
  (exists evs, trace p1 = trace p ++ evs /\ Forall (fun ev => query_op ev = true) evs).
Proof.
  intros Hr Hts explicit target missing.
  pose proof (Restore_prepare_unfold c _ _ _ _ Hr) as E. simpl in E.
  assert (Htarget : (if String.eqb (Snapshot (config p)) ""
                     then default (Snapshot (config p)) (last (List h))
                     else Snapshot (config p)) = target).
  { unfold target, explicit.
    destruct (String.eqb_spec (Snapshot (config p)) "") as [->|]; done. }
  rewrite Htarget in E. clear Htarget.
  assert (Hmissing : String.eqb target "" = true <-> missing).
  { unfold target, missing. rewrite String.eqb_eq.
    destruct (String.eqb_spec explicit "") as [Hx|Hx].
    - destruct (last (List h)) as [T|] eqn:HT; simpl.
      + split; [intros ->; by destruct (Hts "")|].
        intros [Hnil _]. rewrite Hnil in HT. done.
      + apply last_None in HT. done.
    - split; [done|]. by intros [_ ?]. }
  assert (Hq := ready_queries c _ _ _ _ Hr).
  assert (Hlate : forall e p', String.eqb target "" = false -> Valid h target = true ->
            Restore c p = (Fail e, p') -> exists e0 msg, e = Wrap e0 msg).
  { intros e p' Ht Hv ER. rewrite Ht, Hv in E.
    destruct (Restore_prepare_frame _ _ _ E) as (_ & _ & _ & _ & Hvars).
    destruct (Hvars _ eq_refl) as ([h' Hh'] & h0 & Hh0). simpl in Hh0.
    rewrite (Restore_after_prepare _ _ _ _ _ E Hh0) in ER.
    destruct (Restore_steps_run _ _ _ _ _ _ Hh' ER) as (_ & _ & _ & _ & Hf).
    by destruct (Hf _ eq_refl). }
  split; [split|split; [|split; [|split]]].
  - intros HR. apply Hmissing.
    destruct (String.eqb target "") eqn:Ht; [done|].
    destruct (Valid h target) eqn:Hv.
    + destruct (Restore c p) as [r p'] eqn:ER. simpl in HR. subst r.
      by destruct (Hlate _ _ eq_refl eq_refl eq_refl) as (? & ? & ?).
    + rewrite (Restore_prepare_fails _ _ _ E) in HR. simpl in HR.
      inversion HR as [HR']. by apply invalid_is_not_missing in HR'.
  - intros Hm. apply Hmissing in Hm. rewrite Hm in E.
    by rewrite (Restore_prepare_fails _ _ _ E).
  - intros Hm. apply Hmissing in Hm. rewrite Hm in E.
    by apply Restore_prepare_fails.
  - intros Hm Hv.
    assert (Ht : String.eqb target "" = false).
    { destruct (String.eqb target ""); [|done]. destruct Hm. by apply Hmissing. }
    rewrite Ht, Hv in E. by apply Restore_prepare_fails.
  - intros Hm Hv.
    assert (Ht : String.eqb target "" = false).
    { destruct (String.eqb target ""); [|done]. destruct Hm. by apply Hmissing. }
    rewrite Ht, Hv in E. split; [done|].
    destruct (Restore_prepare_frame _ _ _ E) as (_ & _ & _ & _ & Hvars).
    destruct (Hvars _ eq_refl) as (_ & h0 & Hh0). simpl in Hh0.
    exists h0. split; [done|]. by apply Restore_after_prepare with hosts.
  - done.
Qed.

Lemma no_drop_filter (evs : list Event) :
  Forall (fun ev => is_drop ev = false) evs -> List.filter is_drop evs = [].
Proof. induction 1 as [|ev evs Hev _ IH]; simpl; [done|]. by rewrite Hev. Qed.

(** The calls of [Restore] once the target is validated: the queries, one
    drop of the keyspace on the first host, then only calls that recreate
    the schema and load the data; a failure ended at a failing call or at
    the failed resolution of the keys. *)
Lemma Restore_drops_once_trace p hosts target p1 host0 :
  Restore_prepare c p = (Ret (hosts, target), p1) ->
  hosts !! 0 = Some host0 ->
  let drop := EvAgentRun host0 (dropKeyspace_cmd (config p)) in
  exists r p' pre rest,
    Restore c p = (r, p') /\
    trace p1 = trace p ++ pre /\ trace p' = trace p ++ pre ++ drop :: rest /\
    Forall (fun ev => query_op ev = true) pre /\
    Forall (fun ev => restore_step ev = true /\ is_drop ev = false) rest /\
    List.length (List.filter is_drop (pre ++ drop :: rest)) = 1 /\
    (forall e0, oracle_error c (config p) (trace p1) drop = Some e0 ->
                rest = [] /\ r = Fail (Wrap e0 "error deleting keyspace")) /\
    (forall e, r = Fail e ->
       (exists e0 msg, e = Wrap e0 msg) /\
       (stopped_at c p' e \/
        exists h e0, hist p1 = Some h /\ Keys h target = inr e0 /\ wraps e0 e)).
Proof.
  intros E Hh0 drop.
  destruct (Restore_prepare_frame _ _ _ E) as (_ & Hc & (pre & Ht & HF & _) & _ & Hv).
  destruct (Hv _ eq_refl) as ([h Hh] & _).
  rewrite (Restore_after_prepare _ _ _ _ _ E Hh0).
  destruct (Restore_steps c host0 target p1) as [r p'] eqn:ER.
  destruct (Restore_steps_run _ _ _ _ _ _ Hh ER)
    as (_ & _ & _ & (rest & Ht' & HF' & Hdrop) & Hfail).
  rewrite Hc in Ht', Hdrop. fold drop in Ht', Hdrop.
  assert (HF'' : Forall (fun ev => restore_step ev = true /\ is_drop ev = false) rest).
  { eapply Forall_impl; [exact HF'|]. intros ev ?. split; [done|].
    by apply restore_step_not_drop. }
  exists r, p', pre, rest. split; [done|]. split; [done|].
  split; [by rewrite Ht', Ht, <- app_assoc|]. split; [done|]. split; [done|].
  split; [|split; [done|]].
  - rewrite List.filter_app. simpl.
    rewrite (no_drop_filter pre), (no_drop_filter rest); [done| |].
    + eapply Forall_impl; [exact HF''|]. by intros ev [_ ?].
    + eapply Forall_impl; [exact HF|]. by intros [] ?.
  - intros e He. destruct (Hfail e He) as (? & [?|(e0 & ? & ?)]); split; eauto 10.
Qed.

End RestoreRuns.

Section Keys.

Context {H : Type} `{!HistoryMethods H} (c : Collaborators H).

(** C8: the key under which [schemaBackup] uploads the schema of the
    snapshot [ts] with parent [parent] is the key that [createSchema]
    downloads when it restores [ts] and the history gives [parent] as its
    parent, base path and keyspace being the same; the key is
    /{basePath}/{keyspace}/{parent}/{timestamp}/ followed by the keyspace
    and the fixed suffix .schema.gz. *)
Theorem schema_key_backup_restore p q host host' parent ts h file :
  hist q = Some h ->
  Parent h ts = parent ->
  AwsBasePath (config q) = AwsBasePath (config p) ->
  Keyspace (config q) = Keyspace (config p) ->
  cassandra_SchemaBackup c (config p) (trace p) host = inl file ->
  let key := ("/" ++ AwsBasePath (config p) ++ "/" ++ Keyspace (config p) ++ "/"
                  ++ parent ++ "/" ++ ts ++ "/"
                  ++ Keyspace (config p) ++ ".schema.gz")%string in
  schemaBackup_key (config p) parent ts = key /\
  createSchema_key (config q) (Parent h ts) ts = key /\
  trace (snd (schemaBackup c parent ts host p))
    = trace p ++ [EvSchemaBackup host; EvS3UploadFile host file key] /\
  exists rest,
    trace (snd (createSchema c host' ts q))
      = trace q ++ EvS3DownloadKey key (localTmpDir (config q)) :: rest.
Proof.
  intros Hh HP Hb Hk Hdump key.
  assert (K1 : schemaBackup_key (config p) parent ts = key) by reflexivity.
  assert (K2 : createSchema_key (config q) (Parent h ts) ts = key).
  { unfold createSchema_key, key. by rewrite HP, Hb, Hk. }
  split; [done|]. split; [done|]. split.
  - unfold schemaBackup, bind at 1, wrap at 1, call at 1. rewrite Hdump.
    erewrite bind_Ret by reflexivity. simpl config. rewrite K1.
    unfold wrap, call_. simpl.
    destruct (s3_UploadFile c (config p) (trace p ++ [EvSchemaBackup host]) host file key);
      simpl; by rewrite <- app_assoc.
  - unfold createSchema.
    erewrite bind_Ret by (apply getHist_Some; exact Hh).
    erewrite bind_Ret by reflexivity. rewrite K2.
    unfold bind at 1, wrap at 1, call at 1.
    set (ev := EvS3DownloadKey key (localTmpDir (config q))).
    destruct (s3_downloadKey c (config q) (trace q) key (localTmpDir (config q)))
      as [localFile|e].
    2:{ exists []. reflexivity. }
    match goal with
    | |- context [snd (?m (emit ev q))] =>
        assert (D : does c (fun _ => True) m)
    end.
    { apply does_bind; [apply does_wrap, does_call_; [done|by intros]|intros _].
      apply does_bind; [apply does_wrap, does_call; [done|by intros]|intros _].
      apply does_ret. }
    match goal with
    | |- context [snd (?m (emit ev q))] => destruct (m (emit ev q)) as [r p'] eqn:E
    end.
    destruct (D _ _ _ (mk_is_Some _ _ (Hh : hist (emit ev q) = Some h)) E)
      as (_ & _ & (evs & Ht & _) & _).
    exists evs. simpl. rewrite Ht. simpl. by rewrite <- app_assoc.
Qed.

Lemma uploadFilesToHost_loop host dir l acc p dirs p' :
  range_acc l acc (uploadFilesToHost_body c host dir) p = (Ret dirs, p') ->
  dirs = dirs_after dir l acc /\
  trace p' = trace p ++
    map (fun entry => EvAgentUploadFile host entry.2
                        (path.Dir (dir ++ "/" ++ entry.1)%string)) l.
Proof.
  revert acc p. induction l as [|[key file] l IH]; intros acc p E; simpl in E.
  - inversion E; subst. simpl. by rewrite app_nil_r.
  - unfold bind at 1, uploadFilesToHost_body, bind, wrap, call_, ret in E.
    simpl in E.
    destruct (agent_UploadFile c (config p) (trace p) host file
                (path.Dir (dir ++ "/" ++ key)%string)); [done|].
    destruct (IH _ _ E) as [-> Ht]. split; [done|].
    rewrite Ht. simpl. by rewrite <- app_assoc.
Qed.

Lemma dirs_after_lookup dir l acc d :
  dirs_after dir l acc !! d =
    if bool_decide (d ∈ (fun entry => path.Dir (dir ++ "/" ++ entry.1)%string) <$> l)
    then Some true else acc !! d.
Proof.
  revert acc. induction l as [|[key file] l IH]; intros acc.
  - reflexivity.
  - change (dirs_after dir ((key, file) :: l) acc)
      with (dirs_after dir l (<[path.Dir (dir ++ "/" ++ key)%string := true]> acc)).
    rewrite IH, fmap_cons. cbn [fst].
    set (f := fun entry : string * string => path.Dir (dir ++ "/" ++ entry.1)%string).
    set (d0 := path.Dir (dir ++ "/" ++ key)%string).
    destruct (decide (d = d0)) as [->|Hne].
    + rewrite lookup_insert_eq.
      rewrite (bool_decide_eq_true_2 (d0 ∈ d0 :: (f <$> l))) by left.
      by destruct (bool_decide (d0 ∈ f <$> l)).
    + rewrite lookup_insert_ne by done.
      rewrite (bool_decide_ext (d ∈ d0 :: (f <$> l)) (d ∈ f <$> l)); [done|].
      rewrite elem_of_cons. tauto.
Qed.

(** C9: a successful [uploadFilesToHost] has uploaded every file of the
    map once, each to the directory of remoteTmpDir/key, in some order of
    the entries, and returns the map that holds exactly these directories,
    each with the value true. *)
Theorem uploadFilesToHost_dirs host dir (files : gmap string string) p dirs p' :
  uploadFilesToHost c host dir files p = (Ret dirs, p') ->
  let remote := fun key : string => path.Dir (dir ++ "/" ++ key)%string in
  (exists order : list (string * string),
     order ≡ₚ map_to_list files /\
     trace p' = trace p ++
       map (fun entry => EvAgentUploadFile host entry.2 (remote entry.1)) order) /\
  (forall d, is_Some (dirs !! d) <-> exists key, is_Some (files !! key) /\ d = remote key) /\
  (forall d b, dirs !! d = Some b -> b = true).
Proof.
  intros E remote. unfold uploadFilesToHost in E.
  pose proof (mapiter_perm c (trace p) files) as Hperm.
  destruct (uploadFilesToHost_loop _ _ _ _ _ _ _ E) as [-> Ht].
  split; [by exists (mapiter c (trace p) files)|].
  assert (Hmem : forall d, d ∈ (fun entry : string * string => remote entry.1)
                                 <$> mapiter c (trace p) files
                           <-> exists key, is_Some (files !! key) /\ d = remote key).
  { intros d. rewrite list_elem_of_fmap. split.
    - intros ([key file] & -> & Hin). exists key. split; [|done].
      rewrite Hperm in Hin. apply elem_of_map_to_list in Hin. by eexists.
    - intros (key & [file Hf] & ->). exists (key, file). split; [done|].
      rewrite Hperm. by apply elem_of_map_to_list. }
  split.
  - intros d. rewrite dirs_after_lookup, <- Hmem. fold remote.
    case_bool_decide; [split; [done|by eexists]|].
    rewrite lookup_empty. split; [by intros [? ?]|done].
  - intros d b. rewrite dirs_after_lookup. case_bool_decide; [congruence|].
    by rewrite lookup_empty.
Qed.

End Keys.

Section Cache.

Context {H : Type} `{!HistoryMethods H} (c : Collaborators H).

Lemma History_cached p h :
  hist p = Some h ->
  History c p = (Ret tt, emit (EvPrintf ("backup list:" ++ String "010"%char (HistString h))) p).
Proof.
  intros Hh. unfold History.
  erewrite bind_Ret
    by (apply wrap_Ret; rewrite SnapshotHistory_run, Hh; reflexivity).
  by erewrite bind_Ret by (apply getHist_Some; exact Hh).
Qed.

Lemma Backup_keeps_history p h :
  hist p = Some h ->
  hist (snd (Backup c p)) = Some h /\
  exists evs, trace (snd (Backup c p)) = trace p ++ evs /\
              Forall (fun ev => ev <> EvS3SnapshotHistory) evs.
Proof.
  intros Hh.
  destruct (Backup_prepare c p) as [[[[hosts ts] parent]|e|] p2] eqn:E;
    destruct (Backup_prepare_frame c _ _ _ E)
      as (Hn & _ & (evs & Ht & _ & HF) & Hkeep & Hv); [| |done].
  - destruct (Hv _ eq_refl) as (Hh2 & h0 & Hh0). simpl in Hh0.
    rewrite (Backup_after_prepare c _ _ _ _ _ _ E Hh0).
    destruct ((wrap "schema backup failed" (schemaBackup c parent ts h0) ;;;
               range hosts (Backup_host c parent ts)) p2) as [r p'] eqn:ER.
    assert (D : does c (fun ev => ev <> EvS3SnapshotHistory)
                  (wrap "schema backup failed" (schemaBackup c parent ts h0) ;;;
                   range hosts (Backup_host c parent ts))).
    { apply does_bind; [apply does_wrap|intros _].
      - eapply does_weaken; [|apply does_schemaBackup]. by intros [] ?.
      - eapply does_weaken; [|apply does_Backup_hosts]. by intros [] ?. }
    destruct (D _ _ _ Hh2 ER) as (_ & Hh' & (evs' & Ht' & HF') & _).
    simpl. split; [rewrite Hh'; by apply Hkeep|].
    exists (evs ++ evs'). rewrite Ht', Ht, app_assoc. split; [done|].
    apply Forall_app. split; [|done]. apply HF. by eexists.
  - rewrite (Backup_prepare_fails c _ _ _ E). simpl. split; [by apply Hkeep|].
    exists evs. split; [done|]. apply HF. by eexists.
Qed.

Lemma Restore_keeps_history p h :
  hist p = Some h ->
  hist (snd (Restore c p)) = Some h /\
  exists evs, trace (snd (Restore c p)) = trace p ++ evs /\
              Forall (fun ev => ev <> EvS3SnapshotHistory) evs.
Proof.
  intros Hh.
  destruct (Restore_prepare c p) as [[[hosts target]|e|] p1] eqn:E;
    destruct (Restore_prepare_frame c _ _ _ E)
      as (Hn & _ & (evs & Ht & _ & HF) & Hkeep & Hv); [| |done].
  - destruct (Hv _ eq_refl) as (_ & h0 & Hh0). simpl in Hh0.
    rewrite (Restore_after_prepare c _ _ _ _ _ E Hh0).
    destruct (Restore_steps c h0 target p1) as [r p'] eqn:ER.
    destruct (Restore_steps_run c _ _ _ _ _ _ (Hkeep _ Hh) ER)
      as (_ & Hh' & _ & (rest & Ht' & HF' & _) & _).
    simpl. split; [rewrite Hh'; by apply Hkeep|].
    exists (evs ++ EvAgentRun h0 (dropKeyspace_cmd (config p1)) :: rest).
    rewrite Ht', Ht, app_assoc. split; [done|].
    apply Forall_app. split; [apply HF; by eexists|].
    constructor; [done|]. eapply Forall_impl; [exact HF'|]. by intros [] ?.
  - rewrite (Restore_prepare_fails c _ _ _ E). simpl. split; [by apply Hkeep|].
    exists evs. split; [done|]. apply HF. by eexists.
Qed.

(** C7: [SnapshotHistory] asks S3 for the history only while none is
    cached: the first successful load stores the history, a failed one
    stores nothing, and with a cached history [SnapshotHistory] returns at
    once and changes nothing.  No operation of a run replaces the cached
    history or asks S3 for it again. *)
Theorem SnapshotHistory_cached_once :
  (forall p h, hist p = None -> s3_SnapshotHistory c (config p) (trace p) = inl h ->
     SnapshotHistory c p
     = (Ret tt, mkPriam (config p) (Some h) (trace p ++ [EvS3SnapshotHistory]))) /\
  (forall p e, hist p = None -> s3_SnapshotHistory c (config p) (trace p) = inr e ->
     SnapshotHistory c p
     = (Fail (Wrap e "error getting snapshot history"),
        mkPriam (config p) None (trace p ++ [EvS3SnapshotHistory]))) /\
  (forall p h, hist p = Some h -> SnapshotHistory c p = (Ret tt, p)) /\
  (forall m p h, m ∈ operations c -> hist p = Some h ->
     hist (snd (m p)) = Some h /\
     exists evs, trace (snd (m p)) = trace p ++ evs /\
                 Forall (fun ev => ev <> EvS3SnapshotHistory) evs).
Proof.
  split; [|split; [|split]].
  - intros p h Hh Hs. by rewrite SnapshotHistory_run, Hh, Hs.
  - intros p e Hh Hs. rewrite SnapshotHistory_run, Hh, Hs. unfold emit. by rewrite Hh.
  - intros p h Hh. by rewrite SnapshotHistory_run, Hh.
  - intros m p h Hm Hh. unfold operations in Hm.
    rewrite !elem_of_cons in Hm.
    destruct Hm as [->|[->|[->|[->|Hm]]]].
    + rewrite SnapshotHistory_run, Hh. simpl. split; [done|].
      exists []. by rewrite app_nil_r.
    + rewrite (History_cached _ _ Hh). simpl. split; [done|].
      eexists. split; [done|]. by repeat constructor.
    + by apply Backup_keeps_history.
    + by apply Restore_keeps_history.
    + by apply elem_of_nil in Hm.
Qed.

End Cache.

(** ** More about the runs: edges, failures and what follows what *)

Section Edges.

Context {H : Type} `{!HistoryMethods H} (c : Collaborators H).

(** X1: without hosts both [Backup] and [Restore] fail at once: the only
    call made is the one for the hosts; the history is not loaded and the
    clock is not read. *)
Theorem no_hosts_fails_first p :
  cassandra_Hosts c (config p) (trace p) = [] ->
  Backup c p = (Fail (Errorf "unable to get any cassandra hosts"), emit EvHosts p) /\
  Restore c p = (Fail (Errorf "did not find valid cassandra hosts"), emit EvHosts p).
Proof.
  intros E. split.
  - apply Backup_prepare_fails. unfold Backup_prepare.
    by rewrite prepare_no_hosts by done.
  - apply Restore_prepare_fails. unfold Restore_prepare.
    by rewrite prepare_no_hosts by done.
Qed.

(** The prepare phases when the history cannot be loaded. *)
Lemma prepare_load_fails p h0 rest e p1 :
  cassandra_Hosts c (config p) (trace p) = h0 :: rest ->
  SnapshotHistory c (emit EvHosts p) = (Fail e, p1) ->
  Backup_prepare c p = (Fail (Wrap e "error getting snapshot history"), p1) /\
  Restore_prepare c p = (Fail e, p1).
Proof.
  intros Hhosts Hload. split.
  - unfold Backup_prepare. erewrite bind_Ret by reflexivity. rewrite Hhosts.
    change (List.length (h0 :: rest) =? 0)%nat with false. cbv iota.
    by erewrite bind_Fail by (apply wrap_Fail; exact Hload).
  - unfold Restore_prepare. erewrite bind_Ret by reflexivity. rewrite Hhosts.
    change (List.length (h0 :: rest) =? 0)%nat with false. cbv iota.
    erewrite bind_Ret by reflexivity.
    by erewrite bind_Fail by exact Hload.
Qed.

(** X2: when S3 cannot list the history, [Backup] reports the error wrapped
    twice with the same message, [Restore] reports it wrapped once; nothing
    else is called, and nothing is cached: the next [SnapshotHistory] asks
    S3 again and caches what it then gets. *)
Theorem history_failure_is_not_cached p hosts e :
  cassandra_Hosts c (config p) (trace p) = hosts -> hosts <> [] ->
  hist p = None ->
  s3_SnapshotHistory c (config p) (trace p ++ [EvHosts]) = inr e ->
  let msg := "error getting snapshot history" in
  let p' := emit EvS3SnapshotHistory (emit EvHosts p) in
  Backup c p = (Fail (Wrap (Wrap e msg) msg), p') /\
  Restore c p = (Fail (Wrap e msg), p') /\
  hist p' = None /\
  (forall h, s3_SnapshotHistory c (config p') (trace p') = inl h ->
     SnapshotHistory c p'
     = (Ret tt, mkPriam (config p) (Some h) (trace p' ++ [EvS3SnapshotHistory]))).
Proof.
  intros Hhosts Hne Hnil Hs3 msg p'.
  destruct hosts as [|h0 rest]; [done|].
  assert (Hload : SnapshotHistory c (emit EvHosts p) = (Fail (Wrap e msg), p')).
  { rewrite SnapshotHistory_run. simpl. by rewrite Hnil, Hs3. }
  destruct (prepare_load_fails _ _ _ _ _ Hhosts Hload) as [EB ER].
  split; [by apply Backup_prepare_fails|]. split; [by apply Restore_prepare_fails|].
  split; [done|]. intros h Hh. unfold p' in *.
  rewrite SnapshotHistory_run. simpl in *. by rewrite Hnil, Hh.
Qed.

End Edges.


Section Frames.

Context {H : Type} `{!HistoryMethods H} (c : Collaborators H).

Lemma SnapshotHistory_trace p r p' :
  SnapshotHistory c p = (r, p') ->
  config p' = config p /\
  (trace p' = trace p \/ trace p' = trace p ++ [EvS3SnapshotHistory]).
Proof.
  rewrite SnapshotHistory_run. intros E.
  destruct (hist p); [inversion E; subst; by eauto|].
  destruct (s3_SnapshotHistory c (config p) (trace p)); inversion E; subst; simpl; eauto.
Qed.

(** The calls of the prepare phases: the hosts, then at most one query for
    the history, then, in a backup, at most one reading of the clock. *)
Lemma Backup_prepare_trace p r p2 :
  Backup_prepare c p = (r, p2) ->
  exists mid tail,
    trace p2 = trace p ++ EvHosts :: mid ++ tail /\
    (mid = [] \/ mid = [EvS3SnapshotHistory]) /\ (tail = [] \/ tail = [EvTimeNow]).
Proof.
  intros E.
  destruct (cassandra_Hosts c (config p) (trace p)) as [|h0 rest] eqn:Hhosts.
  { unfold Backup_prepare in E. rewrite prepare_no_hosts in E by done.
    inversion E; subst. exists [], []. simpl. eauto. }
  destruct (SnapshotHistory c (emit EvHosts p)) as [[[]|e|] p1] eqn:Hload;
    destruct (SnapshotHistory_trace _ _ _ Hload) as (_ & Ht);
    destruct (SnapshotHistory_frame c _ _ _ Hload) as (_ & Hn & Hs & _); [| |done].
  - destruct Hs as [h Hh]; [done|].
    assert (Hr : ready c p (h0 :: rest) h p1) by (repeat split; done).
    rewrite (Backup_prepare_unfold c _ _ _ _ Hr) in E. simpl in E.
    assert (Ht2 : trace p2 = trace p1 ++ [EvTimeNow]).
    { destruct (last (List h)) as [T|];
        [destruct (string_gt T (time_Now c (trace p1)));
         [|destruct (Incremental (config p1))]|];
        by inversion E. }
    rewrite Ht2. simpl in Ht.
    destruct Ht as [-> | ->]; rewrite <- ?app_assoc; simpl.
    + exists [], [EvTimeNow]. eauto.
    + exists [EvS3SnapshotHistory], [EvTimeNow]. eauto.
  - destruct (prepare_load_fails c _ _ _ _ _ Hhosts Hload) as [EB _].
    rewrite EB in E. inversion E; subst. simpl in Ht.
    destruct Ht as [-> | ->]; rewrite <- ?app_assoc; simpl.
    + exists [], []. eauto.
    + exists [EvS3SnapshotHistory], []. eauto.
Qed.

Lemma Restore_prepare_trace p r p1 :
  Restore_prepare c p = (r, p1) ->
  exists mid,
    trace p1 = trace p ++ EvHosts :: mid /\ (mid = [] \/ mid = [EvS3SnapshotHistory]).
Proof.
  intros E.
  destruct (cassandra_Hosts c (config p) (trace p)) as [|h0 rest] eqn:Hhosts.
  { unfold Restore_prepare in E. rewrite prepare_no_hosts in E by done.
    inversion E; subst. exists []. simpl. eauto. }
  destruct (SnapshotHistory c (emit EvHosts p)) as [[[]|e|] q] eqn:Hload;
    destruct (SnapshotHistory_trace _ _ _ Hload) as (_ & Ht);
    destruct (SnapshotHistory_frame c _ _ _ Hload) as (_ & Hn & Hs & _); [| |done].
  - destruct Hs as [h Hh]; [done|].
    assert (Hr : ready c p (h0 :: rest) h q) by (repeat split; done).
    rewrite (Restore_prepare_unfold c _ _ _ _ Hr) in E. simpl in E.
    assert (p1 = q) as ->.
    { repeat match type of E with
             | context [if ?b then _ else _] => destruct b
             end; by inversion E. }
    simpl in Ht. destruct Ht as [-> | ->]; rewrite <- ?app_assoc; simpl; eauto.
  - destruct (prepare_load_fails c _ _ _ _ _ Hhosts Hload) as [_ ER].
    rewrite ER in E. inversion E; subst. simpl in Ht.
    destruct Ht as [-> | ->]; rewrite <- ?app_assoc; simpl; eauto.
Qed.

Lemma no_history_query_filter (evs : list Event) :
  Forall (fun ev => is_history_query ev = false) evs ->
  List.filter is_history_query evs = [].
Proof. induction 1 as [|ev evs Hev _ IH]; simpl; [done|]. by rewrite Hev. Qed.

(** Everything [Backup] calls, in any run. *)
Lemma Backup_events p :
  exists evs,
    trace (snd (Backup c p)) = trace p ++ evs /\
    Forall (fun ev => backup_call ev = true) evs /\
    List.length (List.filter is_history_query evs) <= 1.
Proof.
  destruct (Backup_prepare c p) as [r p2] eqn:E.
  destruct (Backup_prepare_trace _ _ _ E) as (mid & tail & Ht & Hmid & Htail).
  assert (Hpre : Forall (fun ev => backup_call ev = true) (EvHosts :: mid ++ tail)).
  { constructor; [done|]. apply Forall_app.
    destruct Hmid as [-> | ->], Htail as [-> | ->]; split; by repeat constructor. }
  assert (Hcount : forall rest,
            Forall (fun ev => is_history_query ev = false) rest ->
            List.length (List.filter is_history_query ((EvHosts :: mid ++ tail) ++ rest)) <= 1).
  { intros rest Hrest. rewrite List.filter_app, (no_history_query_filter rest) by done.
    rewrite app_nil_r. destruct Hmid as [-> | ->], Htail as [-> | ->]; simpl; lia. }
  destruct r as [[[hosts ts] parent]|e|].
  - destruct (Backup_prepare_frame c _ _ _ E) as (_ & _ & _ & _ & Hv).
    destruct (Hv _ eq_refl) as (Hh2 & h0 & Hh0). simpl in Hh0.
    rewrite (Backup_after_prepare c _ _ _ _ _ _ E Hh0).
    destruct ((wrap "schema backup failed" (schemaBackup c parent ts h0) ;;;
               range hosts (Backup_host c parent ts)) p2) as [r p'] eqn:ER.
    assert (D : does c (fun ev => schema_backup_op ev = true \/ per_host_op ev = true)
                  (wrap "schema backup failed" (schemaBackup c parent ts h0) ;;;
                   range hosts (Backup_host c parent ts))).
    { apply does_bind; [apply does_wrap|intros _].
      - eapply does_weaken; [|apply does_schemaBackup]. by left.
      - eapply does_weaken; [|apply does_Backup_hosts]. by right. }
    destruct (D _ _ _ Hh2 ER) as (_ & _ & (rest & Ht' & HF') & _).
    exists ((EvHosts :: mid ++ tail) ++ rest). simpl snd.
    rewrite Ht', Ht, <- app_assoc. split; [done|]. split.
    + apply Forall_app. split; [done|]. eapply Forall_impl; [exact HF'|].
      intros ev [Hev|Hev]; unfold backup_call; rewrite Hev; by rewrite ?orb_true_r.
    + apply Hcount. eapply Forall_impl; [exact HF'|]. by intros [] [?|?].
  - rewrite (Backup_prepare_fails c _ _ _ E). simpl snd.
    exists (EvHosts :: mid ++ tail). split; [done|]. split; [done|].
    specialize (Hcount [] (List.Forall_nil _)). by rewrite app_nil_r in Hcount.
  - by destruct (Backup_prepare_frame c _ _ _ E) as (? & _).
Qed.

(** Everything [Restore] calls, in any run; the configuration stays. *)
Lemma Restore_events p :
  config (snd (Restore c p)) = config p /\
  exists evs,
    trace (snd (Restore c p)) = trace p ++ evs /\
    Forall (fun ev => restore_call ev = true) evs /\
    List.length (List.filter is_history_query evs) <= 1.
Proof.
  destruct (Restore_prepare c p) as [r p1] eqn:E.
  destruct (Restore_prepare_trace _ _ _ E) as (mid & Ht & Hmid).
  destruct (Restore_prepare_frame c _ _ _ E) as (Hn & Hc & _ & _ & Hv).
  assert (Hpre : Forall (fun ev => restore_call ev = true) (EvHosts :: mid)).
  { constructor; [done|]. destruct Hmid as [-> | ->]; by repeat constructor. }
  assert (Hcount : forall rest,
            Forall (fun ev => is_history_query ev = false) rest ->
            List.length (List.filter is_history_query ((EvHosts :: mid) ++ rest)) <= 1).
  { intros rest Hrest. rewrite List.filter_app, (no_history_query_filter rest) by done.
    rewrite app_nil_r. destruct Hmid as [-> | ->]; simpl; lia. }
  destruct r as [[hosts target]|e|]; [| |done].
  - destruct (Hv _ eq_refl) as ([h Hh] & h0 & Hh0). simpl in Hh0.
    rewrite (Restore_after_prepare c _ _ _ _ _ E Hh0).
    destruct (Restore_steps c h0 target p1) as [r p'] eqn:ER.
    destruct (Restore_steps_run c _ _ _ _ _ _ Hh ER)
      as (Hc' & _ & _ & (rest & Ht' & HF' & _) & _).
    simpl snd. split; [congruence|].
    exists ((EvHosts :: mid) ++ EvAgentRun h0 (dropKeyspace_cmd (config p1)) :: rest).
    rewrite Ht', Ht, <- app_assoc. split; [done|]. split.
    + apply Forall_app. split; [done|]. constructor; [done|].
      eapply Forall_impl; [exact HF'|]. intros ev Hev.
      destruct ev; try done. unfold restore_call. rewrite Hev. apply orb_true_r.
    + apply Hcount. constructor; [done|]. eapply Forall_impl; [exact HF'|].
      by intros [] ?.
  - rewrite (Restore_prepare_fails c _ _ _ E). simpl snd. split; [done|].
    exists (EvHosts :: mid). split; [done|]. split; [done|].
    specialize (Hcount [] (List.Forall_nil _)). by rewrite app_nil_r in Hcount.
Qed.

(** [History], whatever the state: it fails with the error of the load,
    wrapped twice, and has printed nothing; or it returns after printing the
    list of the history that is then cached, once, as its last call. *)
Lemma History_run p :
  (exists e, s3_SnapshotHistory c (config p) (trace p) = inr e /\ hist p = None /\
     History c p = (Fail (Wrap (Wrap e "error getting snapshot history")
                            "error getting snapshot history"),
                    emit EvS3SnapshotHistory p))
  \/ (exists h q, SnapshotHistory c p = (Ret tt, q) /\ hist q = Some h /\
        History c p
        = (Ret tt, emit (EvPrintf ("backup list:" ++ String "010"%char (HistString h))) q)).
Proof.
  destruct (SnapshotHistory c p) as [[[]|e|] q] eqn:Hload.
  - right. destruct (SnapshotHistory_frame c _ _ _ Hload) as (_ & _ & [h Hh] & _); [done|].
    exists h, q. split; [done|]. split; [done|]. unfold History.
    erewrite bind_Ret by (apply wrap_Ret; exact Hload).
    by erewrite bind_Ret by (apply getHist_Some; exact Hh).
  - left. rewrite SnapshotHistory_run in Hload.
    destruct (hist p) eqn:Hh; [done|].
    destruct (s3_SnapshotHistory c (config p) (trace p)) as [h|e0] eqn:Hs; [done|].
    inversion Hload; subst. exists e0. split; [done|]. split; [done|].
    unfold History. erewrite bind_Fail; [done|]. apply wrap_Fail.
    by rewrite SnapshotHistory_run, Hh, Hs.
  - by destruct (SnapshotHistory_frame c _ _ _ Hload) as (_ & ? & _).
Qed.

End Frames.


Section Calls.

Context {H : Type} `{!HistoryMethods H} (c : Collaborators H).

(** X3: no operation asks S3 for the history more than once, whether the
    history was cached before or not. *)
Theorem history_queried_at_most_once (m : M H unit) p :
  m ∈ operations c ->
  exists evs,
    trace (snd (m p)) = trace p ++ evs /\
    List.length (List.filter is_history_query evs) <= 1.
Proof.
  unfold operations. rewrite !elem_of_cons.
  intros [->|[->|[->|[->|Hm]]]]; [| | | |by apply elem_of_nil in Hm].
  - destruct (SnapshotHistory c p) as [r p'] eqn:E.
    destruct (SnapshotHistory_trace c _ _ _ E) as (_ & [Ht|Ht]); simpl snd.
    + exists []. rewrite app_nil_r. split; [done|]. simpl. lia.
    + exists [EvS3SnapshotHistory]. split; [done|]. simpl. lia.
  - destruct (History_run c p) as [(e & _ & _ & ->)|(h & q & Hload & _ & ->)]; simpl snd.
    + exists [EvS3SnapshotHistory]. split; [done|]. simpl. lia.
    + destruct (SnapshotHistory_trace c _ _ _ Hload) as (_ & [Ht|Ht]);
        simpl; rewrite Ht, <- ?app_assoc; eexists; (split; [reflexivity|]); simpl; lia.
  - destruct (Backup_events c p) as (evs & ? & _ & ?). by exists evs.
  - destruct (Restore_events c p) as (_ & evs & ? & _ & ?). by exists evs.
Qed.

(** X4: [Restore], [History] and [SnapshotHistory] never write the
    configuration, whatever they return. *)
Theorem only_Backup_writes_config p :
  config (snd (Restore c p)) = config p /\
  config (snd (History c p)) = config p /\
  config (snd (SnapshotHistory c p)) = config p.
Proof.
  split; [apply Restore_events|]. split.
  - destruct (History_run c p) as [(e & _ & _ & ->)|(h & q & Hload & _ & ->)]; [done|].
    simpl. by destruct (SnapshotHistory_trace c _ _ _ Hload).
  - destruct (SnapshotHistory c p) as [r p'] eqn:E.
    by destruct (SnapshotHistory_trace c _ _ _ E).
Qed.

(** X5: in any run [Backup] only asks for the hosts, the history and the
    time, backs up the schema and snapshots, uploads and cleans hosts;
    [Restore] only asks for the hosts and the history, drops the keyspace
    and makes the calls that recreate the schema and load the data.  The two
    have only the questions for the hosts and the history in common: a
    backup runs no command and downloads nothing, a restore takes no
    snapshot, uploads nothing to S3 and deletes no local snapshot. *)
Theorem Backup_and_Restore_calls p :
  (exists evs, trace (snd (Backup c p)) = trace p ++ evs /\
               Forall (fun ev => backup_call ev = true) evs) /\
  (exists evs, trace (snd (Restore c p)) = trace p ++ evs /\
               Forall (fun ev => restore_call ev = true) evs) /\
  (forall ev, backup_call ev = true -> restore_call ev = true ->
              ev = EvHosts \/ ev = EvS3SnapshotHistory).
Proof.
  split; [|split].
  - destruct (Backup_events c p) as (evs & ? & ? & _). by exists evs.
  - destruct (Restore_events c p) as (_ & evs & ? & ? & _). by exists evs.
  - intros [] Hb Hr; try done; eauto.
Qed.

(** X6: [History] either fails with the error of the load, wrapped twice,
    having printed nothing and cached nothing, or returns after printing
    the list of the history that is now cached: one [Printf], its last
    call. *)
Theorem History_prints_or_fails p r p' :
  History c p = (r, p') ->
  exists evs, trace p' = trace p ++ evs /\
    ((exists e, r = Fail (Wrap (Wrap e "error getting snapshot history")
                            "error getting snapshot history") /\
                s3_SnapshotHistory c (config p) (trace p) = inr e /\
                hist p' = None /\ Forall (fun ev => is_printf ev = false) evs)
     \/ (r = Ret tt /\
         exists h pre, hist p' = Some h /\
           evs = pre ++ [EvPrintf ("backup list:" ++ String "010"%char (HistString h))] /\
           Forall (fun ev => is_printf ev = false) pre)).
Proof.
  intros E.
  destruct (History_run c p) as [(e & Hs & Hh & E')|(h & q & Hload & Hh & E')];
    rewrite E' in E; inversion E; subst.
  - exists [EvS3SnapshotHistory]. split; [done|]. left. exists e.
    repeat (split; [done|]). by repeat constructor.
  - destruct (SnapshotHistory_trace c _ _ _ Hload) as (_ & [Ht|Ht]); simpl; rewrite Ht.
    + eexists. split; [reflexivity|]. right. split; [done|]. by exists h, [].
    + rewrite <- app_assoc. eexists. split; [reflexivity|]. right. split; [done|].
      exists h, [EvS3SnapshotHistory]. repeat (split; [done|]). by repeat constructor.
Qed.

End Calls.

Section Cleanup.

Context {H : Type} `{!HistoryMethods H} (c : Collaborators H).

Lemma snoc_split {A} (l t : list A) a x post :
  l ++ [a] = t ++ x :: post ->
  (exists post0, l = t ++ x :: post0) \/ (t = l /\ x = a).
Proof.
  destruct post as [|y post _] using rev_ind; intros E.
  - change (l ++ [a] = t ++ [x]) in E. apply app_inj_tail in E as [-> ->]. by right.
  - rewrite app_comm_cons, app_assoc in E. apply app_inj_tail in E as [-> _]. eauto.
Qed.

Lemma in_earlier_trace {A} (l evs t : list A) x post :
  l ++ evs = t ++ x :: post ->
  Forall (fun ev => ev <> x) evs ->
  exists post0, l = t ++ x :: post0.
Proof.
  revert post. induction evs as [|a evs IH] using rev_ind; intros post E HF.
  - rewrite app_nil_r in E. eauto.
  - apply Forall_app in HF as [HF Ha]. rewrite app_assoc in E.
    apply snoc_split in E as [[post0 E]|[_ ->]]; [by eapply IH|].
    by inversion Ha.
Qed.

(** One turn of the loop, by the answers of the collaborators. *)
Lemma Backup_host_cases parent ts host p :
  let S := EvSnapshot host ts in
  Backup_host c parent ts host p =
    match cassandra_Snapshot c (config p) (trace p) host ts with
    | inr e0 => (Fail (Wrap e0 ("snapshot @ " ++ host)), emit S p)
    | inl (files, dirs) =>
        let U := EvS3UploadFiles parent ts host files in
        let D := EvDeleteSnapshot host dirs in
        match s3_UploadFiles c (config p) (trace p ++ [S]) parent ts host files with
        | Some e0 => (Fail (Wrap e0 ("upload @ " ++ host)), emit U (emit S p))
        | None =>
            match cassandra_deleteSnapshot c (config p) ((trace p ++ [S]) ++ [U]) host dirs with
            | Some e0 => (Fail (Wrap e0 ("delete @ " ++ host)), emit D (emit U (emit S p)))
            | None => (Ret tt, emit D (emit U (emit S p)))
            end
        end
    end.
Proof.
  unfold Backup_host, bind, wrap, call, call_. simpl.
  destruct (cassandra_Snapshot c (config p) (trace p) host ts) as [[files dirs]|e0];
    [|done]. simpl.
  destruct (s3_UploadFiles c (config p) (trace p ++ [EvSnapshot host ts])
              parent ts host files); [done|]. simpl.
  by destruct (cassandra_deleteSnapshot c (config p) _ host dirs).
Qed.

Lemma Backup_hosts_deletes parent ts hosts p r p' :
  range hosts (Backup_host c parent ts) p = (r, p') ->
  forall t host dirs post,
    trace p' = t ++ EvDeleteSnapshot host dirs :: post ->
    delete_follows_upload c (config p) (trace p) t host dirs post.
Proof.
  revert p. induction hosts as [|host0 hosts IH]; intros p E t host dirs post Ht.
  - inversion E; subst. left. eauto.
  - simpl in E. unfold bind in E. rewrite Backup_host_cases in E. simpl in E.
    destruct (cassandra_Snapshot c (config p) (trace p) host0 ts)
      as [[files0 dirs0]|e0] eqn:Hsnap.
    2:{ inversion E; subst. simpl in Ht.
        apply snoc_split in Ht as [?|[_ ?]]; [by left|done]. }
    destruct (s3_UploadFiles c (config p) (trace p ++ [EvSnapshot host0 ts])
                parent ts host0 files0) as [e0|] eqn:Hup.
    { inversion E; subst. simpl in Ht.
      apply snoc_split in Ht as [[post0 Ht]|[_ ?]]; [|done].
      apply snoc_split in Ht as [?|[_ ?]]; [by left|done]. }
    assert (Hblock : forall post1,
              ((trace p ++ [EvSnapshot host0 ts])
                 ++ [EvS3UploadFiles parent ts host0 files0])
                ++ [EvDeleteSnapshot host0 dirs0] = t ++ EvDeleteSnapshot host dirs :: post1 ->
              delete_follows_upload c (config p) (trace p) t host dirs post).
    { intros post1 Hb. apply snoc_split in Hb as [[post0 Hb]|[-> [= <- <-]]].
      - apply snoc_split in Hb as [[post2 Hb]|[_ ?]]; [|done].
        apply snoc_split in Hb as [?|[_ ?]]; [by left|done].
      - right. exists (trace p), parent, ts, files0.
        rewrite <- app_assoc. done. }
    destruct (cassandra_deleteSnapshot c (config p) _ host0 dirs0) as [e0|].
    { inversion E; subst. simpl in Ht. by eapply Hblock. }
    destruct (IH _ E _ _ _ _ Ht) as [[post0 Hin]|Hnew].
    + simpl in Hin. by eapply Hblock.
    + by right.
Qed.

(** X7: [Backup] asks a host to delete a local snapshot only right after
    that host's snapshot and the upload of its files have both succeeded;
    the directories it deletes are those the snapshot returned, and the
    files it uploaded are those the snapshot returned.  (A deletion call
    found in the trace is either older than the run or of this form.) *)
Theorem Backup_deletes_only_after_upload p t host dirs post :
  trace (snd (Backup c p)) = t ++ EvDeleteSnapshot host dirs :: post ->
  (exists post0, trace p = t ++ EvDeleteSnapshot host dirs :: post0)
  \/ (exists t' parent ts files,
        t = t' ++ [EvSnapshot host ts; EvS3UploadFiles parent ts host files] /\
        cassandra_Snapshot c (config (snd (Backup c p))) t' host ts = inl (files, dirs) /\
        s3_UploadFiles c (config (snd (Backup c p))) (t' ++ [EvSnapshot host ts])
          parent ts host files = None).
Proof.
  intros Ht.
  destruct (Backup_prepare c p) as [r p2] eqn:E.
  destruct (Backup_prepare_frame c _ _ _ E) as (Hn & _ & (evs1 & Ht1 & HF1 & _) & _ & Hv).
  assert (Hq : forall evs, Forall (fun ev => query_op ev = true \/ schema_backup_op ev = true) evs ->
            Forall (fun ev => ev <> EvDeleteSnapshot host dirs) evs).
  { intros evs HF. eapply Forall_impl; [exact HF|]. by intros [] [?|?]. }
  destruct r as [[[hosts ts] parent]|e|]; [| |done].
  - destruct (Hv _ eq_refl) as (Hh2 & h0 & Hh0). simpl in Hh0.
    rewrite (Backup_after_prepare c _ _ _ _ _ _ E Hh0) in Ht |- *.
    destruct (schemaBackup c parent ts h0 p2) as [[[]|e|] p3] eqn:Es;
      destruct (does_schemaBackup c _ _ _ _ _ _ Hh2 Es)
        as (Hc3 & Hh3 & (evs2 & Ht2 & HF2) & Hn3 & _); [| |done].
    + assert (EB : (wrap "schema backup failed" (schemaBackup c parent ts h0) ;;;
                    range hosts (Backup_host c parent ts)) p2
                   = range hosts (Backup_host c parent ts) p3)
        by (by erewrite bind_Ret by (apply wrap_Ret; exact Es)).
      rewrite EB in Ht |- *.
      destruct (range hosts (Backup_host c parent ts) p3) as [r p'] eqn:ER.
      simpl snd in *.
      assert (Hh3' : is_Some (hist p3)) by (by rewrite Hh3).
      destruct (does_Backup_hosts c _ _ _ _ _ _ Hh3' ER) as (Hc' & _).
      destruct (Backup_hosts_deletes _ _ _ _ _ _ ER _ _ _ _ Ht) as [[post0 Hin]|Hnew].
      * left. rewrite Ht2, Ht1, <- app_assoc in Hin.
        eapply in_earlier_trace; [exact Hin|]. apply Hq, Forall_app. split.
        -- eapply Forall_impl; [exact HF1|]. by left.
        -- eapply Forall_impl; [exact HF2|]. by right.
      * right. by rewrite Hc'.
    + assert (EB : (wrap "schema backup failed" (schemaBackup c parent ts h0) ;;;
                    range hosts (Backup_host c parent ts)) p2
                   = (Fail (Wrap e "schema backup failed"), p3))
        by (by erewrite bind_Fail by (apply wrap_Fail; exact Es)).
      rewrite EB in Ht. simpl snd in *. left. rewrite Ht2, Ht1, <- app_assoc in Ht.
      eapply in_earlier_trace; [exact Ht|]. apply Hq, Forall_app. split.
      * eapply Forall_impl; [exact HF1|]. by left.
      * eapply Forall_impl; [exact HF2|]. by right.
  - rewrite (Backup_prepare_fails c _ _ _ E) in Ht. simpl in Ht. left.
    rewrite Ht1 in Ht. eapply in_earlier_trace; [exact Ht|]. apply Hq.
    eapply Forall_impl; [exact HF1|]. by left.
Qed.

End Cleanup.


Section Loading.

Context {H : Type} `{!HistoryMethods H} (c : Collaborators H).

Lemma uploadFilesToHost_loop_events host dir l acc p dirs p' :
  range_acc l acc (uploadFilesToHost_body c host dir) p = (Ret dirs, p') ->
  dirs = dirs_after dir l acc /\
  trace p' = trace p ++ map (upload_event host dir) l /\ config p' = config p.
Proof.
  revert acc p. induction l as [|[key file] l IH]; intros acc p E; simpl in E.
  - inversion E; subst. simpl. by rewrite app_nil_r.
  - unfold bind at 1, uploadFilesToHost_body, bind, wrap, call_, ret in E.
    simpl in E.
    destruct (agent_UploadFile c (config p) (trace p) host file
                (path.Dir (dir ++ "/" ++ key)%string)); [done|].
    destruct (IH _ _ E) as (-> & Ht & Hc). split; [done|]. split; [|done].
    rewrite Ht. simpl. by rewrite <- app_assoc.
Qed.

Lemma uploadFilesToHost_loop_fails host dir l acc p e p' :
  range_acc l acc (uploadFilesToHost_body c host dir) p = (Fail e, p') ->
  exists finished entry later e0,
    l = finished ++ entry :: later /\
    trace p' = trace p ++ map (upload_event host dir) (finished ++ [entry]) /\
    oracle_error c (config p) (trace p ++ map (upload_event host dir) finished)
      (upload_event host dir entry) = Some e0 /\
    e = Wrap e0 "error uploading backup files to host".
Proof.
  revert acc p. induction l as [|[key file] l IH]; intros acc p E; simpl in E; [done|].
  unfold bind at 1, uploadFilesToHost_body, bind, wrap, call_, ret in E.
  simpl in E.
  destruct (agent_UploadFile c (config p) (trace p) host file
              (path.Dir (dir ++ "/" ++ key)%string)) as [e0|] eqn:Hup.
  - inversion E; subst. exists [], (key, file), l, e0. simpl.
    rewrite app_nil_r. done.
  - destruct (IH _ _ E) as (finished & entry & later & e0 & -> & Ht & Ho & ->).
    exists ((key, file) :: finished), entry, later, e0. simpl in *.
    rewrite <- !app_assoc in *. done.
Qed.

Lemma uploadFilesToHost_no_panic host dir files p :
  fst (uploadFilesToHost c host dir files p) <> Panic.
Proof.
  unfold uploadFilesToHost. generalize (∅ : gmap string bool).
  generalize (mapiter c (trace p) files). intros l. revert p.
  induction l as [|[key file] l IH]; intros p acc; simpl; [done|].
  unfold bind at 1, uploadFilesToHost_body, bind, wrap, call_, ret. simpl.
  destruct (agent_UploadFile c (config p) (trace p) host file _); [done|]. apply IH.
Qed.

(** X8: when an upload to the host fails, [uploadFilesToHost] stops there:
    the files before it in the order of the iteration were copied, the
    failing one was tried, none of the others was touched, and the error is
    the one of the failing call under "error uploading backup files to
    host". *)
Theorem uploadFilesToHost_stops_at_first_failure host dir files p e p' :
  uploadFilesToHost c host dir files p = (Fail e, p') ->
  exists finished entry later e0,
    finished ++ entry :: later ≡ₚ map_to_list files /\
    trace p' = trace p ++ map (upload_event host dir) (finished ++ [entry]) /\
    agent_UploadFile c (config p) (trace p ++ map (upload_event host dir) finished)
      host entry.2 (path.Dir (dir ++ "/" ++ entry.1)%string) = Some e0 /\
    e = Wrap e0 "error uploading backup files to host".
Proof.
  intros E. unfold uploadFilesToHost in E.
  destruct (uploadFilesToHost_loop_fails _ _ _ _ _ _ _ E)
    as (finished & entry & later & e0 & Hl & Ht & Ho & ->).
  exists finished, entry, later, e0. split; [|done].
  rewrite <- Hl. apply mapiter_perm.
Qed.

(** [loadSnapshot], by the answers of the collaborators. *)
Lemma loadSnapshot_cases host snapshot p h :
  hist p = Some h ->
  let cfg := config p in
  loadSnapshot c host snapshot p =
    match Keys h snapshot with
    | inr e0 => (Fail (Wrap e0 "failed to get all keys"), p)
    | inl keys =>
        let D := EvS3DownloadKeys keys (localTmpDir cfg) in
        match s3_downloadKeys c cfg (trace p) keys (localTmpDir cfg) with
        | inr e0 => (Fail (Wrap e0 "error downloading keys"), emit D p)
        | inl files =>
            match uploadFilesToHost c host (remoteTmpDir cfg) files (emit D p) with
            | (Ret dirs, q) =>
                match cassandra_sstableload c (config q) (trace q) host dirs with
                | Some e0 => (Fail (Wrap e0 "failed to run sstableloader"),
                              emit (EvSstableload host dirs) q)
                | None => (Ret tt, emit (EvSstableload host dirs) q)
                end
            | (Fail e, q) => (Fail (Wrap e "could not upload files to host"), q)
            | (Panic, q) => (Panic, q)
            end
        end
    end.
Proof.
  intros Hh cfg. unfold loadSnapshot.
  erewrite bind_Ret by reflexivity.
  erewrite bind_Ret by (apply getHist_Some; exact Hh).
  destruct (Keys h snapshot) as [keys|e0].
  2:{ by erewrite bind_Fail by reflexivity. }
  erewrite bind_Ret by reflexivity.
  unfold bind at 1, wrap at 1, call at 1. fold cfg.
  destruct (s3_downloadKeys c cfg (trace p) keys (localTmpDir cfg)) as [files|e0]; [|done].
  unfold bind, wrap at 1.
  destruct (uploadFilesToHost c host (remoteTmpDir cfg) files _) as [[dirs|e|] q]; try done.
  unfold wrap, call_.
  by destruct (cassandra_sstableload c (config q) (trace q) host dirs).
Qed.

(** A [loadSnapshot] that returns without error. *)
Lemma loadSnapshot_Ret host snapshot p h p' :
  hist p = Some h ->
  loadSnapshot c host snapshot p = (Ret tt, p') ->
  let cfg := config p in
  exists keys files order dirs,
    Keys h snapshot = inl keys /\
    s3_downloadKeys c cfg (trace p) keys (localTmpDir cfg) = inl files /\
    order ≡ₚ map_to_list files /\
    trace p' = trace p ++ EvS3DownloadKeys keys (localTmpDir cfg)
                 :: map (upload_event host (remoteTmpDir cfg)) order
                 ++ [EvSstableload host dirs] /\
    (forall d, is_Some (dirs !! d) <->
       exists key, is_Some (files !! key) /\
                   d = path.Dir (remoteTmpDir cfg ++ "/" ++ key)%string).
Proof.
  intros Hh E cfg. rewrite (loadSnapshot_cases _ _ _ _ Hh) in E. fold cfg in E.
  destruct (Keys h snapshot) as [keys|e0] eqn:HK; [|done].
  destruct (s3_downloadKeys c cfg (trace p) keys (localTmpDir cfg)) as [files|e0] eqn:HD;
    [|done].
  simpl in E.
  destruct (uploadFilesToHost c host (remoteTmpDir cfg) files _) as [[dirs|e|] q] eqn:Eu;
    try done.
  destruct (cassandra_sstableload c (config q) (trace q) host dirs); [done|].
  inversion E; subst p'. unfold uploadFilesToHost in Eu.
  destruct (uploadFilesToHost_loop_events _ _ _ _ _ _ _ Eu) as (-> & Ht & _).
  simpl trace in Ht.
  set (order := mapiter c (trace p ++ [EvS3DownloadKeys keys (localTmpDir cfg)]) files) in *.
  assert (Hperm : order ≡ₚ map_to_list files) by apply mapiter_perm.
  exists keys, files, order, (dirs_after (remoteTmpDir cfg) order ∅).
  split; [reflexivity|]. split; [exact HD|]. split; [exact Hperm|]. split.
  - simpl. rewrite Ht, <- !app_assoc. done.
  - intros d. rewrite dirs_after_lookup.
    assert (Hmem : d ∈ (fun entry : string * string =>
                          path.Dir (remoteTmpDir cfg ++ "/" ++ entry.1)%string) <$> order
                   <-> exists key, is_Some (files !! key) /\
                         d = path.Dir (remoteTmpDir cfg ++ "/" ++ key)%string).
    { rewrite list_elem_of_fmap. split.
      - intros ([key file] & -> & Hin). exists key. split; [|done].
        rewrite Hperm in Hin. apply elem_of_map_to_list in Hin. by eexists.
      - intros (key & [file Hf] & ->). exists (key, file). split; [done|].
        rewrite Hperm. by apply elem_of_map_to_list. }
    rewrite <- Hmem. case_bool_decide; [split; [done|by eexists]|].
    rewrite lookup_empty. split; [by intros [? ?]|done].
Qed.

(** X9: a [loadSnapshot] that returns without error has resolved the keys
    of the snapshot, downloaded them in one call, copied every downloaded
    file to the host, and then, as its last call, run sstableload once on
    that host with exactly the directories the files were copied to. *)
Theorem loadSnapshot_success host snapshot p h p' :
  hist p = Some h ->
  loadSnapshot c host snapshot p = (Ret tt, p') ->
  let cfg := config p in
  exists keys files order dirs,
    Keys h snapshot = inl keys /\
    s3_downloadKeys c cfg (trace p) keys (localTmpDir cfg) = inl files /\
    order ≡ₚ map_to_list files /\
    trace p' = trace p ++ EvS3DownloadKeys keys (localTmpDir cfg)
                 :: map (upload_event host (remoteTmpDir cfg)) order
                 ++ [EvSstableload host dirs] /\
    (forall d, is_Some (dirs !! d) <->
       exists key, is_Some (files !! key) /\
                   d = path.Dir (remoteTmpDir cfg ++ "/" ++ key)%string).
Proof. apply loadSnapshot_Ret. Qed.

(** X10: how [loadSnapshot] fails.  When the keys cannot be resolved nothing
    is called.  When the download fails nothing is copied.  When a copy
    fails the later files are not tried.  sstableload is called only after
    every file was copied, and its failure is the last way to fail. *)
Theorem loadSnapshot_failure host snapshot p h e p' :
  hist p = Some h ->
  loadSnapshot c host snapshot p = (Fail e, p') ->
  let cfg := config p in
  (exists e0, Keys h snapshot = inr e0 /\
     e = Wrap e0 "failed to get all keys" /\ p' = p)
  \/ (exists keys, Keys h snapshot = inl keys /\
      let D := EvS3DownloadKeys keys (localTmpDir cfg) in
      let copy := upload_event host (remoteTmpDir cfg) in
      ((exists e0, s3_downloadKeys c cfg (trace p) keys (localTmpDir cfg) = inr e0 /\
          e = Wrap e0 "error downloading keys" /\ trace p' = trace p ++ [D])
       \/ (exists files, s3_downloadKeys c cfg (trace p) keys (localTmpDir cfg) = inl files /\
           ((exists finished entry later e0,
               finished ++ entry :: later ≡ₚ map_to_list files /\
               trace p' = trace p ++ D :: map copy (finished ++ [entry]) /\
               oracle_error c cfg (trace p ++ D :: map copy finished) (copy entry) = Some e0 /\
               e = Wrap (Wrap e0 "error uploading backup files to host")
                     "could not upload files to host")
            \/ (exists order dirs e0,
                  order ≡ₚ map_to_list files /\
                  trace p' = trace p ++ D :: map copy order ++ [EvSstableload host dirs] /\
                  cassandra_sstableload c cfg (trace p ++ D :: map copy order) host dirs
                  = Some e0 /\
                  e = Wrap e0 "failed to run sstableloader"))))).
Proof.
  intros Hh E cfg. rewrite (loadSnapshot_cases _ _ _ _ Hh) in E. fold cfg in E.
  destruct (Keys h snapshot) as [keys|e0].
  2:{ left. inversion E; subst. eauto. }
  right. exists keys. split; [done|]. simpl.
  destruct (s3_downloadKeys c cfg (trace p) keys (localTmpDir cfg)) as [files|e0].
  2:{ left. inversion E; subst. eauto. }
  right. exists files. split; [done|]. simpl in E.
  destruct (uploadFilesToHost c host (remoteTmpDir cfg) files _) as [[dirs|e1|] q] eqn:Eu;
    [| |done]; unfold uploadFilesToHost in Eu; simpl trace in Eu.
  - right.
    destruct (uploadFilesToHost_loop_events _ _ _ _ _ _ _ Eu) as (_ & Ht & Hc).
    simpl in Ht, Hc.
    destruct (cassandra_sstableload c (config q) (trace q) host dirs) as [e0|] eqn:Hl;
      [|done].
    inversion E; subst.
    exists (mapiter c (trace p ++ [EvS3DownloadKeys keys (localTmpDir cfg)]) files), dirs, e0.
    split; [apply mapiter_perm|].
    rewrite Hc, Ht, <- app_assoc in Hl. split; [|done].
    simpl. rewrite Ht, <- !app_assoc. done.
  - left. inversion E; subst.
    destruct (uploadFilesToHost_loop_fails _ _ _ _ _ _ _ Eu)
      as (finished & entry & later & e0 & Hl & Ht & Ho & ->).
    exists finished, entry, later, e0.
    split; [rewrite <- Hl; apply mapiter_perm|].
    simpl in Ht, Ho. rewrite <- app_assoc in Ho.
    split; [by rewrite Ht, <- !app_assoc|]. done.
Qed.

End Loading.


Section Schema.

Context {H : Type} `{!HistoryMethods H} (c : Collaborators H).

Lemma snoc_split_last {A} (l t : list A) a x post :
  l ++ [a] = t ++ x :: post ->
  (exists post0, l = t ++ x :: post0) \/ (t = l /\ x = a /\ post = []).
Proof.
  destruct post as [|y post _] using rev_ind; intros E.
  - change (l ++ [a] = t ++ [x]) in E. apply app_inj_tail in E as [-> ->]. by right.
  - rewrite app_comm_cons, app_assoc in E. apply app_inj_tail in E as [-> _]. eauto.
Qed.

(** [createSchema], by the answers of the collaborators. *)
Lemma createSchema_cases host snapshot p h :
  hist p = Some h ->
  let cfg := config p in
  let key := createSchema_key cfg (Parent h snapshot) snapshot in
  let remoteFile := strings.TrimSuffix (path.Join (remoteTmpDir cfg) key) ".gz" in
  let Dl := EvS3DownloadKey key (localTmpDir cfg) in
  createSchema c host snapshot p =
    match s3_downloadKey c cfg (trace p) key (localTmpDir cfg) with
    | inr e0 => (Fail (Wrap e0 "error downloading schema key"), emit Dl p)
    | inl localFile =>
        let Up := EvAgentUploadFile host localFile (path.Dir remoteFile) in
        let Run := EvAgentRun host (createSchema_cmd cfg remoteFile) in
        match agent_UploadFile c cfg (trace p ++ [Dl]) host localFile (path.Dir remoteFile) with
        | Some e0 => (Fail (Wrap e0 "error uploading file"), emit Up (emit Dl p))
        | None =>
            match agent_Run c cfg ((trace p ++ [Dl]) ++ [Up]) host
                    (createSchema_cmd cfg remoteFile) with
            | inr e0 => (Fail (Wrap e0 "failed creating schema"),
                         emit Run (emit Up (emit Dl p)))
            | inl _ => (Ret tt, emit Run (emit Up (emit Dl p)))
            end
        end
    end.
Proof.
  intros Hh. cbv zeta. unfold createSchema.
  erewrite bind_Ret by (apply getHist_Some; exact Hh).
  erewrite bind_Ret by reflexivity.
  unfold bind, wrap, call, call_, ret. simpl.
  destruct (s3_downloadKey c (config p) (trace p) _ _) as [localFile|e0]; [|done]. simpl.
  destruct (agent_UploadFile c (config p) _ host localFile _); [done|]. simpl.
  by destruct (agent_Run c (config p) _ host _).
Qed.

(** X11: [createSchema] runs a command on the host only as its last call,
    after the schema file was downloaded and copied to the host without
    error: the file copied is the one the download returned, the directory
    it is copied to is the one of the file that the command feeds to cqlsh,
    and the key downloaded is the schema key of the snapshot under its
    parent.  (A command found in the trace is either older than the call or
    of this form.) *)
Theorem createSchema_applies_after_copy host snapshot p h r p' t host' cmd post :
  hist p = Some h ->
  createSchema c host snapshot p = (r, p') ->
  trace p' = t ++ EvAgentRun host' cmd :: post ->
  let cfg := config p in
  let key := createSchema_key cfg (Parent h snapshot) snapshot in
  let remoteFile := strings.TrimSuffix (path.Join (remoteTmpDir cfg) key) ".gz" in
  (exists post0, trace p = t ++ EvAgentRun host' cmd :: post0)
  \/ (post = [] /\ host' = host /\ cmd = createSchema_cmd cfg remoteFile /\
      exists localFile,
        t = trace p ++ [EvS3DownloadKey key (localTmpDir cfg);
                        EvAgentUploadFile host localFile (path.Dir remoteFile)] /\
        s3_downloadKey c cfg (trace p) key (localTmpDir cfg) = inl localFile /\
        agent_UploadFile c cfg (trace p ++ [EvS3DownloadKey key (localTmpDir cfg)])
          host localFile (path.Dir remoteFile) = None).
Proof.
  intros Hh E Ht cfg key remoteFile.
  rewrite (createSchema_cases _ _ _ _ Hh) in E. fold cfg key remoteFile in E.
  destruct (s3_downloadKey c cfg (trace p) key (localTmpDir cfg)) as [localFile|e0] eqn:Hd.
  2:{ inversion E; subst. simpl in Ht.
      apply snoc_split_last in Ht as [?|(_ & ? & _)]; [by left|done]. }
  simpl in E.
  destruct (agent_UploadFile c cfg (trace p ++ [EvS3DownloadKey key (localTmpDir cfg)])
              host localFile (path.Dir remoteFile)) as [e0|] eqn:Hu.
  { inversion E; subst. simpl in Ht.
    apply snoc_split_last in Ht as [[post0 Ht]|(_ & ? & _)]; [|done].
    apply snoc_split_last in Ht as [?|(_ & ? & _)]; [by left|done]. }
  assert (Ht' : ((trace p ++ [EvS3DownloadKey key (localTmpDir cfg)])
                   ++ [EvAgentUploadFile host localFile (path.Dir remoteFile)])
                  ++ [EvAgentRun host (createSchema_cmd cfg remoteFile)]
                = t ++ EvAgentRun host' cmd :: post).
  { destruct (agent_Run c cfg _ host (createSchema_cmd cfg remoteFile));
      inversion E; subst; exact Ht. }
  apply snoc_split_last in Ht' as [[post0 Ht']|(-> & [= <- <-] & ->)].
  - apply snoc_split_last in Ht' as [[post1 Ht']|(_ & ? & _)]; [|done].
    apply snoc_split_last in Ht' as [?|(_ & ? & _)]; [by left|done].
  - right. repeat (split; [done|]). exists localFile.
    rewrite <- app_assoc. done.
Qed.

(** X12: when the download brings no file, [loadSnapshot] copies nothing
    and still runs sstableload, on no directory at all. *)
Theorem loadSnapshot_without_files host snapshot p h keys :
  hist p = Some h ->
  Keys h snapshot = inl keys ->
  let cfg := config p in
  let D := EvS3DownloadKeys keys (localTmpDir cfg) in
  s3_downloadKeys c cfg (trace p) keys (localTmpDir cfg) = inl ∅ ->
  loadSnapshot c host snapshot p =
    (match cassandra_sstableload c cfg (trace p ++ [D]) host ∅ with
     | Some e0 => Fail (Wrap e0 "failed to run sstableloader")
     | None => Ret tt
     end,
     mkPriam cfg (hist p) (trace p ++ [D; EvSstableload host ∅])).
Proof.
  intros Hh HK cfg D Hd. rewrite (loadSnapshot_cases c _ _ _ _ Hh), HK. fold cfg.
  rewrite Hd. unfold uploadFilesToHost.
  assert (Hnil : mapiter c (trace (emit D p)) (∅ : gmap string string) = []).
  { pose proof (mapiter_perm c (trace (emit D p)) ∅) as Hp.
    rewrite map_to_list_empty in Hp. exact (proj1 (Permutation_nil_r _) Hp). }
  fold D. rewrite Hnil. simpl.
  unfold cfg.
  destruct (cassandra_sstableload c (config p) (trace p ++ [D]) host ∅);
    unfold emit; simpl; by rewrite <- app_assoc.
Qed.

End Schema.

Section Reuse.

Context {H : Type} `{!HistoryMethods H} (c : Collaborators H).

(** What [Backup] leaves behind for the next operation on the object. *)
Lemma Backup_leaves p hosts h p1 :
  ready c p hosts h p1 ->
  hist (snd (Backup c p)) = Some h /\
  Snapshot (config (snd (Backup c p))) = Snapshot (config p).
Proof.
  intros Hr.
  pose proof (Backup_prepare_unfold c _ _ _ _ Hr) as E. simpl in E.
  destruct Hr as (_ & _ & _ & Hh).
  destruct (Backup_prepare c p) as [r p2] eqn:E2.
  destruct (Backup_prepare_frame c _ _ _ E2) as (Hn & Hc & _ & _ & Hv).
  assert (Hh2 : hist p2 = Some h).
  { destruct (last (List h)) as [T|];
      [destruct (string_gt T (time_Now c (trace p1)));
       [|destruct (Incremental (config p1))]|];
      inversion E; subst; exact Hh. }
  assert (Hs2 : Snapshot (config p2) = Snapshot (config p)).
  { by destruct Hc as [-> | ->]. }
  destruct r as [[[hosts' ts] parent]|e|]; [| |done].
  - destruct (Hv _ eq_refl) as (_ & h0 & Hh0). simpl in Hh0.
    rewrite (Backup_after_prepare c _ _ _ _ _ _ E2 Hh0).
    destruct ((wrap "schema backup failed" (schemaBackup c parent ts h0) ;;;
               range hosts' (Backup_host c parent ts)) p2) as [r p'] eqn:ER.
    assert (D : does c (fun _ => True)
                  (wrap "schema backup failed" (schemaBackup c parent ts h0) ;;;
                   range hosts' (Backup_host c parent ts))).
    { apply does_bind; [apply does_wrap|intros _].
      - eapply does_weaken; [|apply does_schemaBackup]. done.
      - eapply does_weaken; [|apply does_Backup_hosts]. done. }
    destruct (D _ _ _ (mk_is_Some _ _ Hh2) ER) as (Hc' & Hh' & _).
    simpl. by rewrite Hc', Hh'.
  - by rewrite (Backup_prepare_fails c _ _ _ E2).
Qed.

(** With a cached history every run is ready without asking S3. *)
Lemma ready_cached p h hosts :
  hist p = Some h ->
  cassandra_Hosts c (config p) (trace p) = hosts -> hosts <> [] ->
  ready c p hosts h (emit EvHosts p).
Proof.
  intros Hh Hhosts Hne. repeat split; try done.
  rewrite SnapshotHistory_run. simpl. by rewrite Hh.
Qed.

(** X13: the history cached by a [Backup] is the one from before the
    backup, and [Restore] on the same object uses it without asking S3
    again.  So after the first backup of a keyspace (empty history, no
    snapshot named) a [Restore] on the same object fails with "no existing
    backup to restore from", whether the backup succeeded or not. *)
Theorem Restore_after_first_Backup p hosts h p1 :
  ready c p hosts h p1 ->
  List h = [] ->
  Snapshot (config p) = "" ->
  let p' := snd (Backup c p) in
  cassandra_Hosts c (config p') (trace p') <> [] ->
  Restore c p' = (Fail (Errorf "no existing backup to restore from"), emit EvHosts p').
Proof.
  intros Hr Hnil Hsnap p' Hhosts.
  destruct (Backup_leaves _ _ _ _ Hr) as (Hh' & Hs'). fold p' in Hh', Hs'.
  pose proof (ready_cached p' h _ Hh' eq_refl Hhosts) as Hr'.
  apply Restore_prepare_fails.
  rewrite (Restore_prepare_unfold c _ _ _ _ Hr'). simpl.
  by rewrite Hs', Hsnap, Hnil.
Qed.

(** X14: a second [Backup] on the same object checks its timestamp against
    the history from before the first backup and takes its parent from
    there: with an incremental backup asked for, the parent is the last
    snapshot of that history, not the snapshot the first backup made; with
    that history empty the second backup is a full one again, whatever its
    timestamp. *)
Theorem second_Backup_uses_cached_history p hosts h p1 :
  ready c p hosts h p1 ->
  let p' := snd (Backup c p) in
  let hosts' := cassandra_Hosts c (config p') (trace p') in
  let ts2 := time_Now c (trace p' ++ [EvHosts]) in
  hosts' <> [] ->
  (forall T, last (List h) = Some T -> string_gt T ts2 = false ->
     Incremental (config p') = true ->
     Backup_prepare c p' = (Ret (hosts', ts2, T), emit EvTimeNow (emit EvHosts p'))) /\
  (List h = [] ->
     Backup_prepare c p'
     = (Ret (hosts', ts2, ts2),
        mkPriam (set_Incremental false (config p')) (Some h)
          (trace p' ++ [EvHosts; EvTimeNow]))).
Proof.
  intros Hr p' hosts' ts2 Hhosts.
  destruct (Backup_leaves _ _ _ _ Hr) as (Hh' & _). fold p' in Hh'.
  pose proof (ready_cached p' h _ Hh' eq_refl Hhosts) as Hr'.
  pose proof (Backup_prepare_unfold c _ _ _ _ Hr') as E. simpl in E.
  fold hosts' ts2 in E. split.
  - intros T HT Hgt Hi. rewrite HT, Hgt, Hi in E. exact E.
  - intros Hnil. rewrite Hnil in E. simpl in E. rewrite Hh', <- app_assoc in E. exact E.
Qed.

End Reuse.


Section Success.

Context {H : Type} `{!HistoryMethods H} (c : Collaborators H).

(** [schemaBackup], by the answers of the collaborators. *)
Lemma schemaBackup_cases parent ts host p :
  let cfg := config p in
  let key := schemaBackup_key cfg parent ts in
  schemaBackup c parent ts host p =
    match cassandra_SchemaBackup c cfg (trace p) host with
    | inr e0 => (Fail (Wrap e0 "schema backup"), emit (EvSchemaBackup host) p)
    | inl file =>
        let p1 := emit (EvS3UploadFile host file key) (emit (EvSchemaBackup host) p) in
        match s3_UploadFile c cfg (trace p ++ [EvSchemaBackup host]) host file key with
        | Some e0 => (Fail (Wrap e0 ("schema upload @ " ++ host)), p1)
        | None => (Ret tt, p1)
        end
    end.
Proof.
  cbv zeta. unfold schemaBackup, bind, wrap, call, call_, getConfig. simpl.
  destruct (cassandra_SchemaBackup c (config p) (trace p) host) as [file|e0]; [|done].
  simpl. by destruct (s3_UploadFile c (config p) _ host file _).
Qed.

(** [deleteKeyspace], by the answer of the agent. *)
Lemma deleteKeyspace_cases host p :
  let drop := EvAgentRun host (dropKeyspace_cmd (config p)) in
  deleteKeyspace c host p =
    match agent_Run c (config p) (trace p) host (dropKeyspace_cmd (config p)) with
    | inl _ => (Ret tt, emit drop p)
    | inr e0 => (Fail e0, emit drop p)
    end.
Proof.
  cbv zeta. unfold deleteKeyspace, bind, call, getConfig, ret. simpl.
  by destruct (agent_Run c (config p) (trace p) host _).
Qed.

(** X15: a [Backup] that returns without error has, after finding hosts and
    history and reading the clock, dumped the schema of the first host and
    uploaded that very file under the schema key, and then taken every host
    of the list, in order, through snapshot, upload and deletion: two calls
    and three for each host, no more. *)
Theorem Backup_success p p' :
  Backup c p = (Ret tt, p') ->
  exists hosts ts parent p2 host0 file blocks,
    Backup_prepare c p = (Ret (hosts, ts, parent), p2) /\
    hosts !! 0 = Some host0 /\
    cassandra_SchemaBackup c (config p2) (trace p2) host0 = inl file /\
    Forall2 (host_block parent ts) hosts blocks /\
    trace p' = trace p2
      ++ [EvSchemaBackup host0;
          EvS3UploadFile host0 file (schemaBackup_key (config p2) parent ts)]
      ++ concat blocks /\
    List.length (trace p') = List.length (trace p2) + 2 + 3 * List.length hosts.
Proof.
  intros EB.
  destruct (Backup_prepare c p) as [[[[hosts ts] parent]|e|] p2] eqn:E.
  2:{ by rewrite (Backup_prepare_fails c _ _ _ E) in EB. }
  2:{ by destruct (Backup_prepare_frame c _ _ _ E) as (? & _). }
  destruct (Backup_prepare_frame c _ _ _ E) as (_ & _ & _ & _ & Hv).
  destruct (Hv _ eq_refl) as (Hh2 & host0 & Hh0). simpl in Hh0.
  rewrite (Backup_after_prepare c _ _ _ _ _ _ E Hh0) in EB.
  unfold bind at 1, wrap in EB. rewrite schemaBackup_cases in EB.
  destruct (cassandra_SchemaBackup c (config p2) (trace p2) host0) as [file|e0] eqn:Hd;
    [|done].
  simpl in EB.
  destruct (s3_UploadFile c (config p2) _ host0 file _); [done|].
  destruct (Backup_hosts_run c _ _ _ _ _ _ EB)
    as (evs & Ht & finished & blocks & HF & [(_ & -> & ->)|(? & ? & ? & ? & _ & ? & _)]);
    [|done].
  exists hosts, ts, parent, p2, host0, file, blocks.
  repeat (split; [done|]).
  assert (Ht' : trace p' = trace p2
            ++ [EvSchemaBackup host0;
                EvS3UploadFile host0 file (schemaBackup_key (config p2) parent ts)]
            ++ concat blocks).
  { rewrite Ht. simpl. by rewrite <- !app_assoc. }
  split; [done|]. rewrite Ht', !length_app. simpl.
  assert (Hlen : List.length (concat blocks) = 3 * List.length hosts).
  { clear -HF. induction HF as [|host evs hosts blocks (files & dirs & ->) _ IH];
      simpl; [done|]. rewrite IH. lia. }
  rewrite Hlen. lia.
Qed.

End Success.

(** ** The first failure ends the run *)

Section AbortLogic.

Context {H : Type} `{!HistoryMethods H} (c : Collaborators H).

Lemma all_ok_app cfg t evs1 evs2 :
  all_ok c cfg t (evs1 ++ evs2)
  = all_ok c cfg t evs1 && all_ok c cfg (t ++ evs1) evs2.
Proof.
  revert t. induction evs1 as [|ev evs1 IH]; intros t; simpl.
  - by rewrite app_nil_r.
  - destruct (oracle_error c cfg t ev); [done|].
    by rewrite IH, <- app_assoc.
Qed.

Lemma all_ok_snoc cfg t evs ev :
  all_ok c cfg t evs = true -> oracle_error c cfg (t ++ evs) ev = None ->
  all_ok c cfg t (evs ++ [ev]) = true.
Proof. intros H1 H2. rewrite all_ok_app, H1. simpl. by rewrite H2. Qed.

(** Every call of a run without failure was answered without error. *)
Lemma all_ok_split cfg t evs t1 ev post :
  all_ok c cfg t evs = true -> evs = t1 ++ ev :: post ->
  oracle_error c cfg (t ++ t1) ev = None.
Proof.
  intros Hok ->. rewrite all_ok_app in Hok. apply andb_true_iff in Hok as [_ Hok].
  simpl in Hok. by destruct (oracle_error c cfg (t ++ t1) ev).
Qed.

Lemma snoc_inv {A} (l t : list A) a x post :
  l ++ [a] = t ++ x :: post ->
  (post = [] /\ t = l /\ x = a) \/ (exists post0, l = t ++ x :: post0).
Proof.
  revert l. induction t as [|y t IH]; intros [|b l] E; simpl in *.
  - inversion E; subst. by left.
  - inversion E; subst. right. eauto.
  - inversion E as [[E1 E2]]. by destruct t.
  - inversion E as [[E1 E2]]. destruct (IH _ E2) as [(-> & -> & ->)|[post0 ->]].
    + by left.
    + right. eauto.
Qed.

(** A call that is answered with an error is the last call of the run,
    and the run fails with that error, wrapped. *)
Lemma first_failure_last cfg t evs {A} (r : outcome A) t1 ev post e0 :
  first_failure c cfg t evs r ->
  evs = t1 ++ ev :: post ->
  oracle_error c cfg (t ++ t1) ev = Some e0 ->
  post = [] /\ exists e, r = Fail e /\ wraps e0 e.
Proof.
  intros Hff Hsplit Herr. destruct r as [a|e|]; simpl in Hff.
  - by rewrite (all_ok_split _ _ _ _ _ _ Hff Hsplit) in Herr.
  - destruct Hff as (pre & ev' & e1 & -> & Hok & Herr' & Hw).
    apply snoc_inv in Hsplit as [(-> & <- & <-)|[post0 ->]].
    + split; [done|]. exists e. split; [done|]. congruence.
    + by rewrite (all_ok_split _ _ _ _ _ _ Hok eq_refl) in Herr.
  - done.
Qed.

(** A run returns without error exactly when every call it made was
    answered without error. *)
Lemma first_failure_Ret cfg t evs (r : outcome unit) :
  first_failure c cfg t evs r ->
  (r = Ret tt <-> all_ok c cfg t evs = true).
Proof.
  intros Hff. destruct r as [[]|e|]; simpl in Hff; [done| |done].
  destruct Hff as (pre & ev & e0 & -> & Hok & Herr & _). split; [done|].
  rewrite all_ok_app, Hok. simpl. by rewrite Herr.
Qed.

Lemma first_failure_app cfg t evs1 evs2 {A} (r : outcome A) :
  all_ok c cfg t evs1 = true ->
  first_failure c cfg (t ++ evs1) evs2 r ->
  first_failure c cfg t (evs1 ++ evs2) r.
Proof.
  intros Hok Hff. destruct r as [a|e|]; simpl in *; [|..|done].
  - by rewrite all_ok_app, Hok.
  - destruct Hff as (pre & ev & e0 & -> & Hok' & Herr & Hw).
    exists (evs1 ++ pre), ev, e0. rewrite app_assoc. split; [done|].
    rewrite all_ok_app, Hok, Hok'. split; [done|]. by rewrite app_assoc.
Qed.

Lemma first_failure_wrap cfg t evs {A} (e : error) msg :
  first_failure c cfg t evs (@Fail A e) ->
  first_failure c cfg t evs (@Fail A (Wrap e msg)).
Proof.
  intros (pre & ev & e0 & ? & ? & ? & ?). exists pre, ev, e0. eauto with priam.
Qed.

Lemma aborts_ret {A} (a : A) : aborts c (ret a).
Proof.
  intros p r p' _ E. inversion E; subst. split; [done|]. split; [done|].
  exists []. by rewrite app_nil_r.
Qed.

Lemma aborts_getConfig : aborts c getConfig.
Proof.
  intros p r p' _ E. inversion E; subst. split; [done|]. split; [done|].
  exists []. by rewrite app_nil_r.
Qed.

Lemma aborts_getHist : aborts c getHist.
Proof.
  intros p r p' [h Hh] E. unfold getHist in E. rewrite Hh in E.
  inversion E; subst. split; [done|]. split; [done|].
  exists []. by rewrite app_nil_r.
Qed.

Lemma aborts_bind {A B} (m : M H A) (k : A -> M H B) :
  aborts c m -> (forall a, aborts c (k a)) -> aborts c (bind m k).
Proof.
  intros Hm Hk p r p' Hh E. unfold bind in E.
  destruct (m p) as [[a|e|] p1] eqn:Em;
    destruct (Hm _ _ _ Hh Em) as (Hc1 & Hh1 & evs1 & Ht1 & Hf1).
  - assert (Hh' : is_Some (hist p1)) by (by rewrite Hh1).
    destruct (Hk a _ _ _ Hh' E) as (Hc2 & Hh2 & evs2 & Ht2 & Hf2).
    split; [congruence|]. split; [congruence|].
    exists (evs1 ++ evs2). rewrite Ht2, Ht1, app_assoc. split; [done|].
    apply first_failure_app; [exact Hf1|]. by rewrite <- Ht1, <- Hc1.
  - inversion E; subst. split; [done|]. split; [done|]. by exists evs1.
  - done.
Qed.

Lemma aborts_wrap {A} msg (m : M H A) : aborts c m -> aborts c (wrap msg m).
Proof.
  intros Hm p r p' Hh E. unfold wrap in E.
  destruct (m p) as [[a|e|] p1] eqn:Em; inversion E; subst;
    destruct (Hm _ _ _ Hh Em) as (? & ? & evs & ? & Hf);
    (split; [done|]); (split; [done|]); exists evs; (split; [done|]); [done| |done].
  by apply first_failure_wrap.
Qed.

Lemma aborts_call {A} ev (oracle : Config -> list Event -> A + error) :
  (forall cfg t, oracle_error c cfg t ev
                 = match oracle cfg t with inl _ => None | inr e => Some e end) ->
  aborts c (call ev oracle).
Proof.
  intros Ho p r p' _ E. unfold call in E. specialize (Ho (config p) (trace p)).
  destruct (oracle (config p) (trace p)) as [a|e]; inversion E; subst; simpl;
    (split; [done|]); (split; [done|]); exists [ev]; (split; [done|]); simpl.
  - by rewrite Ho.
  - exists [], ev, e. rewrite app_nil_r. eauto with priam.
Qed.

Lemma aborts_call_ ev (oracle : Config -> list Event -> option error) :
  (forall cfg t, oracle_error c cfg t ev = oracle cfg t) ->
  aborts c (call_ ev oracle).
Proof.
  intros Ho p r p' _ E. unfold call_ in E. specialize (Ho (config p) (trace p)).
  destruct (oracle (config p) (trace p)) as [e|]; inversion E; subst; simpl;
    (split; [done|]); (split; [done|]); exists [ev]; (split; [done|]); simpl.
  - exists [], ev, e. rewrite app_nil_r. eauto with priam.
  - by rewrite Ho.
Qed.

Lemma aborts_range {A} (l : list A) (body : A -> M H unit) :
  (forall x, aborts c (body x)) -> aborts c (range l body).
Proof.
  intros Hb. induction l as [|x l IH]; simpl.
  - apply aborts_ret.
  - apply aborts_bind; [apply Hb | intros _; apply IH].
Qed.

Lemma aborts_range_acc {A B} (l : list A) (acc : B) (body : A -> B -> M H B) :
  (forall x b, aborts c (body x b)) -> aborts c (range_acc l acc body).
Proof.
  intros Hb. revert acc. induction l as [|x l IH]; intros acc; simpl.
  - apply aborts_ret.
  - apply aborts_bind; [apply Hb | intros acc'; apply IH].
Qed.

Ltac aborts_step :=
  first
    [ apply aborts_bind; [|intros ?]
    | apply aborts_wrap
    | apply aborts_ret
    | apply aborts_getConfig
    | apply aborts_getHist
    | apply aborts_call; intros ? ?; reflexivity
    | apply aborts_call_; intros ? ?; reflexivity ].

Lemma aborts_schemaBackup parent ts host : aborts c (schemaBackup c parent ts host).
Proof. unfold schemaBackup. repeat aborts_step. Qed.

Lemma aborts_Backup_host parent ts host : aborts c (Backup_host c parent ts host).
Proof. unfold Backup_host. repeat aborts_step. Qed.

Lemma aborts_deleteKeyspace host : aborts c (deleteKeyspace c host).
Proof. unfold deleteKeyspace. repeat aborts_step. Qed.

Lemma aborts_createSchema host snapshot : aborts c (createSchema c host snapshot).
Proof. unfold createSchema. repeat aborts_step. Qed.

Lemma aborts_uploadFilesToHost host dir files :
  aborts c (uploadFilesToHost c host dir files).
Proof.
  intros p r p' Hh E. unfold uploadFilesToHost in E.
  eapply aborts_range_acc; [|done|exact E].
  intros entry dirs. unfold uploadFilesToHost_body. repeat aborts_step.
Qed.

End AbortLogic.

Section Aborts.

Context {H : Type} `{!HistoryMethods H} (c : Collaborators H).

(** The loop of [Backup] over the hosts, by the answers of the
    collaborators: it returns when every call was answered without error,
    and fails at the first call that was not, with the error of that call
    under the step and the host of the call. *)
Lemma Backup_hosts_abort parent ts hosts p r p' :
  range hosts (Backup_host c parent ts) p = (r, p') ->
  exists evs, trace p' = trace p ++ evs /\
    match r with
    | Ret _ => all_ok c (config p) (trace p) evs = true
    | Fail e =>
        exists pre ev e0 host msg,
          evs = pre ++ [ev] /\ all_ok c (config p) (trace p) pre = true /\
          oracle_error c (config p) (trace p ++ pre) ev = Some e0 /\
          host ∈ hosts /\ failed_step parent ts host ev msg /\ e = Wrap e0 msg
    | Panic => False
    end.
Proof.
  revert p. induction hosts as [|host hosts IH]; intros p E; simpl in E.
  - inversion E; subst. exists []. by rewrite app_nil_r.
  - unfold bind in E. rewrite Backup_host_cases in E. cbv zeta in E.
    destruct (cassandra_Snapshot c (config p) (trace p) host ts)
      as [[files dirs]|e0] eqn:Hsnap.
    2:{ inversion E; subst. exists [EvSnapshot host ts]. split; [done|].
        exists [], (EvSnapshot host ts), e0, host, ("snapshot @ " ++ host)%string.
        rewrite app_nil_r. simpl. rewrite Hsnap.
        repeat (split; [done|]). split; [left|]. split; [by left|done]. }
    destruct (s3_UploadFiles c (config p) (trace p ++ [EvSnapshot host ts])
                parent ts host files) as [e0|] eqn:Hup.
    { inversion E; subst.
      exists [EvSnapshot host ts; EvS3UploadFiles parent ts host files].
      split; [by simpl; rewrite <- app_assoc|].
      exists [EvSnapshot host ts], (EvS3UploadFiles parent ts host files), e0, host,
        ("upload @ " ++ host)%string.
      simpl. rewrite Hsnap, Hup. repeat (split; [done|]). split; [left|].
      split; [right; left; eauto|done]. }
    destruct (cassandra_deleteSnapshot c (config p)
                ((trace p ++ [EvSnapshot host ts])
                   ++ [EvS3UploadFiles parent ts host files]) host dirs) as [e0|] eqn:Hdel.
    { inversion E; subst.
      exists [EvSnapshot host ts; EvS3UploadFiles parent ts host files;
              EvDeleteSnapshot host dirs].
      split; [by simpl; rewrite <- !app_assoc|].
      exists [EvSnapshot host ts; EvS3UploadFiles parent ts host files],
        (EvDeleteSnapshot host dirs), e0, host, ("delete @ " ++ host)%string.
      split; [done|]. split; [by simpl; rewrite Hsnap, Hup|].
      split; [by simpl; rewrite <- Hdel, <- app_assoc|]. split; [left|].
      split; [right; right; eauto|done]. }
    destruct (IH _ E) as (evs & Ht & Hcase). simpl in Ht, Hcase.
    set (block := [EvSnapshot host ts; EvS3UploadFiles parent ts host files;
                   EvDeleteSnapshot host dirs]) in *.
    assert (Hblock : ((trace p ++ [EvSnapshot host ts])
                        ++ [EvS3UploadFiles parent ts host files])
                       ++ [EvDeleteSnapshot host dirs] = trace p ++ block)
      by (by rewrite <- !app_assoc).
    rewrite Hblock in Ht, Hcase.
    assert (Hok : all_ok c (config p) (trace p) block = true).
    { simpl. by rewrite Hsnap, Hup, Hdel. }
    exists (block ++ evs). split; [by rewrite Ht, app_assoc|].
    destruct r as [a|e|]; [|..|done].
    + by rewrite all_ok_app, Hok.
    + destruct Hcase as (pre & ev & e0 & host' & msg & -> & Hok' & Herr & Hin & Hstep & ->).
      exists (block ++ pre), ev, e0, host', msg.
      rewrite (app_assoc block pre). split; [done|].
      rewrite all_ok_app, Hok, Hok'. split; [done|].
      rewrite (app_assoc (trace p)). split; [done|]. split; [by right|done].
Qed.

(** [loadSnapshot], by the resolution of the keys. *)
Lemma loadSnapshot_abort host snapshot p h r p' :
  hist p = Some h ->
  loadSnapshot c host snapshot p = (r, p') ->
  exists evs, trace p' = trace p ++ evs /\
    match Keys h snapshot with
    | inl _ => first_failure c (config p) (trace p) evs r
    | inr e0 => evs = [] /\ r = Fail (Wrap e0 "failed to get all keys")
    end.
Proof.
  intros Hh E. unfold loadSnapshot in E.
  erewrite bind_Ret in E by reflexivity.
  erewrite bind_Ret in E by (apply getHist_Some; exact Hh).
  destruct (Keys h snapshot) as [keys|e0] eqn:HK.
  - erewrite bind_Ret in E by reflexivity.
    match type of E with
    | ?m p = _ => assert (D : aborts c m)
    end.
    { apply aborts_bind; [apply aborts_wrap, aborts_call; by intros|intros files].
      apply aborts_bind; [apply aborts_wrap, aborts_uploadFilesToHost|intros dirs].
      apply aborts_wrap, aborts_call_; by intros. }
    destruct (D _ _ _ (mk_is_Some _ _ Hh) E) as (_ & _ & evs & ? & ?). by exists evs.
  - erewrite bind_Fail in E by reflexivity. inversion E; subst.
    exists []. by rewrite app_nil_r.
Qed.

Lemma createSchema_no_data host snapshot :
  does c (fun ev => data_step ev = false) (createSchema c host snapshot).
Proof.
  unfold createSchema.
  repeat first
    [ apply does_bind; [|intros ?]
    | apply does_wrap
    | apply does_ret
    | apply does_getConfig
    | apply does_getHist
    | apply does_call; [reflexivity | intros ? ?; reflexivity]
    | apply does_call_; [reflexivity | intros ? ?; reflexivity] ].
Qed.

(** The three steps of [Restore] after its target was chosen, by the
    answers of the collaborators and the resolution of the keys. *)
Lemma Restore_steps_abort host0 target p1 h r p' :
  hist p1 = Some h ->
  Restore_steps c host0 target p1 = (r, p') ->
  exists evs, trace p' = trace p1 ++ evs /\
    match Keys h target with
    | inl _ => first_failure c (config p1) (trace p1) evs r
    | inr e0 =>
        Forall (fun ev => data_step ev = false) evs /\
        exists e, r = Fail e /\
          (first_failure c (config p1) (trace p1) evs r
           \/ (all_ok c (config p1) (trace p1) evs = true /\
               e = Wrap (Wrap e0 "failed to get all keys") "error loading snapshot"))
    end.
Proof.
  intros Hh E. unfold Restore_steps in E. unfold bind at 1 in E.
  assert (Hh1 : is_Some (hist p1)) by (by rewrite Hh).
  destruct (wrap "error deleting keyspace" (deleteKeyspace c host0) p1)
    as [r1 q1] eqn:E1.
  destruct (aborts_wrap c _ _ (aborts_deleteKeyspace c host0) _ _ _ Hh1 E1)
    as (Hc1 & Hhq1 & evs1 & Ht1 & Hf1).
  assert (Hd1 : Forall (fun ev => data_step ev = false) evs1).
  { destruct (does_wrap c _ _ _ (does_deleteKeyspace c host0) _ _ _ Hh1 E1)
      as (_ & _ & (evs & Ht & HF) & _).
    rewrite Ht in Ht1. apply app_inv_head in Ht1 as <-.
    eapply Forall_impl; [exact HF|]. by intros [] ?. }
  destruct r1 as [[]|e1|]; [| |done].
  2:{ inversion E; subst. exists evs1. split; [done|].
      destruct (Keys h target); [done|]. split; [done|].
      exists e1. split; [done|]. by left. }
  simpl in Hf1. unfold bind at 1 in E.
  assert (Hh2 : is_Some (hist q1)) by (by rewrite Hhq1).
  destruct (wrap "error creating schema" (createSchema c host0 target) q1)
    as [r2 q2] eqn:E2.
  destruct (aborts_wrap c _ _ (aborts_createSchema c host0 target) _ _ _ Hh2 E2)
    as (Hc2 & Hhq2 & evs2 & Ht2 & Hf2).
  rewrite Hc1, Ht1 in Hf2.
  assert (Hd2 : Forall (fun ev => data_step ev = false) evs2).
  { destruct (does_wrap c _ _ _ (createSchema_no_data host0 target) _ _ _ Hh2 E2)
      as (_ & _ & (evs & Ht & HF) & _).
    rewrite Ht in Ht2. by apply app_inv_head in Ht2 as <-. }
  assert (Ht12 : trace q2 = trace p1 ++ evs1 ++ evs2) by (by rewrite Ht2, Ht1, app_assoc).
  pose proof (first_failure_app c _ _ _ _ _ Hf1 Hf2) as Hf12.
  destruct r2 as [[]|e2|]; [| |done].
  2:{ inversion E; subst. exists (evs1 ++ evs2). split; [done|].
      destruct (Keys h target); [done|]. split; [by apply Forall_app|].
      exists e2. split; [done|]. by left. }
  simpl in Hf12. unfold wrap in E.
  destruct (loadSnapshot c host0 target q2) as [r3 q3] eqn:E3.
  assert (Hq2 : hist q2 = Some h) by congruence.
  destruct (loadSnapshot_abort _ _ _ _ _ _ Hq2 E3) as (evs3 & Ht3 & Hcase).
  assert (Hp' : p' = q3) by (destruct r3; by inversion E). subst q3.
  assert (Ht123 : trace p' = trace p1 ++ (evs1 ++ evs2) ++ evs3)
    by (by rewrite Ht3, Ht12, <- !app_assoc).
  rewrite Hc2, Hc1, Ht12 in Hcase.
  exists ((evs1 ++ evs2) ++ evs3). split; [done|].
  destruct (Keys h target) as [keys|e0].
  - pose proof (first_failure_app c _ _ _ _ _ Hf12 Hcase) as Hall.
    destruct r3 as [[]|e3|]; inversion E; subst; [done| |done].
    by apply first_failure_wrap.
  - destruct Hcase as (-> & ->). inversion E; subst. rewrite app_nil_r.
    split; [by apply Forall_app|]. eexists. split; [done|]. right. done.
Qed.

(** C6: after the schema backup, [Backup] takes the hosts in the order of
    the list, each through snapshot, upload and deletion of the local
    snapshot.  The first call that is answered with an error ends the run
    there: it is the last call made, no host after it is touched, nothing
    is undone, and [Backup] fails with the error of that call under the
    step and the host it was for.  [Backup] returns without error exactly
    when every call was answered without error, and then every host of the
    list went through its three calls. *)
Theorem Backup_hosts_in_order p hosts ts parent p2 host0 p3 :
  Backup_prepare c p = (Ret (hosts, ts, parent), p2) ->
  hosts !! 0 = Some host0 ->
  schemaBackup c parent ts host0 p2 = (Ret tt, p3) ->
  exists r p' evs,
    Backup c p = (r, p') /\ trace p' = trace p3 ++ evs /\
    hosts_outcome parent ts hosts r evs /\
    (forall e, r = Fail e -> stopped_at c p' e) /\
    (r = Ret tt <-> all_ok c (config p2) (trace p3) evs = true) /\
    (forall t1 ev post e0,
       evs = t1 ++ ev :: post ->
       oracle_error c (config p2) (trace p3 ++ t1) ev = Some e0 ->
       post = [] /\
       exists host msg,
         host ∈ hosts /\ failed_step parent ts host ev msg /\ r = Fail (Wrap e0 msg)).
Proof.
  intros E Hh0 Es.
  destruct (Backup_hosts_in_order_trace c _ _ _ _ _ _ _ E Hh0 Es)
    as (r & p' & evs & EB & Ht & Ho & Hstop).
  exists r, p', evs. repeat (split; [done|]).
  destruct (Backup_prepare_frame c _ _ _ E) as (_ & _ & _ & _ & Hv).
  destruct (Hv _ eq_refl) as (Hh2 & _).
  destruct (does_schemaBackup c _ _ _ _ _ _ Hh2 Es) as (Hc3 & _).
  rewrite (Backup_after_prepare c _ _ _ _ _ _ E Hh0) in EB.
  erewrite bind_Ret in EB by (apply wrap_Ret; exact Es).
  destruct (Backup_hosts_abort _ _ _ _ _ _ EB) as (evs' & Ht' & Hcase).
  rewrite Ht in Ht'. apply app_inv_head in Ht' as <-. rewrite Hc3 in Hcase.
  split.
  - destruct r as [[]|e|]; [done| |done].
    destruct Hcase as (pre & ev & e0 & _ & _ & -> & Hok & Herr & _).
    split; [done|]. rewrite all_ok_app, Hok. simpl. by rewrite Herr.
  - intros t1 ev post e0 Hsplit Herr. destruct r as [[]|e|]; [| |done].
    + by rewrite (all_ok_split c _ _ _ _ _ _ Hcase Hsplit) in Herr.
    + destruct Hcase as (pre & ev' & e1 & host & msg & -> & Hok & Herr' & Hin & Hstep & ->).
      apply snoc_inv in Hsplit as [(-> & <- & <-)|[post0 ->]].
      * split; [done|]. exists host, msg. rewrite Herr in Herr'.
        injection Herr' as ->. done.
      * by rewrite (all_ok_split c _ _ _ _ _ _ Hok eq_refl) in Herr.
Qed.

(** C4: once the target is validated, [Restore] drops the keyspace with
    one command on the first host; before it only the hosts and the
    history were asked for, after it come only the calls that recreate the
    schema and load the data, none of them a drop.  Any call from the drop
    on that is answered with an error is the last call of the run, and
    [Restore] fails with that error, wrapped; when the keys of the target
    cannot be resolved [Restore] fails too, and no data was downloaded or
    loaded.  [Restore] returns without error exactly when every call was
    answered without error and the keys were resolved.  The trace only
    grows: nothing is undone. *)
Theorem Restore_drops_once p hosts target p1 host0 :
  Restore_prepare c p = (Ret (hosts, target), p1) ->
  hosts !! 0 = Some host0 ->
  let drop := EvAgentRun host0 (dropKeyspace_cmd (config p)) in
  exists r p' pre rest,
    Restore c p = (r, p') /\
    trace p1 = trace p ++ pre /\ trace p' = trace p ++ pre ++ drop :: rest /\
    Forall (fun ev => query_op ev = true) pre /\
    Forall (fun ev => restore_step ev = true /\ is_drop ev = false) rest /\
    List.length (List.filter is_drop (pre ++ drop :: rest)) = 1 /\
    (forall e0, oracle_error c (config p) (trace p1) drop = Some e0 ->
                rest = [] /\ r = Fail (Wrap e0 "error deleting keyspace")) /\
    (forall e, r = Fail e ->
       (exists e0 msg, e = Wrap e0 msg) /\
       (stopped_at c p' e \/
        exists h e0, hist p1 = Some h /\ Keys h target = inr e0 /\ wraps e0 e)) /\
    (forall t1 ev post e0,
       drop :: rest = t1 ++ ev :: post ->
       oracle_error c (config p) (trace p1 ++ t1) ev = Some e0 ->
       post = [] /\ exists e, r = Fail e /\ wraps e0 e) /\
    (forall h e0, hist p1 = Some h -> Keys h target = inr e0 ->
       Forall (fun ev => data_step ev = false) rest /\
       exists e, r = Fail e /\
         (all_ok c (config p) (trace p1) (drop :: rest) = true ->
          e = Wrap (Wrap e0 "failed to get all keys") "error loading snapshot")) /\
    (r = Ret tt <->
       all_ok c (config p) (trace p1) (drop :: rest) = true /\
       exists h keys, hist p1 = Some h /\ Keys h target = inl keys).
Proof.
  intros E Hh0 drop.
  destruct (Restore_drops_once_trace c _ _ _ _ _ E Hh0)
    as (r & p' & pre & rest & ER & Ht1 & Ht & Hpre & Hrest & Hcount & Hdrop & Hfail).
  fold drop in Ht, Hcount, Hdrop.
  exists r, p', pre, rest. repeat (split; [done|]).
  destruct (Restore_prepare_frame c _ _ _ E) as (_ & Hc & _ & _ & Hv).
  destruct (Hv _ eq_refl) as ([h Hh] & _).
  rewrite (Restore_after_prepare c _ _ _ _ _ E Hh0) in ER.
  destruct (Restore_steps_abort _ _ _ _ _ _ Hh ER) as (evs & Ht' & Hcase).
  rewrite Ht, app_assoc, <- Ht1 in Ht'. apply app_inv_head in Ht' as <-.
  rewrite Hc in Hcase.
  split; [|split].
  - intros t1 ev post e0 Hsplit Herr.
    destruct (Keys h target) as [keys|e1].
    + by eapply first_failure_last.
    + destruct Hcase as (_ & e & -> & [Hff|[Hok _]]).
      * by eapply first_failure_last.
      * by rewrite (all_ok_split c _ _ _ _ _ _ Hok Hsplit) in Herr.
  - intros h' e0 Hh' HK. rewrite Hh in Hh'. injection Hh' as <-.
    rewrite HK in Hcase. destruct Hcase as (Hd & e & -> & Hr).
    split; [by inversion Hd|]. exists e. split; [done|]. intros Hok.
    destruct Hr as [Hff|[_ ->]]; [|done].
    apply (first_failure_Ret c) in Hff. by apply Hff in Hok.
  - destruct (Keys h target) as [keys|e1] eqn:HK.
    + rewrite (first_failure_Ret c _ _ _ _ Hcase). split; [|by intros [? _]].
      intros Hok. split; [done|]. by exists h, keys.
    + destruct Hcase as (_ & e & -> & _). split; [done|].
      intros (_ & h' & keys & Hh' & HK'). congruence.
Qed.

End Aborts.

Section RestoreSuccess.

Context {H : Type} `{!HistoryMethods H} (c : Collaborators H).

(** X16: a [Restore] that returns without error has, after finding hosts
    and history and choosing a valid target, made these calls and no others,
    all on the first host and every one answered without error: the drop of
    the keyspace; the download of the schema key of the target under its
    parent, the copy of the file that this download returned, the command
    that applies it; the download of the keys of the target, one copy for
    every file that this download returned, and one sstableload at the end,
    on exactly the directories the files were copied to. *)
Theorem Restore_success p p' :
  Restore c p = (Ret tt, p') ->
  exists hosts target p1 host0 h localFile keys files order dirs,
    Restore_prepare c p = (Ret (hosts, target), p1) /\
    hosts !! 0 = Some host0 /\ hist p1 = Some h /\
    Keys h target = inl keys /\ order ≡ₚ map_to_list files /\
    let cfg := config p in
    let key := createSchema_key cfg (Parent h target) target in
    let remoteFile := strings.TrimSuffix (path.Join (remoteTmpDir cfg) key) ".gz" in
    let drop := EvAgentRun host0 (dropKeyspace_cmd cfg) in
    let schema := [EvS3DownloadKey key (localTmpDir cfg);
                   EvAgentUploadFile host0 localFile (path.Dir remoteFile);
                   EvAgentRun host0 (createSchema_cmd cfg remoteFile)] in
    let load := EvS3DownloadKeys keys (localTmpDir cfg)
                  :: map (upload_event host0 (remoteTmpDir cfg)) order
                  ++ [EvSstableload host0 dirs] in
    trace p' = trace p1
      ++ [EvAgentRun host0 (dropKeyspace_cmd cfg);
          EvS3DownloadKey key (localTmpDir cfg);
          EvAgentUploadFile host0 localFile (path.Dir remoteFile);
          EvAgentRun host0 (createSchema_cmd cfg remoteFile);
          EvS3DownloadKeys keys (localTmpDir cfg)]
      ++ map (upload_event host0 (remoteTmpDir cfg)) order
      ++ [EvSstableload host0 dirs] /\
    s3_downloadKey c cfg (trace p1 ++ [drop]) key (localTmpDir cfg) = inl localFile /\
    s3_downloadKeys c cfg (trace p1 ++ drop :: schema) keys (localTmpDir cfg)
    = inl files /\
    (forall d, is_Some (dirs !! d) <->
       exists k, is_Some (files !! k) /\
                 d = path.Dir (remoteTmpDir cfg ++ "/" ++ k)%string) /\
    all_ok c cfg (trace p1) (drop :: schema ++ load) = true.
Proof.
  intros ER.
  destruct (Restore_prepare c p) as [[[hosts target]|e|] p1] eqn:E.
  2:{ by rewrite (Restore_prepare_fails c _ _ _ E) in ER. }
  2:{ by destruct (Restore_prepare_frame c _ _ _ E) as (? & _). }
  destruct (Restore_prepare_frame c _ _ _ E) as (_ & Hc & _ & _ & Hv).
  destruct (Hv _ eq_refl) as ([h Hh] & host0 & Hh0). simpl in Hh0.
  rewrite (Restore_after_prepare c _ _ _ _ _ E Hh0) in ER.
  pose proof (Restore_steps_abort c _ _ _ _ _ _ Hh ER) as (evs & Hevs & Hcase).
  unfold Restore_steps in ER.
  unfold bind at 1, wrap at 1 in ER. rewrite deleteKeyspace_cases in ER.
  destruct (agent_Run c (config p1) (trace p1) host0 _); [|done].
  set (q1 := emit (EvAgentRun host0 (dropKeyspace_cmd (config p1))) p1) in *.
  assert (Hq1 : hist q1 = Some h) by done.
  unfold bind at 1, wrap at 1 in ER. rewrite (createSchema_cases c _ _ _ _ Hq1) in ER.
  cbv zeta in ER. simpl config in ER. simpl trace in ER.
  destruct (s3_downloadKey c (config p1) _ _ _) as [localFile|e0] eqn:Hdk; [|done].
  destruct (agent_UploadFile c (config p1) _ host0 localFile _); [done|].
  destruct (agent_Run c (config p1) _ host0 _); [|done].
  cbv beta iota in ER.
  match type of ER with
  | wrap _ _ ?q = _ => set (q2 := q) in *
  end.
  assert (Hq2 : hist q2 = Some h) by done.
  unfold wrap in ER.
  destruct (loadSnapshot c host0 target q2) as [[[]|?|] q3] eqn:El; try done.
  inversion ER; subst q3.
  destruct (loadSnapshot_Ret c _ _ _ _ _ Hq2 El)
    as (keys & files & order & dirs & HK & Hdl & Hperm & Ht & Hdirs).
  exists hosts, target, p1, host0, h, localFile, keys, files, order, dirs.
  repeat (split; [done|]). cbv zeta. rewrite <- Hc.
  assert (Htr : trace p' = trace p1
      ++ [EvAgentRun host0 (dropKeyspace_cmd (config p1));
          EvS3DownloadKey (createSchema_key (config p1) (Parent h target) target)
            (localTmpDir (config p1));
          EvAgentUploadFile host0 localFile
            (path.Dir (strings.TrimSuffix
               (path.Join (remoteTmpDir (config p1))
                  (createSchema_key (config p1) (Parent h target) target)) ".gz"));
          EvAgentRun host0
            (createSchema_cmd (config p1)
               (strings.TrimSuffix
                  (path.Join (remoteTmpDir (config p1))
                     (createSchema_key (config p1) (Parent h target) target)) ".gz"));
          EvS3DownloadKeys keys (localTmpDir (config p1))]
      ++ map (upload_event host0 (remoteTmpDir (config p1))) order
      ++ [EvSstableload host0 dirs]).
  { rewrite Ht. unfold q2, q1. simpl. by rewrite <- !app_assoc. }
  split; [exact Htr|]. split; [exact Hdk|]. split.
  { rewrite <- Hdl. unfold q2, q1. simpl. by rewrite <- !app_assoc. }
  split; [exact Hdirs|].
  rewrite HK in Hcase. simpl in Hcase.
  rewrite Htr in Hevs. apply app_inv_head in Hevs as <-. exact Hcase.
Qed.

End RestoreSuccess.

(** *** [History] at work *)

#[local] Existing Instance Scenario.History_methods.

(** [History] on a fresh object prints the one snapshot that S3 holds. *)
Lemma History_prints_or_fails_witness :
  let c := Scenario.scripted Scenario.hosts3 (inl Scenario.stored1) Scenario.t2
             Scenario.never in
  let p := Scenario.fresh Scenario.cfg0 in
  let p' := mkPriam Scenario.cfg0 (Some Scenario.stored1)
              [EvS3SnapshotHistory; EvPrintf "backup list:
2024-01-01_000000"] in
  History c p = (Ret tt, p') /\
  exists evs, trace p' = trace p ++ evs /\
    ((exists e, Ret tt = Fail (Wrap (Wrap e "error getting snapshot history")
                                 "error getting snapshot history") /\
                s3_SnapshotHistory c (config p) (trace p) = inr e /\
                hist p' = None /\ Forall (fun ev => is_printf ev = false) evs)
     \/ (Ret tt = Ret tt /\
         exists h pre, hist p' = Some h /\
           evs = pre ++ [EvPrintf ("backup list:" ++ String "010"%char (HistString h))] /\
           Forall (fun ev => is_printf ev = false) pre)).
Proof.
  intros c p p'.
  assert (E : History c p = (Ret tt, p')) by reflexivity.
  split; [exact E|]. exact (History_prints_or_fails c p _ _ E).
Defined.

(** ** The scenarios of the specification, and the theorems at work *)

Import Scenario.

Example scenario_incremental_parent :
  fst (Backup_prepare (scripted hosts3 (inl stored1) t2 never) (fresh cfg0))
  = Ret (hosts3, t2, t1).
Proof. reflexivity. Qed.

Example scenario_parent_lookup : Parent stored2 t2 = t1.
Proof. reflexivity. Qed.

Example scenario_first_backup_is_full :
  fst (Backup_prepare (scripted hosts3 (inl []) t1 never) (fresh cfg0))
  = Ret (hosts3, t1, t1).
Proof. reflexivity. Qed.

Example scenario_valid_on_empty_history : Valid ([] : History) t3 = false.
Proof. reflexivity. Qed.

Example scenario_restore_empty_history :
  fst (Restore (scripted hosts3 (inl []) t1 never) (fresh cfg0))
  = Fail (Errorf "no existing backup to restore from").
Proof. reflexivity. Qed.

Example scenario_host_two_of_three_fails :
  Backup (scripted hosts3 (inl []) t1 fails_upload_h2) (fresh cfg0)
  = (Fail (Wrap injected "upload @ h2"),
     mkPriam (set_Incremental false cfg0) (Some [])
       [EvHosts; EvS3SnapshotHistory; EvTimeNow; EvSchemaBackup "h1";
        EvS3UploadFile "h1" "/tmp/h1/schema.cql"
          "/base/ks/2024-01-01_000000/2024-01-01_000000/ks.schema.gz";
        EvSnapshot "h1" t1;
        EvS3UploadFiles t1 t1 "h1" ["/data/h1/snapshots/2024-01-01_000000/t-Data.db"];
        EvDeleteSnapshot "h1" ["/data/h1/snapshots/2024-01-01_000000"];
        EvSnapshot "h2" t1;
        EvS3UploadFiles t1 t1 "h2" ["/data/h2/snapshots/2024-01-01_000000/t-Data.db"]]).
Proof. reflexivity. Qed.

(** C1, as the specification states it, fails when the new timestamp equals
    the last one: [Backup] does not reject it and runs to the end. *)
Lemma Backup_accepts_equal_timestamp :
  let c := scripted ["h1"] (inl stored1) t1 never in
  let p := fresh cfg0 in
  ready c p ["h1"] stored1 (loaded cfg0 stored1) /\
  last (List stored1) = Some t1 /\
  time_Now c (trace (loaded cfg0 stored1)) = t1 /\
  String.leb t1 t1 = true /\
  fst (Backup c p) = Ret tt /\
  fst (Backup c p) <> Fail (Errorf ("new timestamp " ++ t1 ++ " less than last")).
Proof. repeat split; done. Qed.

(** The clock reads a time before the last snapshot: [Backup] refuses. *)
Lemma Backup_rejects_older_timestamp_witness :
  let c := scripted hosts3 (inl stored1) earlier never in
  let p := fresh cfg0 in
  ready c p hosts3 stored1 (loaded cfg0 stored1) /\
  last (List stored1) = Some t1 /\
  String.ltb earlier t1 = true /\
  Backup c p = (Fail (Errorf "new timestamp 2023-12-31_235959 less than last"),
                emit EvTimeNow (loaded cfg0 stored1)).
Proof.
  intros c p.
  assert (Hr : ready c p hosts3 stored1 (loaded cfg0 stored1)) by (repeat split; done).
  assert (HT : last (List stored1) = Some t1) by reflexivity.
  assert (Hlt : String.ltb earlier t1 = true) by reflexivity.
  split; [exact Hr|]. split; [exact HT|]. split; [exact Hlt|].
  exact (proj1 (proj1 (Backup_rejects_older_timestamp c p hosts3 stored1 _ t1 Hr HT) Hlt)).
Defined.

(** An incremental backup over one full backup takes it as its parent. *)
Lemma Backup_parent_choice_witness :
  let c := scripted hosts3 (inl stored1) t2 never in
  let p := fresh cfg0 in
  let p2 := emit EvTimeNow (loaded cfg0 stored1) in
  ready c p hosts3 stored1 (loaded cfg0 stored1) /\
  Backup_prepare c p = (Ret (hosts3, t2, t1), p2) /\
  exists host0, hosts3 !! 0 = Some host0 /\
    Backup c p = (wrap "schema backup failed" (schemaBackup c t1 t2 host0) ;;;
                  range hosts3 (Backup_host c t1 t2)) p2.
Proof.
  intros c p p2.
  assert (Hr : ready c p hosts3 stored1 (loaded cfg0 stored1)) by (repeat split; done).
  assert (E : Backup_prepare c p = (Ret (hosts3, t2, t1), p2)) by reflexivity.
  split; [exact Hr|]. split; [exact E|].
  exact (proj1 (proj2 (proj2 (proj2 (Backup_parent_choice c p _ _ _ _ _ _ _ Hr E))))).
Defined.

(** A named snapshot that the history does not hold is refused. *)
Lemma Restore_target_witness :
  let c := scripted hosts3 (inl stored1) t2 never in
  let p := fresh (mkConfig "base" "ks" true t3 "cqlsh" "/tmp/priam") in
  let p1 := loaded (config p) stored1 in
  ready c p hosts3 stored1 p1 /\
  (forall T, last (List stored1) = Some T -> T <> "") /\
  ~ (List stored1 = [] /\ Snapshot (config p) = "") /\
  Valid stored1 t3 = false /\
  Restore c p = (Fail (Errorf "2024-03-01_000000 is not a valid snapshot"), p1).
Proof.
  intros c p p1.
  assert (Hr : ready c p hosts3 stored1 p1) by (repeat split; done).
  assert (Hts : forall T, last (List stored1) = Some T -> T <> "")
    by (intros T [= <-]; discriminate).
  assert (Hm : ~ (List stored1 = [] /\ Snapshot (config p) = ""))
    by (intros [? _]; discriminate).
  assert (Hv : Valid stored1 t3 = false) by reflexivity.
  split; [exact Hr|]. split; [exact Hts|]. split; [exact Hm|]. split; [exact Hv|].
  exact (proj1 (proj2 (proj2 (Restore_target c p _ _ _ Hr Hts))) Hm Hv).
Defined.

(** The download of the schema fails after the drop: it is the last call
    of the run, and the keyspace stays dropped. *)
Lemma Restore_drops_once_witness :
  let c := scripted hosts3 (inl stored2) t3 fails_download_key in
  let p := fresh cfg0 in
  let p1 := loaded cfg0 stored2 in
  let drop := EvAgentRun "h1" (dropKeyspace_cmd cfg0) in
  let download :=
    EvS3DownloadKey "/base/ks/2024-01-01_000000/2024-01-02_000000/ks.schema.gz"
      "/tmp/priam/local" in
  Restore_prepare c p = (Ret (hosts3, t2), p1) /\
  hosts3 !! 0 = Some "h1" /\
  oracle_error c (config p) (trace p1 ++ [drop]) download = Some injected /\
  trace (snd (Restore c p)) = trace p1 ++ [drop; download] /\
  List.length (List.filter is_drop (trace (snd (Restore c p)))) = 1 /\
  exists e, fst (Restore c p) = Fail e /\ wraps injected e.
Proof.
  intros c p p1 drop download.
  assert (E : Restore_prepare c p = (Ret (hosts3, t2), p1)) by reflexivity.
  assert (Hh0 : hosts3 !! 0 = Some "h1") by reflexivity.
  assert (Herr : oracle_error c (config p) (trace p1 ++ [drop]) download = Some injected)
    by reflexivity.
  assert (Hrun : trace (snd (Restore c p)) = trace p1 ++ [drop; download])
    by reflexivity.
  split; [exact E|]. split; [exact Hh0|]. split; [exact Herr|]. split; [exact Hrun|].
  destruct (Restore_drops_once c p _ _ _ _ E Hh0)
    as (r & p' & pre & rest & ER & Ht1 & Ht & _ & _ & Hcount & _ & _ & Hlast & _).
  rewrite ER in Hrun |- *. simpl snd in Hrun |- *. simpl fst.
  assert (Hrest : drop :: rest = [drop] ++ download :: []).
  { rewrite Ht, app_assoc, <- Ht1 in Hrun. exact (app_inv_head _ _ _ Hrun). }
  split.
  - rewrite Ht. exact Hcount.
  - exact (proj2 (Hlast [drop] download [] injected Hrest Herr)).
Defined.

(** The upload of the schema fails: no host is touched. *)
Lemma Backup_schema_failure_stops_witness :
  let c := scripted hosts3 (inl stored1) t2 fails_schema_upload in
  let p := fresh cfg0 in
  let p2 := emit EvTimeNow (loaded cfg0 stored1) in
  let key := "/base/ks/2024-01-01_000000/2024-01-02_000000/ks.schema.gz" in
  let p3 := emit (EvS3UploadFile "h1" "/tmp/h1/schema.cql" key)
              (emit (EvSchemaBackup "h1") p2) in
  let e := Wrap injected "schema upload @ h1" in
  Backup_prepare c p = (Ret (hosts3, t2, t1), p2) /\
  hosts3 !! 0 = Some "h1" /\
  schemaBackup c t1 t2 "h1" p2 = (Fail e, p3) /\
  Backup c p = (Fail (Wrap e "schema backup failed"), p3) /\
  exists evs, trace p3 = trace p ++ evs /\ Forall (fun ev => per_host_op ev = false) evs.
Proof.
  intros c p p2 key p3 e.
  assert (E : Backup_prepare c p = (Ret (hosts3, t2, t1), p2)) by reflexivity.
  assert (Hh0 : hosts3 !! 0 = Some "h1") by reflexivity.
  assert (Es : schemaBackup c t1 t2 "h1" p2 = (Fail e, p3)) by reflexivity.
  split; [exact E|]. split; [exact Hh0|]. split; [exact Es|].
  destruct (Backup_schema_failure_stops c p _ _ _ _ _ _ _ E Hh0 Es) as (EB & _ & Hev).
  split; [exact EB | exact Hev].
Defined.

(** The upload of the second of three hosts fails: it is the last call of
    the run, after the three calls of the first host and the snapshot of
    the second. *)
Lemma Backup_hosts_in_order_witness :
  let c := scripted hosts3 (inl stored1) t2 fails_upload_h2 in
  let p := fresh cfg0 in
  let p2 := emit EvTimeNow (loaded cfg0 stored1) in
  let key := "/base/ks/2024-01-01_000000/2024-01-02_000000/ks.schema.gz" in
  let p3 := emit (EvS3UploadFile "h1" "/tmp/h1/schema.cql" key)
              (emit (EvSchemaBackup "h1") p2) in
  let before := [EvSnapshot "h1" t2;
                 EvS3UploadFiles t1 t2 "h1" ["/data/h1/snapshots/2024-01-02_000000/t-Data.db"];
                 EvDeleteSnapshot "h1" ["/data/h1/snapshots/2024-01-02_000000"];
                 EvSnapshot "h2" t2] in
  let upload := EvS3UploadFiles t1 t2 "h2"
                  ["/data/h2/snapshots/2024-01-02_000000/t-Data.db"] in
  Backup_prepare c p = (Ret (hosts3, t2, t1), p2) /\
  hosts3 !! 0 = Some "h1" /\
  schemaBackup c t1 t2 "h1" p2 = (Ret tt, p3) /\
  oracle_error c (config p2) (trace p3 ++ before) upload = Some injected /\
  exists r p' evs,
    Backup c p = (r, p') /\ trace p' = trace p3 ++ evs /\
    evs = before ++ upload :: [] /\
    hosts_outcome t1 t2 hosts3 r evs /\
    (forall e, r = Fail e -> stopped_at c p' e) /\
    (r = Ret tt <-> all_ok c (config p2) (trace p3) evs = true) /\
    exists host msg,
      host ∈ hosts3 /\ failed_step t1 t2 host upload msg /\ r = Fail (Wrap injected msg).
Proof.
  intros c p p2 key p3 before upload.
  assert (E : Backup_prepare c p = (Ret (hosts3, t2, t1), p2)) by reflexivity.
  assert (Hh0 : hosts3 !! 0 = Some "h1") by reflexivity.
  assert (Es : schemaBackup c t1 t2 "h1" p2 = (Ret tt, p3)) by reflexivity.
  assert (Herr : oracle_error c (config p2) (trace p3 ++ before) upload = Some injected)
    by reflexivity.
  assert (Hrun : trace (snd (Backup c p)) = trace p3 ++ before ++ upload :: [])
    by reflexivity.
  split; [exact E|]. split; [exact Hh0|]. split; [exact Es|]. split; [exact Herr|].
  destruct (Backup_hosts_in_order c p _ _ _ _ _ _ E Hh0 Es)
    as (r & p' & evs & EB & Ht & Ho & Hstop & Hiff & Hlast).
  assert (Hevs : evs = before ++ upload :: []).
  { rewrite EB in Hrun. simpl snd in Hrun. rewrite Ht in Hrun.
    exact (app_inv_head _ _ _ Hrun). }
  exists r, p', evs. split; [exact EB|]. split; [exact Ht|]. split; [exact Hevs|].
  split; [exact Ho|]. split; [exact Hstop|]. split; [exact Hiff|].
  exact (proj2 (Hlast before upload [] injected Hevs Herr)).
Defined.

(** With a cached history nothing is loaded again. *)
Lemma SnapshotHistory_cached_once_witness :
  let c := scripted hosts3 (inl stored1) t2 never in
  let p := loaded cfg0 stored1 in
  hist p = Some stored1 /\
  SnapshotHistory c p = (Ret tt, p) /\
  Backup c ∈ operations c /\
  hist (snd (Backup c p)) = Some stored1.
Proof.
  intros c p.
  assert (Hh : hist p = Some stored1) by reflexivity.
  assert (Hop : Backup c ∈ operations c) by (right; right; left).
  split; [exact Hh|].
  split; [exact (proj1 (proj2 (proj2 (SnapshotHistory_cached_once c))) p _ Hh)|].
  split; [exact Hop|].
  exact (proj1 (proj2 (proj2 (proj2 (SnapshotHistory_cached_once c))) _ p _ Hop Hh)).
Defined.

(** The schema key of an incremental snapshot, written and read back. *)
Lemma schema_key_backup_restore_witness :
  let c := scripted hosts3 (inl stored2) t2 never in
  let p := loaded cfg0 stored1 in
  let q := loaded cfg0 stored2 in
  let key := "/base/ks/2024-01-01_000000/2024-01-02_000000/ks.schema.gz" in
  hist q = Some stored2 /\
  Parent stored2 t2 = t1 /\
  AwsBasePath (config q) = AwsBasePath (config p) /\
  Keyspace (config q) = Keyspace (config p) /\
  cassandra_SchemaBackup c (config p) (trace p) "h1" = inl "/tmp/h1/schema.cql" /\
  schemaBackup_key (config p) t1 t2 = key /\
  createSchema_key (config q) (Parent stored2 t2) t2 = key.
Proof.
  intros c p q key.
  assert (Hh : hist q = Some stored2) by reflexivity.
  assert (HP : Parent stored2 t2 = t1) by reflexivity.
  assert (Hb : AwsBasePath (config q) = AwsBasePath (config p)) by reflexivity.
  assert (Hk : Keyspace (config q) = Keyspace (config p)) by reflexivity.
  assert (Hd : cassandra_SchemaBackup c (config p) (trace p) "h1" = inl "/tmp/h1/schema.cql")
    by reflexivity.
  repeat (split; [assumption|]).
  destruct (schema_key_backup_restore c p q "h1" "h2" t1 t2 _ _ Hh HP Hb Hk Hd)
    as (K1 & K2 & _).
  split; [exact K1 | exact K2].
Defined.

(** Three files in two directories. *)
Lemma uploadFilesToHost_dirs_witness :
  let c := scripted hosts3 (inl stored1) t2 never in
  let p := loaded cfg0 stored1 in
  exists dirs p',
    uploadFilesToHost c "h1" "/tmp/priam/remote" files3 p = (Ret dirs, p') /\
    (forall d, is_Some (dirs !! d) <->
       exists key, is_Some (files3 !! key) /\
                   d = path.Dir ("/tmp/priam/remote" ++ "/" ++ key)%string) /\
    (forall d b, dirs !! d = Some b -> b = true).
Proof.
  intros c p.
  destruct (uploadFilesToHost c "h1" "/tmp/priam/remote" files3 p) as [r p'] eqn:E.
  assert (Hr : r = Ret ({[ "/tmp/priam/remote/base/ks/t1/t1/h1" := true;
                           "/tmp/priam/remote/base/ks/t1/t1/h2" := true ]}
                          : gmap string bool)).
  { apply (f_equal fst) in E. simpl in E. rewrite <- E. vm_compute. reflexivity. }
  subst r. eexists _, p'. split; [reflexivity|].
  exact (proj2 (uploadFilesToHost_dirs c "h1" "/tmp/priam/remote" files3 p _ p' E)).
Defined.

(** The first backup of a keyspace switches [Incremental] off. *)
Lemma Backup_config_frame_witness :
  let c := scripted hosts3 (inl []) t1 never in
  let p := fresh cfg0 in
  ready c p hosts3 [] (loaded cfg0 []) /\
  Backup_prepare c p
  = (Ret (hosts3, t1, t1),
     mkPriam (set_Incremental false cfg0) (Some []) [EvHosts; EvS3SnapshotHistory; EvTimeNow]) /\
  (List ([] : History) = [] \/ Incremental (config p) = false) /\
  Incremental cfg0 = true /\
  Incremental (config (snd (Backup c p))) = false.
Proof.
  intros c p.
  assert (Hr : ready c p hosts3 [] (loaded cfg0 [])) by (repeat split; done).
  assert (E : Backup_prepare c p
              = (Ret (hosts3, t1, t1),
                 mkPriam (set_Incremental false cfg0) (Some [])
                   [EvHosts; EvS3SnapshotHistory; EvTimeNow])) by reflexivity.
  assert (Hf : List ([] : History) = [] \/ Incremental (config p) = false)
    by (left; reflexivity).
  split; [exact Hr|]. split; [exact E|]. split; [exact Hf|]. split; [reflexivity|].
  exact (proj2 (proj2 (Backup_config_frame c p) _ _ _ _ _ Hr E Hf)).
Defined.

(** ** The further properties at work *)

(** A cluster without hosts. *)
Lemma no_hosts_fails_first_witness :
  let c := scripted [] (inl stored1) t2 never in
  let p := fresh cfg0 in
  cassandra_Hosts c (config p) (trace p) = [] /\
  Backup c p = (Fail (Errorf "unable to get any cassandra hosts"), emit EvHosts p) /\
  Restore c p = (Fail (Errorf "did not find valid cassandra hosts"), emit EvHosts p).
Proof.
  intros c p.
  assert (E : cassandra_Hosts c (config p) (trace p) = []) by reflexivity.
  split; [exact E|]. exact (no_hosts_fails_first c p E).
Defined.

(** S3 fails once and answers afterwards: the failure was not cached. *)
Lemma history_failure_is_not_cached_witness :
  let c := flaky in
  let p := fresh cfg0 in
  let msg := "error getting snapshot history" in
  let p' := emit EvS3SnapshotHistory (emit EvHosts p) in
  cassandra_Hosts c (config p) (trace p) = hosts3 /\ hosts3 <> [] /\
  hist p = None /\
  s3_SnapshotHistory c (config p) (trace p ++ [EvHosts]) = inr injected /\
  s3_SnapshotHistory c (config p') (trace p') = inl stored1 /\
  Backup c p = (Fail (Wrap (Wrap injected msg) msg), p') /\
  Restore c p = (Fail (Wrap injected msg), p') /\
  SnapshotHistory c p'
  = (Ret tt, mkPriam cfg0 (Some stored1) [EvHosts; EvS3SnapshotHistory; EvS3SnapshotHistory]).
Proof.
  intros c p msg p'.
  assert (Hh : cassandra_Hosts c (config p) (trace p) = hosts3) by reflexivity.
  assert (Hne : hosts3 <> []) by discriminate.
  assert (Hn : hist p = None) by reflexivity.
  assert (Hf : s3_SnapshotHistory c (config p) (trace p ++ [EvHosts]) = inr injected)
    by reflexivity.
  assert (Hs : s3_SnapshotHistory c (config p') (trace p') = inl stored1) by reflexivity.
  split; [exact Hh|]. split; [exact Hne|]. split; [exact Hn|]. split; [exact Hf|].
  split; [exact Hs|].
  destruct (history_failure_is_not_cached c p _ _ Hh Hne Hn Hf) as (EB & ER & _ & Hnext).
  split; [exact EB|]. split; [exact ER|]. exact (Hnext _ Hs).
Defined.

(** A restore on a fresh object asks S3 for the history once. *)
Lemma history_queried_at_most_once_witness :
  let c := scripted hosts3 (inl stored2) t3 never in
  let p := fresh cfg0 in
  Restore c ∈ operations c /\
  exists evs,
    trace (snd (Restore c p)) = trace p ++ evs /\
    List.length (List.filter is_history_query evs) <= 1.
Proof.
  intros c p.
  assert (Hop : Restore c ∈ operations c) by (right; right; right; left).
  split; [exact Hop|]. exact (history_queried_at_most_once c _ p Hop).
Defined.

(** The question for the hosts is common to both operations. *)
Lemma Backup_and_Restore_calls_witness :
  let c := scripted hosts3 (inl stored1) t2 never in
  let p := fresh cfg0 in
  backup_call EvHosts = true /\ restore_call EvHosts = true /\
  (EvHosts = EvHosts \/ EvHosts = EvS3SnapshotHistory) /\
  exists evs, trace (snd (Backup c p)) = trace p ++ evs /\
              Forall (fun ev => backup_call ev = true) evs.
Proof.
  intros c p.
  assert (Hb : backup_call EvHosts = true) by reflexivity.
  assert (Hr : restore_call EvHosts = true) by reflexivity.
  split; [exact Hb|]. split; [exact Hr|].
  split; [exact (proj2 (proj2 (Backup_and_Restore_calls c p)) _ Hb Hr)|].
  exact (proj1 (Backup_and_Restore_calls c p)).
Defined.

(** The first backup of a one-host cluster: the deletion follows the
    snapshot and the upload of that host. *)
Lemma Backup_deletes_only_after_upload_witness :
  let c := scripted ["h1"] (inl []) t1 never in
  let p := fresh cfg0 in
  let files := ["/data/h1/snapshots/2024-01-01_000000/t-Data.db"] in
  let dirs := ["/data/h1/snapshots/2024-01-01_000000"] in
  let t := [EvHosts; EvS3SnapshotHistory; EvTimeNow; EvSchemaBackup "h1";
            EvS3UploadFile "h1" "/tmp/h1/schema.cql"
              "/base/ks/2024-01-01_000000/2024-01-01_000000/ks.schema.gz";
            EvSnapshot "h1" t1; EvS3UploadFiles t1 t1 "h1" files] in
  trace (snd (Backup c p)) = t ++ EvDeleteSnapshot "h1" dirs :: [] /\
  exists t' parent ts files,
    t = t' ++ [EvSnapshot "h1" ts; EvS3UploadFiles parent ts "h1" files] /\
    cassandra_Snapshot c (config (snd (Backup c p))) t' "h1" ts = inl (files, dirs) /\
    s3_UploadFiles c (config (snd (Backup c p))) (t' ++ [EvSnapshot "h1" ts])
      parent ts "h1" files = None.
Proof.
  intros c p files dirs t.
  assert (E : trace (snd (Backup c p)) = t ++ EvDeleteSnapshot "h1" dirs :: [])
    by reflexivity.
  split; [exact E|].
  destruct (Backup_deletes_only_after_upload c p t "h1" dirs [] E) as [[post0 Hold]|Hnew].
  - discriminate Hold.
  - exact Hnew.
Defined.

(** The copy of the second of three files fails: the third is not tried. *)
Lemma uploadFilesToHost_stops_at_first_failure_witness :
  let c := scripted hosts3 (inl stored1) t2 fails_copy_b in
  let p := loaded cfg0 stored1 in
  let dir := "/tmp/priam/remote" in
  let e := Wrap injected "error uploading backup files to host" in
  let p' := mkPriam cfg0 (Some stored1)
              (trace p ++ map (upload_event "h1" dir) [entry_a; entry_b]) in
  uploadFilesToHost c "h1" dir files3 p = (Fail e, p') /\
  exists finished entry later e0,
    finished ++ entry :: later ≡ₚ map_to_list files3 /\
    trace p' = trace p ++ map (upload_event "h1" dir) (finished ++ [entry]) /\
    agent_UploadFile c (config p) (trace p ++ map (upload_event "h1" dir) finished)
      "h1" entry.2 (path.Dir (dir ++ "/" ++ entry.1)%string) = Some e0 /\
    e = Wrap e0 "error uploading backup files to host".
Proof.
  intros c p dir e p'.
  assert (E : uploadFilesToHost c "h1" dir files3 p = (Fail e, p')) by reflexivity.
  split; [exact E|]. exact (uploadFilesToHost_stops_at_first_failure c _ _ _ _ _ _ E).
Defined.

(** The load of the latest of two snapshots. *)
Lemma loadSnapshot_success_witness :
  let c := scripted hosts3 (inl stored2) t3 never in
  let p := loaded cfg0 stored2 in
  let p' := snd (loadSnapshot c "h1" t2 p) in
  let cfg := config p in
  hist p = Some stored2 /\
  loadSnapshot c "h1" t2 p = (Ret tt, p') /\
  exists keys files order dirs,
    Keys stored2 t2 = inl keys /\
    s3_downloadKeys c cfg (trace p) keys (localTmpDir cfg) = inl files /\
    order ≡ₚ map_to_list files /\
    trace p' = trace p ++ EvS3DownloadKeys keys (localTmpDir cfg)
                 :: map (upload_event "h1" (remoteTmpDir cfg)) order
                 ++ [EvSstableload "h1" dirs] /\
    (forall d, is_Some (dirs !! d) <->
       exists key, is_Some (files !! key) /\
                   d = path.Dir (remoteTmpDir cfg ++ "/" ++ key)%string).
Proof.
  intros c p p' cfg.
  assert (Hh : hist p = Some stored2) by reflexivity.
  assert (E : loadSnapshot c "h1" t2 p = (Ret tt, p')) by (vm_compute; reflexivity).
  split; [exact Hh|]. split; [exact E|].
  exact (loadSnapshot_success c _ _ _ _ _ Hh E).
Defined.

(** The download of the data fails: nothing is copied. *)
Lemma loadSnapshot_failure_witness :
  let c := scripted hosts3 (inl stored2) t3 fails_download_keys in
  let p := loaded cfg0 stored2 in
  let p' := snd (loadSnapshot c "h1" t2 p) in
  let e := Wrap injected "error downloading keys" in
  let h := stored2 in
  let host := "h1" in
  let cfg := config p in
  hist p = Some h /\
  loadSnapshot c host t2 p = (Fail e, p') /\
  ((exists e0, Keys h t2 = inr e0 /\
     e = Wrap e0 "failed to get all keys" /\ p' = p)
  \/ (exists keys, Keys h t2 = inl keys /\
      let D := EvS3DownloadKeys keys (localTmpDir cfg) in
      let copy := upload_event host (remoteTmpDir cfg) in
      ((exists e0, s3_downloadKeys c cfg (trace p) keys (localTmpDir cfg) = inr e0 /\
          e = Wrap e0 "error downloading keys" /\ trace p' = trace p ++ [D])
       \/ (exists files, s3_downloadKeys c cfg (trace p) keys (localTmpDir cfg) = inl files /\
           ((exists finished entry later e0,
               finished ++ entry :: later ≡ₚ map_to_list files /\
               trace p' = trace p ++ D :: map copy (finished ++ [entry]) /\
               oracle_error c cfg (trace p ++ D :: map copy finished) (copy entry) = Some e0 /\
               e = Wrap (Wrap e0 "error uploading backup files to host")
                     "could not upload files to host")
            \/ (exists order dirs e0,
                  order ≡ₚ map_to_list files /\
                  trace p' = trace p ++ D :: map copy order ++ [EvSstableload host dirs] /\
                  cassandra_sstableload c cfg (trace p ++ D :: map copy order) host dirs
                  = Some e0 /\
                  e = Wrap e0 "failed to run sstableloader")))))).
Proof.
  intros c p p' e h host cfg.
  assert (Hh : hist p = Some h) by reflexivity.
  assert (E : loadSnapshot c host t2 p = (Fail e, p')) by (vm_compute; reflexivity).
  split; [exact Hh|]. split; [exact E|].
  exact (loadSnapshot_failure c _ _ _ _ _ _ Hh E).
Defined.

(** The schema of the latest of two snapshots is applied after its copy. *)
Lemma createSchema_applies_after_copy_witness :
  let c := scripted hosts3 (inl stored2) t3 never in
  let p := loaded cfg0 stored2 in
  let p' := snd (createSchema c "h1" t2 p) in
  let key := "/base/ks/2024-01-01_000000/2024-01-02_000000/ks.schema.gz" in
  let localFile := "/tmp/priam/local/base/ks/2024-01-01_000000/2024-01-02_000000/ks.schema.gz" in
  let remoteDir := "/tmp/priam/remote/base/ks/2024-01-01_000000/2024-01-02_000000" in
  let cmd := "cat /tmp/priam/remote/base/ks/2024-01-01_000000/2024-01-02_000000/ks.schema | cqlsh" in
  let t := trace p ++ [EvS3DownloadKey key "/tmp/priam/local";
                       EvAgentUploadFile "h1" localFile remoteDir] in
  hist p = Some stored2 /\
  createSchema c "h1" t2 p = (Ret tt, p') /\
  trace p' = t ++ EvAgentRun "h1" cmd :: [] /\
  s3_downloadKey c cfg0 (trace p) key "/tmp/priam/local" = inl localFile /\
  agent_UploadFile c cfg0 (trace p ++ [EvS3DownloadKey key "/tmp/priam/local"])
    "h1" localFile remoteDir = None.
Proof.
  intros c p p' key localFile remoteDir cmd t.
  assert (Hh : hist p = Some stored2) by reflexivity.
  assert (E : createSchema c "h1" t2 p = (Ret tt, p')) by reflexivity.
  assert (Ht : trace p' = t ++ EvAgentRun "h1" cmd :: []) by reflexivity.
  split; [exact Hh|]. split; [exact E|]. split; [exact Ht|].
  destruct (createSchema_applies_after_copy c _ _ _ _ _ _ _ _ _ _ Hh E Ht)
    as [[post0 Hold]|(_ & _ & _ & lf & Heq & Hd & Hu)].
  - discriminate Hold.
  - apply app_inv_head in Heq. injection Heq as <-. split; [exact Hd | exact Hu].
Defined.

(** A download that brings nothing: sstableload runs on no directory. *)
Lemma loadSnapshot_without_files_witness :
  let c := with_download (scripted hosts3 (inl stored2) t3 never) ∅ in
  let p := loaded cfg0 stored2 in
  let keys := match Keys stored2 t2 with inl k => k | inr _ => ∅ end in
  let D := EvS3DownloadKeys keys "/tmp/priam/local" in
  hist p = Some stored2 /\
  Keys stored2 t2 = inl keys /\
  s3_downloadKeys c cfg0 (trace p) keys "/tmp/priam/local" = inl ∅ /\
  loadSnapshot c "h1" t2 p
  = (Ret tt, mkPriam cfg0 (Some stored2) (trace p ++ [D; EvSstableload "h1" ∅])).
Proof.
  intros c p keys D.
  assert (Hh : hist p = Some stored2) by reflexivity.
  assert (HK : Keys stored2 t2 = inl keys) by reflexivity.
  assert (Hd : s3_downloadKeys c cfg0 (trace p) keys "/tmp/priam/local" = inl ∅)
    by reflexivity.
  split; [exact Hh|]. split; [exact HK|]. split; [exact Hd|].
  exact (loadSnapshot_without_files c "h1" t2 p _ _ Hh HK Hd).
Defined.

(** The first backup of a keyspace, then a restore on the same object. *)
Lemma Restore_after_first_Backup_witness :
  let c := scripted hosts3 (inl []) t1 never in
  let p := fresh cfg0 in
  let p' := snd (Backup c p) in
  ready c p hosts3 [] (loaded cfg0 []) /\
  List ([] : History) = [] /\
  Snapshot (config p) = "" /\
  cassandra_Hosts c (config p') (trace p') <> [] /\
  fst (Backup c p) = Ret tt /\
  Restore c p' = (Fail (Errorf "no existing backup to restore from"), emit EvHosts p').
Proof.
  intros c p p'.
  assert (Hr : ready c p hosts3 [] (loaded cfg0 [])) by (repeat split; done).
  assert (Hl : List ([] : History) = []) by reflexivity.
  assert (Hs : Snapshot (config p) = "") by reflexivity.
  assert (Hne : cassandra_Hosts c (config p') (trace p') <> []) by discriminate.
  split; [exact Hr|]. split; [exact Hl|]. split; [exact Hs|]. split; [exact Hne|].
  split; [reflexivity|].
  exact (Restore_after_first_Backup c p _ _ _ Hr Hl Hs Hne).
Defined.

(** Two backups on one object: the parent of the second is the snapshot
    that S3 held before the first; after a first backup of a keyspace the
    second is a full one again. *)
Lemma second_Backup_uses_cached_history_witness :
  let c := scripted hosts3 (inl stored1) t2 never in
  let p := fresh cfg0 in
  let p' := snd (Backup c p) in
  let c0 := scripted hosts3 (inl []) t1 never in
  let q' := snd (Backup c0 p) in
  ready c p hosts3 stored1 (loaded cfg0 stored1) /\
  cassandra_Hosts c (config p') (trace p') <> [] /\
  last (List stored1) = Some t1 /\ string_gt t1 t2 = false /\
  Incremental (config p') = true /\
  Backup_prepare c p' = (Ret (hosts3, t2, t1), emit EvTimeNow (emit EvHosts p')) /\
  ready c0 p hosts3 [] (loaded cfg0 []) /\
  cassandra_Hosts c0 (config q') (trace q') <> [] /\
  List ([] : History) = [] /\
  Backup_prepare c0 q'
  = (Ret (hosts3, t1, t1),
     mkPriam (set_Incremental false (config q')) (Some []) (trace q' ++ [EvHosts; EvTimeNow])).
Proof.
  intros c p p' c0 q'.
  assert (Hr : ready c p hosts3 stored1 (loaded cfg0 stored1)) by (repeat split; done).
  assert (Hne : cassandra_Hosts c (config p') (trace p') <> []) by discriminate.
  assert (Hlast : last (List stored1) = Some t1) by reflexivity.
  assert (Hgt : string_gt t1 t2 = false) by reflexivity.
  assert (Hinc : Incremental (config p') = true) by reflexivity.
  assert (Hr0 : ready c0 p hosts3 [] (loaded cfg0 [])) by (repeat split; done).
  assert (Hne0 : cassandra_Hosts c0 (config q') (trace q') <> []) by discriminate.
  assert (Hl0 : List ([] : History) = []) by reflexivity.
  split; [exact Hr|]. split; [exact Hne|]. split; [exact Hlast|]. split; [exact Hgt|].
  split; [exact Hinc|].
  split; [exact (proj1 (second_Backup_uses_cached_history c p _ _ _ Hr Hne) _ Hlast Hgt Hinc)|].
  split; [exact Hr0|]. split; [exact Hne0|]. split; [exact Hl0|].
  exact (proj2 (second_Backup_uses_cached_history c0 p _ _ _ Hr0 Hne0) Hl0).
Defined.

(** An incremental backup of three hosts: eleven calls after the clock. *)
Lemma Backup_success_witness :
  let c := scripted hosts3 (inl stored1) t2 never in
  let p := fresh cfg0 in
  let p' := snd (Backup c p) in
  Backup c p = (Ret tt, p') /\
  exists hosts ts parent p2 host0 file blocks,
    Backup_prepare c p = (Ret (hosts, ts, parent), p2) /\
    hosts !! 0 = Some host0 /\
    cassandra_SchemaBackup c (config p2) (trace p2) host0 = inl file /\
    Forall2 (host_block parent ts) hosts blocks /\
    trace p' = trace p2
      ++ [EvSchemaBackup host0;
          EvS3UploadFile host0 file (schemaBackup_key (config p2) parent ts)]
      ++ concat blocks /\
    List.length (trace p') = List.length (trace p2) + 2 + 3 * List.length hosts.
Proof.
  intros c p p'.
  assert (E : Backup c p = (Ret tt, p')) by reflexivity.
  split; [exact E|]. exact (Backup_success c p _ E).
Defined.

(** A restore of the latest of two snapshots. *)
Lemma Restore_success_witness :
  let c := scripted hosts3 (inl stored2) t3 never in
  let p := fresh cfg0 in
  let p' := snd (Restore c p) in
  Restore c p = (Ret tt, p') /\
  exists hosts target p1 host0 h localFile keys files order dirs,
    Restore_prepare c p = (Ret (hosts, target), p1) /\
    hosts !! 0 = Some host0 /\ hist p1 = Some h /\
    Keys h target = inl keys /\ order ≡ₚ map_to_list files /\
    let cfg := config p in
    let key := createSchema_key cfg (Parent h target) target in
    let remoteFile := strings.TrimSuffix (path.Join (remoteTmpDir cfg) key) ".gz" in
    let drop := EvAgentRun host0 (dropKeyspace_cmd cfg) in
    let schema := [EvS3DownloadKey key (localTmpDir cfg);
                   EvAgentUploadFile host0 localFile (path.Dir remoteFile);
                   EvAgentRun host0 (createSchema_cmd cfg remoteFile)] in
    let load := EvS3DownloadKeys keys (localTmpDir cfg)
                  :: map (upload_event host0 (remoteTmpDir cfg)) order
                  ++ [EvSstableload host0 dirs] in
    trace p' = trace p1
      ++ [EvAgentRun host0 (dropKeyspace_cmd cfg);
          EvS3DownloadKey key (localTmpDir cfg);
          EvAgentUploadFile host0 localFile (path.Dir remoteFile);
          EvAgentRun host0 (createSchema_cmd cfg remoteFile);
          EvS3DownloadKeys keys (localTmpDir cfg)]
      ++ map (upload_event host0 (remoteTmpDir cfg)) order
      ++ [EvSstableload host0 dirs] /\
    s3_downloadKey c cfg (trace p1 ++ [drop]) key (localTmpDir cfg) = inl localFile /\
    s3_downloadKeys c cfg (trace p1 ++ drop :: schema) keys (localTmpDir cfg)
    = inl files /\
    (forall d, is_Some (dirs !! d) <->
       exists k, is_Some (files !! k) /\
                 d = path.Dir (remoteTmpDir cfg ++ "/" ++ k)%string) /\
    all_ok c cfg (trace p1) (drop :: schema ++ load) = true.
Proof.
  intros c p p'.
  assert (E : Restore c p = (Ret tt, p')) by (vm_compute; reflexivity).
  split; [exact E|]. exact (Restore_success c p _ E).
Defined.
